(** * Verification of the gensio stack runtime helpers

    This development embeds three pieces of the gensio sources and proves
    properties of them:

    - [FdLL]: the file-descriptor lower layer of [lib/gensio_ll_fd.c];
    - [Ioinfo]: the out-of-band send queue of the [ioinfo] tool;
    - [Avahi]: the timer half of the Avahi poll bridge ([avahi_watcher.c]).

    C state is threaded explicitly.  Calls that leave the embedded code (the
    upward callback, the driver hooks, the OS functions) are recorded in a
    trace, and their answers are read from an environment that every theorem
    quantifies over. *)

From Stdlib Require Import ZArith Lia List Bool Strings.Byte.
From stdpp Require Import base tactics option list strings gmap.

Local Open Scope Z_scope.

(** ** Error codes *)

(** Modelled from the spec: [gensio_err.h] is not part of the sources at hand.
    The constructors are the error kinds of the error table of the
    specification; [GE_NOERR] is the C value [0], every other constructor is
    non-zero, and [GE_IOERR] stands for any transport error. *)
Inductive gensio_err :=
| GE_NOERR | GE_NOMEM | GE_NOTSUP | GE_INVAL | GE_NOTREADY | GE_INUSE
| GE_INPROGRESS | GE_REMCLOSE | GE_TIMEDOUT | GE_CANCELLED | GE_IOERR.

Global Instance gensio_err_eq_dec : EqDecision gensio_err.
Proof. solve_decision. Defined.

Global Instance byte_eq_dec : EqDecision byte := Byte.byte_eq_dec.

(** The C test [if (err)]. *)
Definition is_err (e : gensio_err) : bool :=
  match e with GE_NOERR => false | _ => true end.

(** [unsigned int] and [gensiods] arithmetic wraps around. *)
Definition wrap32 (z : Z) : Z := z mod 2 ^ 32.
Definition wrap64 (z : Z) : Z := z mod 2 ^ 64.

(** * The file-descriptor lower layer *)

Module FdLL.

Inductive fd_state := FD_CLOSED | FD_IN_OPEN | FD_OPEN | FD_IN_CLOSE.

Global Instance fd_state_eq_dec : EqDecision fd_state.
Proof. solve_decision. Defined.

(** [struct gensio_fd_ll_ops] is declared in a header that is not among the
    sources.  The lower layer only tests which optional hooks are present;
    what a hook answers comes from the environment. *)
Record gensio_fd_ll_ops := {
  has_sub_open : bool;
  has_retry_open : bool;
  has_check_close : bool;
  has_read_ready : bool;
  has_write_ready : bool;
  has_except_ready : bool;
  has_write : bool;
}.

(** [struct fd_ll].  Function pointers and user data are numbers; a [done]
    pointer that may be [NULL] is an [option].  The handles [ll], [o], [lock],
    [close_timer] and [deferred_op_runner] are fixed at allocation and live in
    the [world] below. *)
Record fd_ll := {
  refcount : Z;
  cb : Z;
  cb_data : Z;
  fd : Z;
  state : fd_state;
  read_enabled : bool;
  write_enabled : bool;
  write_only : bool;
  ops : gensio_fd_ll_ops;
  handler_data : Z;
  open_done : option Z;
  open_data : Z;
  open_err : gensio_err;
  close_done : option Z;
  close_data : Z;
  read_data : list byte;
  read_data_size : Z;
  read_data_len : Z;
  read_data_pos : Z;
  auxdata : option (list string);
  in_read : bool;
  deferred_op_pending : bool;
  deferred_read : bool;
  deferred_close : bool;
}.

Definition set_refcount (v : Z) (s : fd_ll) : fd_ll :=
  {| refcount := v; cb := cb s; cb_data := cb_data s; fd := fd s; state :=
  state s; read_enabled := read_enabled s; write_enabled := write_enabled s;
  write_only := write_only s; ops := ops s; handler_data := handler_data s;
  open_done := open_done s; open_data := open_data s; open_err := open_err s;
  close_done := close_done s; close_data := close_data s; read_data :=
  read_data s; read_data_size := read_data_size s; read_data_len :=
  read_data_len s; read_data_pos := read_data_pos s; auxdata := auxdata s;
  in_read := in_read s; deferred_op_pending := deferred_op_pending s;
  deferred_read := deferred_read s; deferred_close := deferred_close s |}.
Definition set_cb (v : Z) (s : fd_ll) : fd_ll :=
  {| refcount := refcount s; cb := v; cb_data := cb_data s; fd := fd s; state
  := state s; read_enabled := read_enabled s; write_enabled := write_enabled
  s; write_only := write_only s; ops := ops s; handler_data := handler_data s;
  open_done := open_done s; open_data := open_data s; open_err := open_err s;
  close_done := close_done s; close_data := close_data s; read_data :=
  read_data s; read_data_size := read_data_size s; read_data_len :=
  read_data_len s; read_data_pos := read_data_pos s; auxdata := auxdata s;
  in_read := in_read s; deferred_op_pending := deferred_op_pending s;
  deferred_read := deferred_read s; deferred_close := deferred_close s |}.
Definition set_cb_data (v : Z) (s : fd_ll) : fd_ll :=
  {| refcount := refcount s; cb := cb s; cb_data := v; fd := fd s; state :=
  state s; read_enabled := read_enabled s; write_enabled := write_enabled s;
  write_only := write_only s; ops := ops s; handler_data := handler_data s;
  open_done := open_done s; open_data := open_data s; open_err := open_err s;
  close_done := close_done s; close_data := close_data s; read_data :=
  read_data s; read_data_size := read_data_size s; read_data_len :=
  read_data_len s; read_data_pos := read_data_pos s; auxdata := auxdata s;
  in_read := in_read s; deferred_op_pending := deferred_op_pending s;
  deferred_read := deferred_read s; deferred_close := deferred_close s |}.
Definition set_fd (v : Z) (s : fd_ll) : fd_ll :=
  {| refcount := refcount s; cb := cb s; cb_data := cb_data s; fd := v; state
  := state s; read_enabled := read_enabled s; write_enabled := write_enabled
  s; write_only := write_only s; ops := ops s; handler_data := handler_data s;
  open_done := open_done s; open_data := open_data s; open_err := open_err s;
  close_done := close_done s; close_data := close_data s; read_data :=
  read_data s; read_data_size := read_data_size s; read_data_len :=
  read_data_len s; read_data_pos := read_data_pos s; auxdata := auxdata s;
  in_read := in_read s; deferred_op_pending := deferred_op_pending s;
  deferred_read := deferred_read s; deferred_close := deferred_close s |}.
Definition set_state (v : fd_state) (s : fd_ll) : fd_ll :=
  {| refcount := refcount s; cb := cb s; cb_data := cb_data s; fd := fd s;
  state := v; read_enabled := read_enabled s; write_enabled := write_enabled
  s; write_only := write_only s; ops := ops s; handler_data := handler_data s;
  open_done := open_done s; open_data := open_data s; open_err := open_err s;
  close_done := close_done s; close_data := close_data s; read_data :=
  read_data s; read_data_size := read_data_size s; read_data_len :=
  read_data_len s; read_data_pos := read_data_pos s; auxdata := auxdata s;
  in_read := in_read s; deferred_op_pending := deferred_op_pending s;
  deferred_read := deferred_read s; deferred_close := deferred_close s |}.
Definition set_read_enabled (v : bool) (s : fd_ll) : fd_ll :=
  {| refcount := refcount s; cb := cb s; cb_data := cb_data s; fd := fd s;
  state := state s; read_enabled := v; write_enabled := write_enabled s;
  write_only := write_only s; ops := ops s; handler_data := handler_data s;
  open_done := open_done s; open_data := open_data s; open_err := open_err s;
  close_done := close_done s; close_data := close_data s; read_data :=
  read_data s; read_data_size := read_data_size s; read_data_len :=
  read_data_len s; read_data_pos := read_data_pos s; auxdata := auxdata s;
  in_read := in_read s; deferred_op_pending := deferred_op_pending s;
  deferred_read := deferred_read s; deferred_close := deferred_close s |}.
Definition set_write_enabled (v : bool) (s : fd_ll) : fd_ll :=
  {| refcount := refcount s; cb := cb s; cb_data := cb_data s; fd := fd s;
  state := state s; read_enabled := read_enabled s; write_enabled := v;
  write_only := write_only s; ops := ops s; handler_data := handler_data s;
  open_done := open_done s; open_data := open_data s; open_err := open_err s;
  close_done := close_done s; close_data := close_data s; read_data :=
  read_data s; read_data_size := read_data_size s; read_data_len :=
  read_data_len s; read_data_pos := read_data_pos s; auxdata := auxdata s;
  in_read := in_read s; deferred_op_pending := deferred_op_pending s;
  deferred_read := deferred_read s; deferred_close := deferred_close s |}.
Definition set_open_done (v : option Z) (s : fd_ll) : fd_ll :=
  {| refcount := refcount s; cb := cb s; cb_data := cb_data s; fd := fd s;
  state := state s; read_enabled := read_enabled s; write_enabled :=
  write_enabled s; write_only := write_only s; ops := ops s; handler_data :=
  handler_data s; open_done := v; open_data := open_data s; open_err :=
  open_err s; close_done := close_done s; close_data := close_data s;
  read_data := read_data s; read_data_size := read_data_size s; read_data_len
  := read_data_len s; read_data_pos := read_data_pos s; auxdata := auxdata s;
  in_read := in_read s; deferred_op_pending := deferred_op_pending s;
  deferred_read := deferred_read s; deferred_close := deferred_close s |}.
Definition set_open_data (v : Z) (s : fd_ll) : fd_ll :=
  {| refcount := refcount s; cb := cb s; cb_data := cb_data s; fd := fd s;
  state := state s; read_enabled := read_enabled s; write_enabled :=
  write_enabled s; write_only := write_only s; ops := ops s; handler_data :=
  handler_data s; open_done := open_done s; open_data := v; open_err :=
  open_err s; close_done := close_done s; close_data := close_data s;
  read_data := read_data s; read_data_size := read_data_size s; read_data_len
  := read_data_len s; read_data_pos := read_data_pos s; auxdata := auxdata s;
  in_read := in_read s; deferred_op_pending := deferred_op_pending s;
  deferred_read := deferred_read s; deferred_close := deferred_close s |}.
Definition set_open_err (v : gensio_err) (s : fd_ll) : fd_ll :=
  {| refcount := refcount s; cb := cb s; cb_data := cb_data s; fd := fd s;
  state := state s; read_enabled := read_enabled s; write_enabled :=
  write_enabled s; write_only := write_only s; ops := ops s; handler_data :=
  handler_data s; open_done := open_done s; open_data := open_data s; open_err
  := v; close_done := close_done s; close_data := close_data s; read_data :=
  read_data s; read_data_size := read_data_size s; read_data_len :=
  read_data_len s; read_data_pos := read_data_pos s; auxdata := auxdata s;
  in_read := in_read s; deferred_op_pending := deferred_op_pending s;
  deferred_read := deferred_read s; deferred_close := deferred_close s |}.
Definition set_close_done (v : option Z) (s : fd_ll) : fd_ll :=
  {| refcount := refcount s; cb := cb s; cb_data := cb_data s; fd := fd s;
  state := state s; read_enabled := read_enabled s; write_enabled :=
  write_enabled s; write_only := write_only s; ops := ops s; handler_data :=
  handler_data s; open_done := open_done s; open_data := open_data s; open_err
  := open_err s; close_done := v; close_data := close_data s; read_data :=
  read_data s; read_data_size := read_data_size s; read_data_len :=
  read_data_len s; read_data_pos := read_data_pos s; auxdata := auxdata s;
  in_read := in_read s; deferred_op_pending := deferred_op_pending s;
  deferred_read := deferred_read s; deferred_close := deferred_close s |}.
Definition set_close_data (v : Z) (s : fd_ll) : fd_ll :=
  {| refcount := refcount s; cb := cb s; cb_data := cb_data s; fd := fd s;
  state := state s; read_enabled := read_enabled s; write_enabled :=
  write_enabled s; write_only := write_only s; ops := ops s; handler_data :=
  handler_data s; open_done := open_done s; open_data := open_data s; open_err
  := open_err s; close_done := close_done s; close_data := v; read_data :=
  read_data s; read_data_size := read_data_size s; read_data_len :=
  read_data_len s; read_data_pos := read_data_pos s; auxdata := auxdata s;
  in_read := in_read s; deferred_op_pending := deferred_op_pending s;
  deferred_read := deferred_read s; deferred_close := deferred_close s |}.
Definition set_read_data (v : list byte) (s : fd_ll) : fd_ll :=
  {| refcount := refcount s; cb := cb s; cb_data := cb_data s; fd := fd s;
  state := state s; read_enabled := read_enabled s; write_enabled :=
  write_enabled s; write_only := write_only s; ops := ops s; handler_data :=
  handler_data s; open_done := open_done s; open_data := open_data s; open_err
  := open_err s; close_done := close_done s; close_data := close_data s;
  read_data := v; read_data_size := read_data_size s; read_data_len :=
  read_data_len s; read_data_pos := read_data_pos s; auxdata := auxdata s;
  in_read := in_read s; deferred_op_pending := deferred_op_pending s;
  deferred_read := deferred_read s; deferred_close := deferred_close s |}.
Definition set_read_data_len (v : Z) (s : fd_ll) : fd_ll :=
  {| refcount := refcount s; cb := cb s; cb_data := cb_data s; fd := fd s;
  state := state s; read_enabled := read_enabled s; write_enabled :=
  write_enabled s; write_only := write_only s; ops := ops s; handler_data :=
  handler_data s; open_done := open_done s; open_data := open_data s; open_err
  := open_err s; close_done := close_done s; close_data := close_data s;
  read_data := read_data s; read_data_size := read_data_size s; read_data_len
  := v; read_data_pos := read_data_pos s; auxdata := auxdata s; in_read :=
  in_read s; deferred_op_pending := deferred_op_pending s; deferred_read :=
  deferred_read s; deferred_close := deferred_close s |}.
Definition set_read_data_pos (v : Z) (s : fd_ll) : fd_ll :=
  {| refcount := refcount s; cb := cb s; cb_data := cb_data s; fd := fd s;
  state := state s; read_enabled := read_enabled s; write_enabled :=
  write_enabled s; write_only := write_only s; ops := ops s; handler_data :=
  handler_data s; open_done := open_done s; open_data := open_data s; open_err
  := open_err s; close_done := close_done s; close_data := close_data s;
  read_data := read_data s; read_data_size := read_data_size s; read_data_len
  := read_data_len s; read_data_pos := v; auxdata := auxdata s; in_read :=
  in_read s; deferred_op_pending := deferred_op_pending s; deferred_read :=
  deferred_read s; deferred_close := deferred_close s |}.
Definition set_auxdata (v : option (list string)) (s : fd_ll) : fd_ll :=
  {| refcount := refcount s; cb := cb s; cb_data := cb_data s; fd := fd s;
  state := state s; read_enabled := read_enabled s; write_enabled :=
  write_enabled s; write_only := write_only s; ops := ops s; handler_data :=
  handler_data s; open_done := open_done s; open_data := open_data s; open_err
  := open_err s; close_done := close_done s; close_data := close_data s;
  read_data := read_data s; read_data_size := read_data_size s; read_data_len
  := read_data_len s; read_data_pos := read_data_pos s; auxdata := v; in_read
  := in_read s; deferred_op_pending := deferred_op_pending s; deferred_read :=
  deferred_read s; deferred_close := deferred_close s |}.
Definition set_in_read (v : bool) (s : fd_ll) : fd_ll :=
  {| refcount := refcount s; cb := cb s; cb_data := cb_data s; fd := fd s;
  state := state s; read_enabled := read_enabled s; write_enabled :=
  write_enabled s; write_only := write_only s; ops := ops s; handler_data :=
  handler_data s; open_done := open_done s; open_data := open_data s; open_err
  := open_err s; close_done := close_done s; close_data := close_data s;
  read_data := read_data s; read_data_size := read_data_size s; read_data_len
  := read_data_len s; read_data_pos := read_data_pos s; auxdata := auxdata s;
  in_read := v; deferred_op_pending := deferred_op_pending s; deferred_read :=
  deferred_read s; deferred_close := deferred_close s |}.
Definition set_deferred_op_pending (v : bool) (s : fd_ll) : fd_ll :=
  {| refcount := refcount s; cb := cb s; cb_data := cb_data s; fd := fd s;
  state := state s; read_enabled := read_enabled s; write_enabled :=
  write_enabled s; write_only := write_only s; ops := ops s; handler_data :=
  handler_data s; open_done := open_done s; open_data := open_data s; open_err
  := open_err s; close_done := close_done s; close_data := close_data s;
  read_data := read_data s; read_data_size := read_data_size s; read_data_len
  := read_data_len s; read_data_pos := read_data_pos s; auxdata := auxdata s;
  in_read := in_read s; deferred_op_pending := v; deferred_read :=
  deferred_read s; deferred_close := deferred_close s |}.
Definition set_deferred_read (v : bool) (s : fd_ll) : fd_ll :=
  {| refcount := refcount s; cb := cb s; cb_data := cb_data s; fd := fd s;
  state := state s; read_enabled := read_enabled s; write_enabled :=
  write_enabled s; write_only := write_only s; ops := ops s; handler_data :=
  handler_data s; open_done := open_done s; open_data := open_data s; open_err
  := open_err s; close_done := close_done s; close_data := close_data s;
  read_data := read_data s; read_data_size := read_data_size s; read_data_len
  := read_data_len s; read_data_pos := read_data_pos s; auxdata := auxdata s;
  in_read := in_read s; deferred_op_pending := deferred_op_pending s;
  deferred_read := v; deferred_close := deferred_close s |}.
Definition set_deferred_close (v : bool) (s : fd_ll) : fd_ll :=
  {| refcount := refcount s; cb := cb s; cb_data := cb_data s; fd := fd s;
  state := state s; read_enabled := read_enabled s; write_enabled :=
  write_enabled s; write_only := write_only s; ops := ops s; handler_data :=
  handler_data s; open_done := open_done s; open_data := open_data s; open_err
  := open_err s; close_done := close_done s; close_data := close_data s;
  read_data := read_data s; read_data_size := read_data_size s; read_data_len
  := read_data_len s; read_data_pos := read_data_pos s; auxdata := auxdata s;
  in_read := in_read s; deferred_op_pending := deferred_op_pending s;
  deferred_read := deferred_read s; deferred_close := v |}.

(** The up-calls the lower layer makes: the event callback [cb] with
    [GENSIO_LL_CB_READ] or [GENSIO_LL_CB_WRITE_READY], the two completion
    callbacks, and the pass-through [gensio_fd_ll_callback]. *)
Inductive upcall :=
| UpRead (err : gensio_err) (off : Z) (buf : list byte) (buflen : Z)
         (aux : option (list string))
| UpWriteReady
| UpOpenDone (fn : Z) (arg : Z) (err : gensio_err) (data : Z)
| UpCloseDone (fn : Z) (arg : Z) (data : Z)
| UpDriver (op : Z).

(** The operations of [gensio_ll_fd_func] that user code may call, also from
    inside an up-call. *)
Inductive ll_call :=
| GENSIO_LL_FUNC_SET_CALLBACK (new_cb new_cb_data : Z)
| GENSIO_LL_FUNC_WRITE_SG (len : Z)
| GENSIO_LL_FUNC_OPEN (done : option Z) (data : Z)
| GENSIO_LL_FUNC_CLOSE (done : option Z) (data : Z)
| GENSIO_LL_FUNC_SET_READ_CALLBACK (enabled : bool)
| GENSIO_LL_FUNC_SET_WRITE_CALLBACK (enabled : bool)
| GENSIO_LL_FUNC_FREE
| GENSIO_LL_FUNC_DISABLE.

(** What a driver hook may call back into. *)
Inductive drv_call :=
| DrvHandleIncoming (res : gensio_err * list byte) (aux : option (list string))
| DrvCallback (op : Z).

Inductive ops_hook :=
| OpSubOpen | OpCheckOpen | OpRetryOpen | OpCheckCloseStart | OpCheckCloseDone
| OpReadReady | OpWriteReady | OpExceptReady | OpWrite | OpDoRead | OpFree.

(** Everything that leaves the lower layer, in the order it happens, and every
    change of the reference count.  An up-call records whether the lock was
    held and the reference count at the moment of the call; a change of the
    reference count records whether the lock was held and the new count;
    freeing the structure records whether the lock was held. *)
Inductive event :=
| EvLock
| EvUnlock
| EvRef (lock_held : bool) (refs : Z)
| EvDeref (lock_held : bool) (refs : Z)
| EvFree (lock_held : bool)
| EvUp (u : upcall) (lock_held : bool) (refs : Z)
| EvSetFdHandlers (h : Z)
| EvClearFdHandlers (h : Z)
| EvClearFdHandlersNorpt (h : Z)
| EvSetReadHandler (h : Z) (en : bool)
| EvSetWriteHandler (h : Z) (en : bool)
| EvSetExceptHandler (h : Z) (en : bool)
| EvClose (h : Z)
| EvRun
| EvStartTimer
| EvRead (h : Z) (size : Z)
| EvWrite (h : Z) (len : Z)
| EvOps (hook : ops_hook).

Global Instance upcall_eq_dec : EqDecision upcall.
Proof. solve_decision. Defined.
Global Instance ops_hook_eq_dec : EqDecision ops_hook.
Proof. solve_decision. Defined.
Global Instance event_eq_dec : EqDecision event.
Proof. solve_decision. Defined.

(** The lower layer together with what surrounds it: the lock, whether the
    structure was freed, the watcher bits of the OS functions for the handle,
    the trace (newest event first) and the number of answers taken from the
    environment. *)
Record world := {
  ll : fd_ll;
  held : bool;
  freed : bool;
  registered : bool;
  rd_armed : bool;
  wr_armed : bool;
  ex_armed : bool;
  clear_pending : bool;
  runner_queued : bool;
  timer_armed : bool;
  trace : list event;
  tick : nat;
}.

Definition set_ll (v : fd_ll) (s : world) : world :=
  {| ll := v; held := held s; freed := freed s; registered := registered s;
  rd_armed := rd_armed s; wr_armed := wr_armed s; ex_armed := ex_armed s;
  clear_pending := clear_pending s; runner_queued := runner_queued s;
  timer_armed := timer_armed s; trace := trace s; tick := tick s |}.
Definition set_held (v : bool) (s : world) : world :=
  {| ll := ll s; held := v; freed := freed s; registered := registered s;
  rd_armed := rd_armed s; wr_armed := wr_armed s; ex_armed := ex_armed s;
  clear_pending := clear_pending s; runner_queued := runner_queued s;
  timer_armed := timer_armed s; trace := trace s; tick := tick s |}.
Definition set_freed (v : bool) (s : world) : world :=
  {| ll := ll s; held := held s; freed := v; registered := registered s;
  rd_armed := rd_armed s; wr_armed := wr_armed s; ex_armed := ex_armed s;
  clear_pending := clear_pending s; runner_queued := runner_queued s;
  timer_armed := timer_armed s; trace := trace s; tick := tick s |}.
Definition set_registered (v : bool) (s : world) : world :=
  {| ll := ll s; held := held s; freed := freed s; registered := v; rd_armed
  := rd_armed s; wr_armed := wr_armed s; ex_armed := ex_armed s; clear_pending
  := clear_pending s; runner_queued := runner_queued s; timer_armed :=
  timer_armed s; trace := trace s; tick := tick s |}.
Definition set_rd_armed (v : bool) (s : world) : world :=
  {| ll := ll s; held := held s; freed := freed s; registered := registered s;
  rd_armed := v; wr_armed := wr_armed s; ex_armed := ex_armed s; clear_pending
  := clear_pending s; runner_queued := runner_queued s; timer_armed :=
  timer_armed s; trace := trace s; tick := tick s |}.
Definition set_wr_armed (v : bool) (s : world) : world :=
  {| ll := ll s; held := held s; freed := freed s; registered := registered s;
  rd_armed := rd_armed s; wr_armed := v; ex_armed := ex_armed s; clear_pending
  := clear_pending s; runner_queued := runner_queued s; timer_armed :=
  timer_armed s; trace := trace s; tick := tick s |}.
Definition set_ex_armed (v : bool) (s : world) : world :=
  {| ll := ll s; held := held s; freed := freed s; registered := registered s;
  rd_armed := rd_armed s; wr_armed := wr_armed s; ex_armed := v; clear_pending
  := clear_pending s; runner_queued := runner_queued s; timer_armed :=
  timer_armed s; trace := trace s; tick := tick s |}.
Definition set_clear_pending (v : bool) (s : world) : world :=
  {| ll := ll s; held := held s; freed := freed s; registered := registered s;
  rd_armed := rd_armed s; wr_armed := wr_armed s; ex_armed := ex_armed s;
  clear_pending := v; runner_queued := runner_queued s; timer_armed :=
  timer_armed s; trace := trace s; tick := tick s |}.
Definition set_runner_queued (v : bool) (s : world) : world :=
  {| ll := ll s; held := held s; freed := freed s; registered := registered s;
  rd_armed := rd_armed s; wr_armed := wr_armed s; ex_armed := ex_armed s;
  clear_pending := clear_pending s; runner_queued := v; timer_armed :=
  timer_armed s; trace := trace s; tick := tick s |}.
Definition set_timer_armed (v : bool) (s : world) : world :=
  {| ll := ll s; held := held s; freed := freed s; registered := registered s;
  rd_armed := rd_armed s; wr_armed := wr_armed s; ex_armed := ex_armed s;
  clear_pending := clear_pending s; runner_queued := runner_queued s;
  timer_armed := v; trace := trace s; tick := tick s |}.
Definition set_trace (v : list event) (s : world) : world :=
  {| ll := ll s; held := held s; freed := freed s; registered := registered s;
  rd_armed := rd_armed s; wr_armed := wr_armed s; ex_armed := ex_armed s;
  clear_pending := clear_pending s; runner_queued := runner_queued s;
  timer_armed := timer_armed s; trace := v; tick := tick s |}.
Definition set_tick (v : nat) (s : world) : world :=
  {| ll := ll s; held := held s; freed := freed s; registered := registered s;
  rd_armed := rd_armed s; wr_armed := wr_armed s; ex_armed := ex_armed s;
  clear_pending := clear_pending s; runner_queued := runner_queued s;
  timer_armed := timer_armed s; trace := trace s; tick := v |}.

(** ** Outcomes and the state monad *)

Inductive fault := AssertFailed | UseAfterFree | LockMisuse.

Inductive outcome (A : Type) :=
| Done (a : A)
| Abort (why : fault)
| NoFuel.
Arguments Done {A} a.
Arguments Abort {A} why.
Arguments NoFuel {A}.

Definition M (A : Type) : Type := world → outcome A * world.

Definition ret {A} (a : A) : M A := λ w, (Done a, w).

Definition bind {A B} (m : M A) (f : A → M B) : M B := λ w,
  match m w with
  | (Done a, w') => f a w'
  | (Abort why, w') => (Abort why, w')
  | (NoFuel, w') => (NoFuel, w')
  end.

Declare Scope fd_scope.
Delimit Scope fd_scope with fd.
Bind Scope fd_scope with M.
Notation "x ← y ; z" := (bind y (λ x, z))
  (at level 20, y at level 100, z at level 200, only parsing) : fd_scope.
Notation "y ;; z" := (bind y (λ _, z))
  (at level 100, z at level 200, only parsing, right associativity) : fd_scope.
Local Open Scope fd_scope.

Definition get : M fd_ll := λ w, (Done (ll w), w).
Definition modify (f : fd_ll → fd_ll) : M unit := λ w, (Done (), set_ll (f (ll w)) w).
Definition emit (e : event) : M unit := λ w, (Done (), set_trace (e :: trace w) w).
Definition update (g : world → world) : M unit := λ w, (Done (), g w).
Definition snap (f : world → event) : M unit :=
  λ w, (Done (), set_trace (f w :: trace w) w).
Definition abort {A} (why : fault) : M A := λ w, (Abort why, w).
Definition out_of_fuel {A} : M A := λ w, (NoFuel, w).
Definition skip : M unit := ret ().

(** ** The environment *)

(** The answers of everything outside the lower layer.  Each answer is
    indexed by the number of answers taken so far, so that successive calls
    may answer differently.  [user n u] is what the code above the lower layer
    does when it receives up-call [u]: the operations it calls before it
    returns, and the value it returns (the consumed count for a read). *)
Record env := {
  user : nat → upcall → list ll_call * Z;
  drv_hook : nat → list drv_call;
  drv_sub_open : nat → Z → gensio_err * Z;
  drv_check_open : nat → gensio_err;
  drv_retry_open : nat → gensio_err * Z;
  drv_check_close : nat → gensio_err;
  drv_write : nat → gensio_err * Z;
  os_write : nat → gensio_err * Z;
  os_read : nat → gensio_err * list byte;
  os_set_fd_handlers : nat → bool;
}.

Section Model.

Context (E : env).

Definition ask {A} (q : env → nat → A) : M A :=
  λ w, (Done (q E (tick w)), set_tick (S (tick w)) w).

(** ** The OS functions the lower layer uses *)

(** Modelled from the spec: the OS functions are an external collaborator.
    A lock is a plain mutex; an FD is registered with its four handlers, all
    disarmed, and each handler has an enable toggle; [clear_fd_handlers]
    unregisters the FD and owes one cleared report, the [norpt] variant owes
    none; [run] queues the deferred runner; [start_timer] arms the one-shot
    timer. *)
Definition fd_lock : M unit := λ w,
  if freed w then (Abort UseAfterFree, w)
  else if held w then (Abort LockMisuse, w)
  else (Done (), set_held true (set_trace (EvLock :: trace w) w)).

Definition fd_unlock : M unit := λ w,
  if held w then (Done (), set_held false (set_trace (EvUnlock :: trace w) w))
  else (Abort LockMisuse, w).

Definition o_set_fd_handlers : M bool :=
  s ← get;
  emit (EvSetFdHandlers (fd s));;
  failed ← ask os_set_fd_handlers;
  if failed : bool then ret true
  else
    update (λ w, set_registered true (set_rd_armed false (set_wr_armed false
                   (set_ex_armed false w))));;
    ret false.

Definition o_clear_fd_handlers : M unit :=
  s ← get;
  emit (EvClearFdHandlers (fd s));;
  update (λ w, set_registered false (set_rd_armed false (set_wr_armed false
                 (set_ex_armed false (set_clear_pending true w))))).

Definition o_clear_fd_handlers_norpt : M unit :=
  s ← get;
  emit (EvClearFdHandlersNorpt (fd s));;
  update (λ w, set_registered false (set_rd_armed false (set_wr_armed false
                 (set_ex_armed false w)))).

Definition o_set_read_handler (en : bool) : M unit :=
  s ← get;
  emit (EvSetReadHandler (fd s) en);;
  update (set_rd_armed en).

Definition o_set_write_handler (en : bool) : M unit :=
  s ← get;
  emit (EvSetWriteHandler (fd s) en);;
  update (set_wr_armed en).

Definition o_set_except_handler (en : bool) : M unit :=
  s ← get;
  emit (EvSetExceptHandler (fd s) en);;
  update (set_ex_armed en).

Definition o_run : M unit :=
  emit EvRun;; update (set_runner_queued true).

Definition o_start_timer : M unit :=
  emit EvStartTimer;; update (set_timer_armed true).

Definition os_close : M unit :=
  s ← get; emit (EvClose (fd s)).

(** ** Reference counting *)

Definition fd_ref : M unit :=
  modify (λ s, set_refcount (wrap32 (refcount s + 1)) s);;
  snap (λ w, EvRef (held w) (refcount (ll w))).

Definition fd_lock_and_ref : M unit :=
  fd_lock;;
  modify (λ s, set_refcount (wrap32 (refcount s + 1)) s);;
  snap (λ w, EvRef (held w) (refcount (ll w))).

Definition fd_finish_free : M unit :=
  emit (EvOps OpFree);;
  snap (λ w, EvFree (held w));;
  update (set_freed true).

Definition fd_deref_and_unlock : M unit :=
  s ← get;
  if 0 <? refcount s then
    let count := wrap32 (refcount s - 1) in
    modify (set_refcount count);;
    snap (λ w, EvDeref (held w) (refcount (ll w)));;
    fd_unlock;;
    if count =? 0 then fd_finish_free else skip
  else abort AssertFailed.

(** ** The operations of the lower layer *)

Definition is_state (st : fd_state) (s : fd_ll) : bool := bool_decide (state s = st).

Definition fd_set_callbacks (new_cb new_cb_data : Z) : M unit :=
  modify (set_cb new_cb);;
  modify (set_cb_data new_cb_data).

Definition fd_write (len : Z) : M (gensio_err * Z) :=
  s ← get;
  if has_write (ops s) then
    emit (EvOps OpWrite);;
    ask drv_write
  else
    emit (EvWrite (fd s) len);;
    ask os_write.

Definition fd_setup_handlers : M gensio_err :=
  failed ← o_set_fd_handlers;
  if failed : bool then ret GE_NOMEM else ret GE_NOERR.

Definition fd_start_close : M unit :=
  s ← get;
  (if has_check_close (ops s) then emit (EvOps OpCheckCloseStart) else skip);;
  modify (set_state FD_IN_CLOSE);;
  o_clear_fd_handlers.

Definition fd_sched_deferred_op : M unit :=
  s ← get;
  if negb (deferred_op_pending s) then
    fd_ref;;
    modify (set_deferred_op_pending true);;
    o_run
  else skip.

Definition fd_open (done : option Z) (data : Z) : M gensio_err :=
  s ← get;
  if negb (has_sub_open (ops s)) then ret GE_NOTSUP
  else
    fd_lock;;
    emit (EvOps OpSubOpen);;
    r ← ask (λ e n, drv_sub_open e n (fd s));
    modify (set_fd (snd r));;
    let err := fst r in
    if bool_decide (err = GE_INPROGRESS) || bool_decide (err = GE_NOERR) then
      err2 ← fd_setup_handlers;
      if is_err err2 then
        os_close;;
        modify (set_fd (-1));;
        fd_unlock;;
        ret err2
      else
        (if bool_decide (err = GE_INPROGRESS) then
           modify (set_state FD_IN_OPEN);;
           modify (set_open_done done);;
           modify (set_open_data data);;
           o_set_write_handler true;;
           o_set_except_handler true
         else
           modify (set_state FD_OPEN));;
        fd_unlock;;
        ret err
    else
      fd_unlock;;
      ret err.

Definition fd_close (done : option Z) (data : Z) : M gensio_err :=
  fd_lock;;
  s ← get;
  err ← (if is_state FD_OPEN s || is_state FD_IN_OPEN s then
           modify (set_close_done done);;
           modify (set_close_data data);;
           fd_start_close;;
           ret GE_NOERR
         else ret GE_NOTREADY);
  fd_unlock;;
  ret err.

Definition fd_set_read_callback_enable (enabled : bool) : M unit :=
  fd_lock;;
  s ← get;
  (if write_only s then skip
   else
     modify (set_read_enabled enabled);;
     s ← get;
     if in_read s || negb (is_state FD_OPEN s)
        || (negb (read_data_len s =? 0) && negb enabled) then
       (* It will be handled in finish_read or open finish. *)
       skip
     else if negb (read_data_len s =? 0) then
       modify (set_in_read true);;
       modify (set_deferred_read true);;
       fd_sched_deferred_op
     else
       o_set_read_handler enabled;;
       o_set_except_handler enabled);;
  fd_unlock.

Definition fd_set_write_callback_enable (enabled : bool) : M unit :=
  fd_lock;;
  modify (set_write_enabled enabled);;
  s ← get;
  (if is_state FD_OPEN s || is_state FD_IN_OPEN s then
     o_set_write_handler enabled
   else skip);;
  fd_unlock.

Definition fd_free : M unit :=
  fd_lock;;
  fd_deref_and_unlock.

Definition fd_disable : M unit :=
  modify (set_state FD_CLOSED);;
  o_clear_fd_handlers_norpt;;
  os_close;;
  modify (set_fd (-1)).

(** The dispatcher [gensio_ll_fd_func], restricted to the operations that
    change the lower layer. *)
Definition gensio_ll_fd_func (c : ll_call) : M gensio_err :=
  match c with
  | GENSIO_LL_FUNC_SET_CALLBACK new_cb new_cb_data =>
      fd_set_callbacks new_cb new_cb_data;; ret GE_NOERR
  | GENSIO_LL_FUNC_WRITE_SG len => r ← fd_write len; ret (fst r)
  | GENSIO_LL_FUNC_OPEN done data => fd_open done data
  | GENSIO_LL_FUNC_CLOSE done data => fd_close done data
  | GENSIO_LL_FUNC_SET_READ_CALLBACK enabled =>
      fd_set_read_callback_enable enabled;; ret GE_NOERR
  | GENSIO_LL_FUNC_SET_WRITE_CALLBACK enabled =>
      fd_set_write_callback_enable enabled;; ret GE_NOERR
  | GENSIO_LL_FUNC_FREE => fd_free;; ret GE_NOERR
  | GENSIO_LL_FUNC_DISABLE => fd_disable;; ret GE_NOERR
  end.

Fixpoint run_calls (cs : list ll_call) : M unit :=
  match cs with
  | [] => skip
  | c :: cs' => gensio_ll_fd_func c;; run_calls cs'
  end.

(** ** Up-calls *)

(** An up-call is recorded, the code above runs the operations it chooses, and
    the value it returns comes back. *)
Definition up (u : upcall) : M Z := λ w,
  let r := user E (tick w) u in
  let w1 := set_tick (S (tick w))
              (set_trace (EvUp u (held w) (refcount (ll w)) :: trace w) w) in
  (run_calls (fst r);; ret (snd r)) w1.

(** The bytes a read up-call sees: [buflen] bytes from [read_data + read_data_pos]. *)
Definition offered (s : fd_ll) : list byte :=
  take (Z.to_nat (read_data_len s)) (drop (Z.to_nat (read_data_pos s)) (read_data s)).

Definition up_read (err : gensio_err) : M Z :=
  s ← get;
  r ← up (UpRead err (read_data_pos s) (offered s) (read_data_len s) (auxdata s));
  ret (wrap64 r).

Definition gensio_fd_ll_callback (op : Z) : M Z :=
  up (UpDriver op).

Section Handlers.

(** The two [goto retry] loops need not end: [fuel] bounds the number of
    rounds of each. *)
Context (fuel : nat).

Fixpoint fd_deliver_retry (n : nat) (err : gensio_err) : M unit :=
  match n with
  | O => out_of_fuel
  | S n' =>
      count ← up_read err;
      s ← get;
      if is_err err || (read_data_len s <=? count) then
        modify (set_read_data_pos 0);;
        modify (set_read_data_len 0);;
        modify (set_auxdata None)
      else
        modify (λ s, set_read_data_pos (wrap64 (read_data_pos s + count)) s);;
        modify (λ s, set_read_data_len (wrap64 (read_data_len s - count)) s);;
        s ← get;
        if read_enabled s then fd_deliver_retry n' err else skip
  end.

Definition fd_deliver_read_data (err : gensio_err) : M unit :=
  s ← get;
  if is_err err || negb (read_data_len s =? 0) then fd_deliver_retry fuel err
  else skip.

Definition fd_finish_open_done (err : gensio_err) : M unit :=
  s ← get;
  (match open_done s with
   | Some fn =>
       modify (set_open_done None);;
       fd_unlock;;
       up (UpOpenDone fn (cb_data s) err (open_data s));;
       fd_lock
   | None => skip
   end);;
  s ← get;
  if is_state FD_OPEN s then
    (if read_enabled s then
       o_set_read_handler true;;
       o_set_except_handler true
     else skip);;
    (if write_enabled s then o_set_write_handler true else skip)
  else skip.

Definition fd_finish_open (err : gensio_err) : M unit :=
  s ← get;
  (if negb (fd s =? -1) then o_set_except_handler false else skip);;
  if is_err err then
    if fd s =? -1 then
      modify (set_state FD_CLOSED);;
      fd_finish_open_done err
    else
      modify (set_open_err err);;
      fd_start_close
  else
    modify (set_state FD_OPEN);;
    fd_finish_open_done err.

Definition fd_finish_close : M unit :=
  modify (set_state FD_CLOSED);;
  s ← get;
  match close_done s with
  | Some fn =>
      modify (set_close_done None);;
      fd_unlock;;
      up (UpCloseDone fn (cb_data s) (close_data s));;
      fd_lock
  | None => skip
  end.

Fixpoint fd_deferred_retry (n : nat) : M unit :=
  match n with
  | O => out_of_fuel
  | S n' =>
      s ← get;
      (if deferred_read s then
         modify (set_deferred_read false);;
         fd_unlock;;
         fd_deliver_read_data GE_NOERR;;
         fd_lock;;
         modify (set_in_read false)
       else skip);;
      s ← get;
      if deferred_read s then fd_deferred_retry n' else skip
  end.

Definition fd_deferred_op : M unit :=
  fd_lock;;
  s ← get;
  (if deferred_close s then
     modify (set_deferred_close false);;
     fd_finish_close
   else skip);;
  fd_deferred_retry fuel;;
  modify (set_deferred_op_pending false);;
  s ← get;
  (if is_state FD_OPEN s then
     o_set_read_handler (read_enabled s);;
     o_set_except_handler (read_enabled s);;
     o_set_write_handler (write_enabled s)
   else skip);;
  fd_deref_and_unlock.

(** [doread] is the reader handed to [fd_handle_incoming]; it answers an error
    or the bytes read, never more than the buffer holds. *)
Definition store_read (data : list byte) (aux : option (list string)) (s : fd_ll) : fd_ll :=
  set_auxdata aux
    (set_read_data_len (Z.of_nat (length data))
       (set_read_data (data ++ drop (length data) (read_data s)) s)).

Definition fd_handle_incoming (doread : M (gensio_err * list byte))
    (aux : option (list string)) : M unit :=
  fd_lock_and_ref;;
  o_set_read_handler false;;
  o_set_except_handler false;;
  s ← get;
  if in_read s then fd_deref_and_unlock
  else
    modify (set_in_read true);;
    fd_unlock;;
    s ← get;
    err ← (if read_data_len s =? 0 then
             r ← doread;
             if is_err (fst r) then ret (fst r)
             else modify (store_read (snd r) aux);; ret GE_NOERR
           else ret GE_NOERR);
    fd_deliver_read_data err;;
    fd_lock;;
    modify (set_in_read false);;
    s ← get;
    (if is_state FD_OPEN s && read_enabled s then
       o_set_read_handler true;;
       o_set_except_handler true
     else skip);;
    fd_deref_and_unlock.

Definition gensio_ll_fd_read : M (gensio_err * list byte) :=
  s ← get;
  emit (EvRead (fd s) (read_data_size s));;
  r ← ask os_read;
  ret (fst r, take (Z.to_nat (read_data_size s)) (snd r)).

Definition driver_read (res : gensio_err * list byte) : M (gensio_err * list byte) :=
  s ← get;
  emit (EvOps OpDoRead);;
  ret (fst res, take (Z.to_nat (read_data_size s)) (snd res)).

Definition gensio_fd_ll_handle_incoming (res : gensio_err * list byte)
    (aux : option (list string)) : M unit :=
  fd_handle_incoming (driver_read res) aux.

(** A driver hook runs driver code, which may call back into the two entry
    points a driver has. *)
Fixpoint run_drv (cs : list drv_call) : M unit :=
  match cs with
  | [] => skip
  | DrvHandleIncoming res aux :: cs' =>
      gensio_fd_ll_handle_incoming res aux;; run_drv cs'
  | DrvCallback op :: cs' =>
      gensio_fd_ll_callback op;; run_drv cs'
  end.

Definition ops_hook_call (h : ops_hook) : M unit :=
  emit (EvOps h);;
  cs ← ask drv_hook;
  run_drv cs.

Definition fd_read_ready : M unit :=
  s ← get;
  if has_read_ready (ops s) then ops_hook_call OpReadReady
  else fd_handle_incoming gensio_ll_fd_read None.

Definition fd_handle_write_ready : M unit :=
  o_set_write_handler false;;
  s ← get;
  if is_state FD_IN_OPEN s then
    emit (EvOps OpCheckOpen);;
    err ← ask drv_check_open;
    if is_err err && has_retry_open (ops s) then
      o_clear_fd_handlers_norpt;;
      os_close;;
      modify (set_fd (-1));;
      emit (EvOps OpRetryOpen);;
      r ← ask drv_retry_open;
      modify (set_fd (snd r));;
      if negb (bool_decide (fst r = GE_INPROGRESS)) then fd_finish_open (fst r)
      else
        err ← fd_setup_handlers;
        if is_err err then fd_finish_open err
        else
          o_set_write_handler true;;
          o_set_except_handler true
    else fd_finish_open err
  else
    fd_unlock;;
    if has_write_ready (ops s) then
      ops_hook_call OpWriteReady;;
      fd_lock
    else
      up UpWriteReady;;
      fd_lock;;
      s ← get;
      if is_state FD_OPEN s && write_enabled s then o_set_write_handler true
      else skip.

Definition fd_write_ready : M unit :=
  fd_lock_and_ref;;
  fd_handle_write_ready;;
  fd_deref_and_unlock.

Definition fd_except_ready : M unit :=
  fd_lock;;
  s ← get;
  if is_state FD_IN_OPEN s then
    fd_ref;;
    fd_handle_write_ready;;
    fd_deref_and_unlock
  else if has_except_ready (ops s) then
    fd_unlock;;
    ops_hook_call OpExceptReady
  else fd_unlock.

Definition fd_finish_cleared : M unit :=
  fd_lock_and_ref;;
  os_close;;
  modify (set_fd (-1));;
  s ← get;
  (match open_done s with
   | Some fn =>
       (* If an open fails, it comes to here. *)
       modify (set_open_done None);;
       modify (set_state FD_CLOSED);;
       fd_unlock;;
       up (UpOpenDone fn (open_data s) (open_err s) (open_data s));;
       fd_lock
   | None => skip
   end);;
  s ← get;
  (if deferred_op_pending s then
     (* Call it from the deferred_op handler. *)
     modify (set_deferred_close true)
   else fd_finish_close);;
  fd_deref_and_unlock.

Definition fd_close_timeout : M unit :=
  s ← get;
  err ← (if has_check_close (ops s) then
           emit (EvOps OpCheckCloseDone);;
           ask drv_check_close
         else ret GE_NOERR);
  if bool_decide (err = GE_INPROGRESS) then o_start_timer
  else fd_finish_cleared.

Definition fd_cleared : M unit :=
  s ← get;
  if has_check_close (ops s) then fd_close_timeout else fd_finish_cleared.

(** ** The event loop *)

(** Modelled from the spec: the OS functions call a handler only while it is
    owed: a ready handler while the FD is registered and that event enabled,
    the cleared handler once per [clear_fd_handlers], the runner once per
    [run], the timer once per [start_timer]. *)
Inductive os_event :=
| OsReadReady | OsWriteReady | OsExceptReady | OsCleared | OsRunner | OsTimer.

Definition os_deliver (ev : os_event) : M unit := λ w,
  match ev with
  | OsReadReady =>
      if registered w && rd_armed w then fd_read_ready w else (Done (), w)
  | OsWriteReady =>
      if registered w && wr_armed w then fd_write_ready w else (Done (), w)
  | OsExceptReady =>
      if registered w && ex_armed w then fd_except_ready w else (Done (), w)
  | OsCleared =>
      if clear_pending w then fd_cleared (set_clear_pending false w) else (Done (), w)
  | OsRunner =>
      if runner_queued w then fd_deferred_op (set_runner_queued false w) else (Done (), w)
  | OsTimer =>
      if timer_armed w then fd_close_timeout (set_timer_armed false w) else (Done (), w)
  end.

Inductive input :=
| User (c : ll_call)
| Os (ev : os_event).

Definition step (i : input) : M unit :=
  match i with
  | User c => gensio_ll_fd_func c;; skip
  | Os ev => os_deliver ev
  end.

Fixpoint run (ins : list input) : M unit :=
  match ins with
  | [] => skip
  | i :: ins' => step i;; run ins'
  end.

End Handlers.

(** ** Allocation *)

(** [fd_gensio_ll_alloc]: [ok] tells whether the allocations of the
    structure, the timer, the runner, the lock, the buffer and the [ll] data
    all succeed.  [None] is the [NULL] result. *)
Definition fd_gensio_ll_alloc (ok : bool) (h : Z) (driver : gensio_fd_ll_ops)
    (hdata : Z) (max_read_size : Z) (wronly : bool) : option world :=
  if negb ok then None
  else
    let s :=
      {| refcount := 1; cb := 0; cb_data := 0; fd := h;
         state := if h =? -1 then FD_CLOSED else FD_OPEN;
         read_enabled := false; write_enabled := false; write_only := wronly;
         ops := driver; handler_data := hdata;
         open_done := None; open_data := 0; open_err := GE_NOERR;
         close_done := None; close_data := 0;
         read_data := if 0 <? max_read_size
                      then replicate (Z.to_nat max_read_size) x00 else [];
         read_data_size := max_read_size; read_data_len := 0; read_data_pos := 0;
         auxdata := None;
         in_read := false; deferred_op_pending := false;
         deferred_read := false; deferred_close := false |} in
    let w :=
      {| ll := s; held := false; freed := false; registered := false;
         rd_armed := false; wr_armed := false; ex_armed := false;
         clear_pending := false; runner_queued := false; timer_armed := false;
         trace := []; tick := 0 |} in
    if h =? -1 then Some w
    else
      match fd_setup_handlers w with
      | (Done GE_NOERR, w') => Some w'
      | _ => None
      end.

End Model.

(** ** Vocabulary of the statements *)

Inductive grows (P : event → Prop) (tr : list event) : list event → Prop :=
| grows_refl : grows P tr tr
| grows_cons e tr' : P e → grows P tr tr' → grows P tr (e :: tr').

Definition is_up (e : event) : bool :=
  match e with EvUp _ _ _ => true | _ => false end.

Definition pres (I : world → Prop) {A} (m : M A) : Prop :=
  ∀ w, I w → I (snd (m w)).

Definition grown (X : list event) (w : world) : Prop :=
  grows (λ _, True) X (trace w).

Definition quiet_from (w0 w : world) : Prop :=
  grows (λ e, is_up e = false) (trace w0) (trace w).

Definition reset_read (s : fd_ll) : fd_ll :=
  set_auxdata None (set_read_data_len 0 (set_read_data_pos 0 s)).

Definition up_read_call (err : gensio_err) (s : fd_ll) : upcall :=
  UpRead err (read_data_pos s) (offered s) (read_data_len s) (auxdata s).

Definition same_buffer (s s' : fd_ll) : Prop :=
  read_data s' = read_data s ∧ read_data_pos s' = read_data_pos s ∧
  read_data_len s' = read_data_len s ∧ auxdata s' = auxdata s.

(** The buffer as the consumer left it after taking [c] bytes. *)
Definition consume (c : Z) (s : fd_ll) : fd_ll :=
  set_read_data_len (read_data_len s - c) (set_read_data_pos (read_data_pos s + c) s).

Definition buffer_ok (s : fd_ll) : Prop :=
  0 ≤ read_data_pos s ∧ 0 ≤ read_data_len s ∧
  read_data_pos s + read_data_len s ≤ Z.of_nat (length (read_data s)) ∧
  Z.of_nat (length (read_data s)) < 2 ^ 64.

(** The world a refused close leaves: only the lock was taken and released. *)
Definition close_refused (w : world) : world :=
  set_trace (EvUnlock :: EvLock :: trace w) w.

(** The world an accepted close leaves. *)
Definition close_accepted (done : option Z) (data : Z) (w : world) : world :=
  let s := ll w in
  let pre := if has_check_close (ops s) then [EvOps OpCheckCloseStart] else [] in
  set_held false
    (set_trace (EvUnlock :: EvClearFdHandlers (fd s) :: pre ++ EvLock :: trace w)
       (set_registered false (set_rd_armed false (set_wr_armed false
          (set_ex_armed false (set_clear_pending true
             (set_ll (set_state FD_IN_CLOSE
                        (set_close_data data (set_close_done done s))) w))))))).

(** The world [fd_disable] leaves. *)
Definition disabled (w : world) : world :=
  set_ll (set_fd (-1) (set_state FD_CLOSED (ll w)))
    (set_trace (EvClose (fd (ll w)) :: EvClearFdHandlersNorpt (fd (ll w)) :: trace w)
       (set_registered false (set_rd_armed false (set_wr_armed false
          (set_ex_armed false w))))).

(** Nothing is owed by the OS functions: no handler is registered, no cleared
    report, runner or timer is outstanding. *)
Definition nothing_owed (w : world) : Prop :=
  registered w = false ∧ clear_pending w = false ∧
  runner_queued w = false ∧ timer_armed w = false.

(** What the OS functions owe the lower layer: whether they would call the
    handler of [ev] if the event came now. *)
Definition owed (w : world) (ev : os_event) : bool :=
  match ev with
  | OsReadReady => registered w && rd_armed w
  | OsWriteReady => registered w && wr_armed w
  | OsExceptReady => registered w && ex_armed w
  | OsCleared => clear_pending w
  | OsRunner => runner_queued w
  | OsTimer => timer_armed w
  end.

Definition is_ready (ev : os_event) : bool :=
  match ev with
  | OsReadReady | OsWriteReady | OsExceptReady => true
  | _ => false
  end.

Definition is_close_done (e : event) : bool :=
  match e with EvUp (UpCloseDone _ _ _) _ _ => true | _ => false end.

Definition no_close_done (X : list event) (w : world) : Prop :=
  grows (λ e, is_close_done e = false) X (trace w).

(** ** Sample environments and worlds *)

Definition mk_env (u : nat → upcall → list ll_call * Z)
    (rd : gensio_err * list byte) (sub : gensio_err * Z) (chk : gensio_err) : env :=
  {| user := u;
     drv_hook := λ _, [];
     drv_sub_open := λ _ _, sub;
     drv_check_open := λ _, chk;
     drv_retry_open := λ _, (GE_NOERR, 0);
     drv_check_close := λ _, GE_NOERR;
     drv_write := λ _, (GE_NOERR, 0);
     os_write := λ _, (GE_NOERR, 0);
     os_read := λ _, rd;
     os_set_fd_handlers := λ _, false |}.

Definition no_ops : gensio_fd_ll_ops :=
  {| has_sub_open := false; has_retry_open := false; has_check_close := false;
     has_read_ready := false; has_write_ready := false; has_except_ready := false;
     has_write := false |}.

Definition takes_all (u : upcall) : Z :=
  match u with UpRead _ _ _ n _ => n | _ => 0 end.

Definition env_quiet : env :=
  mk_env (λ _ u, ([], takes_all u)) (GE_NOERR, [x01; x02; x03]) (GE_NOERR, 5) GE_NOERR.

Definition env_zero_then_all : env :=
  mk_env (λ n u, ([], if (n <? 3)%nat then 0 else takes_all u))
    (GE_NOERR, [x01; x02; x03]) (GE_NOERR, 5) GE_NOERR.

Definition blank_world : world :=
  {| ll := {| refcount := 0; cb := 0; cb_data := 0; fd := -1; state := FD_CLOSED;
              read_enabled := false; write_enabled := false; write_only := false;
              ops := no_ops; handler_data := 0; open_done := None; open_data := 0;
              open_err := GE_NOERR; close_done := None; close_data := 0;
              read_data := []; read_data_size := 0; read_data_len := 0;
              read_data_pos := 0; auxdata := None; in_read := false;
              deferred_op_pending := false; deferred_read := false;
              deferred_close := false |};
     held := false; freed := true; registered := false; rd_armed := false;
     wr_armed := false; ex_armed := false; clear_pending := false;
     runner_queued := false; timer_armed := false; trace := []; tick := 0 |}.

Definition alloc_world (E : env) (h : Z) (driver : gensio_fd_ll_ops) (size : Z)
    (wronly : bool) : world :=
  default blank_world (fd_gensio_ll_alloc E true h driver 0 size wronly).

(** The code above takes one byte of each read and turns read off. *)
Definition env_short_read : env :=
  mk_env (λ _ u, ([GENSIO_LL_FUNC_SET_READ_CALLBACK false], 1))
    (GE_NOERR, [x01; x02; x03]) (GE_INPROGRESS, 5) GE_IOERR.

(** An open lower layer on handle 5 with a four-byte buffer. *)
Definition world_open : world :=
  Eval vm_compute in alloc_world env_quiet 5 no_ops 4 false.

(** The same after one read of three bytes of which the code above took one. *)
Definition world_buffered : world :=
  Eval vm_compute in
  snd (run env_short_read 1
         [User (GENSIO_LL_FUNC_SET_READ_CALLBACK true); Os OsReadReady] world_open).

(** The same with read left on, for a consumer that first takes nothing. *)
Definition world_buffered_enabled : world :=
  Eval vm_compute in
  set_ll (set_read_enabled true (ll world_buffered)) (set_tick 1 world_buffered).

(** The open lower layer after an accepted close that names callback 7. *)
Definition world_closing : world :=
  Eval vm_compute in
  snd (run env_quiet 1 [User (GENSIO_LL_FUNC_CLOSE (Some 7) 0)] world_open).

(** A lower layer whose open failed: the driver's open was in progress and
    [check_open] then reported an error. *)
Definition sub_open_ops : gensio_fd_ll_ops :=
  {| has_sub_open := true; has_retry_open := false; has_check_close := false;
     has_read_ready := false; has_write_ready := false; has_except_ready := false;
     has_write := false |}.

Definition world_failed_open : world :=
  Eval vm_compute in
  snd (run env_short_read 1
         [User (GENSIO_LL_FUNC_OPEN (Some 3) 0); Os OsWriteReady; Os OsCleared]
         (alloc_world env_short_read (-1) sub_open_ops 4 false)).

(** ** Vocabulary of the write-only statement *)

(** Read activity on the handle: arming the read-ready handler, the driver's
    read-ready hook, a read by the lower layer and, when [strict], also a read
    by the driver's own reader. *)
Definition reads (strict : bool) (e : event) : bool :=
  match e with
  | EvSetReadHandler _ true => true
  | EvRead _ _ => true
  | EvOps OpReadReady => true
  | EvOps OpDoRead => strict
  | _ => false
  end.

Definition write_only_inv (strict : bool) (X : list event) (w : world) : Prop :=
  write_only (ll w) = true ∧ read_enabled (ll w) = false ∧ rd_armed w = false ∧
  grows (λ e, reads strict e = false) X (trace w).

Definition is_incoming (c : drv_call) : bool :=
  match c with DrvHandleIncoming _ _ => true | DrvCallback _ => false end.

(** ** Vocabulary of the reference discipline *)

(** The discipline every event has to respect: up-calls and the free happen
    with the lock released, the reference count changes under the lock and
    never goes below zero. *)
Definition ref_ok (e : event) : bool :=
  match e with
  | EvUp _ h _ => negb h
  | EvRef h n => h && (0 <? n)
  | EvDeref h n => h && (0 <=? n)
  | EvFree h => negb h
  | _ => true
  end.

Definition is_free (e : event) : bool :=
  match e with EvFree _ => true | _ => false end.

Definition is_zero_deref (e : event) : bool :=
  match e with EvDeref _ n => n =? 0 | _ => false end.

Definition count (p : event → bool) (tr : list event) : nat :=
  length (List.filter p tr).

Definition ref_inv (w : world) : Prop :=
  forallb ref_ok (trace w) = true ∧
  (held w = true → freed w = false) ∧
  0 ≤ refcount (ll w) < 2 ^ 32 ∧
  (freed w = false → 1 ≤ refcount (ll w)) ∧
  (freed w = true → refcount (ll w) = 0) ∧
  count is_free (trace w) = (if freed w then 1 else 0)%nat ∧
  count is_zero_deref (trace w) = (if freed w then 1 else 0)%nat.

(** The references that may be out: the owner's, [k] taken by the paths
    that are running, and the one of a scheduled deferred op. *)
Definition owes (k : Z) (w : world) : Prop :=
  refcount (ll w) ≤ 1 + k + (if deferred_op_pending (ll w) then 1 else 0).

Definition breaks {A} (o : outcome A) : bool :=
  match o with
  | Abort LockMisuse | Abort AssertFailed => true
  | _ => false
  end.

(** [locks b k b' k' m]: started with the lock in state [b] and [k]
    references taken by the running paths, [m] keeps the discipline, fails no
    assertion, never misuses the lock and, when it returns, leaves the lock in
    state [b'] and [k'] references taken. *)
Definition locks (b : bool) (k : Z) (b' : bool) (k' : Z) {A} (m : M A) : Prop :=
  ∀ w, ref_inv w → held w = b → owes k w →
    ref_inv (snd (m w)) ∧ breaks (fst (m w)) = false ∧
    (∀ a, fst (m w) = Done a → held (snd (m w)) = b' ∧ owes k' (snd (m w))).

(** The newest events of a trace are a decrement under the lock followed by
    the unlock, and by the free when the decrement reached zero. *)
Definition released (tr : list event) : bool :=
  match tr with
  | EvUnlock :: EvDeref true n :: _ => negb (n =? 0)
  | EvFree false :: EvOps OpFree :: EvUnlock :: EvDeref true 0 :: _ => true
  | _ => false
  end.

(** What a dispatch path does to the trace of [w]: it first takes the lock
    and a reference, and when it returns it has last released a reference
    under the lock. *)
Definition bracketed (w : world) (r : outcome unit * world) : Prop :=
  (∃ post, trace (snd r) =
           post ++ EvRef true (wrap32 (refcount (ll w) + 1)) :: EvLock :: trace w) ∧
  (fst r = Done () → released (trace (snd r)) = true).

Definition ends_released {A} (m : M A) : Prop :=
  ∀ w a, fst (m w) = Done a → released (trace (snd (m w))) = true.

(** The code above frees the lower layer from inside each up-call. *)
Definition free_inside_read : env :=
  mk_env (λ _ u, ([GENSIO_LL_FUNC_FREE], takes_all u))
    (GE_NOERR, [x01; x02; x03]) (GE_NOERR, 5) GE_NOERR.

(** A driver with a [read_ready] hook that makes an up-call of its own
    through [gensio_fd_ll_callback], under code that frees the lower layer
    from inside each up-call. *)
Definition hook_ops : gensio_fd_ll_ops :=
  {| has_sub_open := false; has_retry_open := false; has_check_close := false;
     has_read_ready := true; has_write_ready := false; has_except_ready := false;
     has_write := false |}.

Definition env_driver_callback : env :=
  {| user := λ _ u, ([GENSIO_LL_FUNC_FREE], takes_all u);
     drv_hook := λ _, [DrvCallback 1];
     drv_sub_open := λ _ _, (GE_NOERR, 5);
     drv_check_open := λ _, GE_NOERR;
     drv_retry_open := λ _, (GE_NOERR, 0);
     drv_check_close := λ _, GE_NOERR;
     drv_write := λ _, (GE_NOERR, 0);
     os_write := λ _, (GE_NOERR, 0);
     os_read := λ _, (GE_NOERR, []);
     os_set_fd_handlers := λ _, false |}.

(** ** Vocabulary of the close-done statement *)

Definition is_open_call (c : ll_call) : bool :=
  match c with GENSIO_LL_FUNC_OPEN _ _ => true | _ => false end.

Definition is_free_call (c : ll_call) : bool :=
  match c with GENSIO_LL_FUNC_FREE => true | _ => false end.

(** The references the operations [cs] give up. *)
Definition frees (cs : list ll_call) : Z :=
  Z.of_nat (length (List.filter is_free_call cs)).

(** Operations that neither reopen the lower layer nor give up [n]
    references or more. *)
Definition tame (cs : list ll_call) (n : Z) : Prop :=
  forallb (λ c, negb (is_open_call c)) cs = true ∧ frees cs < n.

(** What operations on a closed lower layer leave alone. *)
Definition closed_frame (w w' : world) : Prop :=
  held w' = false ∧ freed w' = false ∧ state (ll w') = FD_CLOSED ∧
  close_done (ll w') = close_done (ll w) ∧ close_data (ll w') = close_data (ll w) ∧
  open_done (ll w') = open_done (ll w) ∧
  deferred_op_pending (ll w') = deferred_op_pending (ll w) ∧
  deferred_close (ll w') = deferred_close (ll w) ∧
  deferred_read (ll w') = deferred_read (ll w).

(** A poll of the driver's [check_close] that finds the close still in
    progress: the close timer is started again. *)
Definition poll (w : world) : world :=
  set_timer_armed true
    (set_trace (EvStartTimer :: EvOps OpCheckCloseDone :: trace w)
       (set_tick (S (tick w)) w)).

(** The world after the cleared report and [n] polls that found the close in
    progress, when the next handler starts. *)
Fixpoint polled (n : nat) (w : world) : world :=
  match n with
  | O => set_clear_pending false w
  | S k => set_timer_armed false (poll (polled k w))
  end.

(** The world in which [fd_finish_cleared] then runs: a driver with a
    [check_close] has been asked once more. *)
Definition cleared_world (n : nat) (w : world) : world :=
  let u := polled n w in
  if has_check_close (ops (ll w)) then
    set_tick (S (tick u)) (set_trace (EvOps OpCheckCloseDone :: trace u) u)
  else u.

(** The events that take a close to [fd_finish_cleared]: the cleared report
    and, for a driver whose close is in progress for [n] polls, the close
    timer [n] times. *)
Definition cleared_events (n : nat) : list input :=
  Os OsCleared :: replicate n (Os OsTimer).

(** The driver's [check_close], if there is one, finds the close in progress
    [n] times from [w] on and complete then. *)
Definition polls_done (E : env) (w : world) (n : nat) : Prop :=
  if has_check_close (ops (ll w)) then
    (∀ i, (i < n)%nat → drv_check_close E (i + tick w) = GE_INPROGRESS) ∧
    drv_check_close E (n + tick w) ≠ GE_INPROGRESS
  else n = O.

(** A driver that opens: [sub_open] is in progress on handle 5 and
    [check_open] then succeeds. *)
Definition env_opening : env :=
  mk_env (λ _ u, ([], takes_all u)) (GE_NOERR, []) (GE_INPROGRESS, 5) GE_NOERR.

(** A closed lower layer with a driver that can open. *)
Definition world_closed : world :=
  Eval vm_compute in alloc_world env_opening (-1) sub_open_ops 4 false.

(** The same after [open], before the connection is established. *)
Definition world_opening : world :=
  Eval vm_compute in
  snd (run env_opening 1 [User (GENSIO_LL_FUNC_OPEN (Some 3) 0)] world_closed).

(** A driver with a [check_close] that finds the close in progress on the
    first two polls after the allocation. *)
Definition check_close_ops : gensio_fd_ll_ops :=
  {| has_sub_open := false; has_retry_open := false; has_check_close := true;
     has_read_ready := false; has_write_ready := false; has_except_ready := false;
     has_write := false |}.

Definition env_slow_close : env :=
  {| user := λ _ u, ([], takes_all u);
     drv_hook := λ _, [];
     drv_sub_open := λ _ _, (GE_NOERR, 5);
     drv_check_open := λ _, GE_NOERR;
     drv_retry_open := λ _, (GE_NOERR, 0);
     drv_check_close := λ n, if (n <? 3)%nat then GE_INPROGRESS else GE_NOERR;
     drv_write := λ _, (GE_NOERR, 0);
     os_write := λ _, (GE_NOERR, 0);
     os_read := λ _, (GE_NOERR, []);
     os_set_fd_handlers := λ _, false |}.

Definition world_slow_close : world :=
  Eval vm_compute in alloc_world env_slow_close 5 check_close_ops 4 false.

(** The open lower layer inside a read delivery. *)
Definition world_in_read : world :=
  Eval vm_compute in set_ll (set_in_read true (ll world_open)) world_open.

(** The open lower layer with a deferred op pending. *)
Definition world_pending : world :=
  Eval vm_compute in
  snd (run env_quiet 1 [User (GENSIO_LL_FUNC_SET_READ_CALLBACK true)] world_buffered).

(** A driver whose [check_close] is never done. *)
Definition env_close_pending : env :=
  {| user := λ _ u, ([], takes_all u);
     drv_hook := λ _, [];
     drv_sub_open := λ _ _, (GE_NOERR, 5);
     drv_check_open := λ _, GE_NOERR;
     drv_retry_open := λ _, (GE_NOERR, 0);
     drv_check_close := λ _, GE_INPROGRESS;
     drv_write := λ _, (GE_NOERR, 0);
     os_write := λ _, (GE_NOERR, 0);
     os_read := λ _, (GE_NOERR, []);
     os_set_fd_handlers := λ _, false |}.

Definition world_check_close : world :=
  Eval vm_compute in alloc_world env_close_pending 5 check_close_ops 4 false.

End FdLL.

(** * The out-of-band send queue of ioinfo *)

Module Ioinfo.

(** Modelled from the spec: [struct ioinfo_oob] is declared in [ioinfo.h],
    which is not among the sources; the specification gives its shape as
    (buffer, length, optional send-done callback, next), and [io_event] also
    reads the callback's [cb_data].  [buf] is the address of the bytes still to
    send. *)
Record ioinfo_oob := {
  buf : Z;
  len : Z;
  send_done : option Z;
  cb_data : Z;
  next : option Z;
}.

(** The part of [struct ioinfo] the write-ready path touches: the endpoint
    [io], the endpoint of the other side ([otherio->io]) and the two ends of
    the queue.  Records live in [heap], keyed by address; [NULL] is [None]. *)
Record ioinfo := {
  io : Z;
  otherio_io : Z;
  oob_head : option Z;
  oob_tail : option Z;
}.

Inductive event :=
| EvGensioWrite (to : Z) (from : Z) (n : Z) (aux : option (list string))
| EvSendDone (fn : Z) (data : Z)
| EvErr
| EvShutdown
| EvSetReadCallbackEnable (to : Z) (en : bool)
| EvSetWriteCallbackEnable (to : Z) (en : bool).

Global Instance event_eq_dec : EqDecision event.
Proof. solve_decision. Defined.

Record st := {
  info : ioinfo;
  heap : gmap Z ioinfo_oob;
  log : list event;
}.

Definition emit (e : event) (s : st) : st :=
  {| info := info s; heap := heap s; log := log s ++ [e] |}.

Definition set_info (i : ioinfo) (s : st) : st :=
  {| info := i; heap := heap s; log := log s |}.

Definition set_heap (h : gmap Z ioinfo_oob) (s : st) : st :=
  {| info := info s; heap := h; log := log s |}.

Definition oobaux : option (list string) := Some ["oob"%string].

(** [ioinfo_sendoob]; [None] when a pointer does not point to a record. *)
Definition ioinfo_sendoob (oobinfo : Z) (s : st) : option st :=
  o ← heap s !! oobinfo;
  let h1 := <[oobinfo := {| buf := buf o; len := len o; send_done := send_done o;
                            cb_data := cb_data o; next := None |}]> (heap s) in
  s2 ← match oob_tail (info s) with
       | Some t =>
           ot ← h1 !! t;
           Some (set_heap
                   (<[t := {| buf := buf ot; len := len ot; send_done := send_done ot;
                              cb_data := cb_data ot; next := Some oobinfo |}]> h1) s)
       | None =>
           Some (set_info {| io := io (info s); otherio_io := otherio_io (info s);
                             oob_head := Some oobinfo; oob_tail := oob_tail (info s) |}
                   (set_heap h1 s))
       end;
  let s3 := set_info {| io := io (info s2); otherio_io := otherio_io (info s2);
                        oob_head := oob_head (info s2); oob_tail := Some oobinfo |} s2 in
  Some (emit (EvSetWriteCallbackEnable (io (info s3)) true) s3).

(** The [GENSIO_EVENT_WRITE_READY] case of [io_event], with the error test
    that precedes the switch.  [wr] is what [gensio_write] answers: its return
    value and the count it stores. *)
Definition io_event_write_ready (err : gensio_err) (wr : gensio_err * Z)
    (s : st) : option st :=
  if is_err err then
    Some (emit EvShutdown
            (if bool_decide (err = GE_REMCLOSE) then s else emit EvErr s))
  else
    match oob_head (info s) with
    | Some a =>
        oob ← heap s !! a;
        let s1 := emit (EvGensioWrite (io (info s)) (buf oob) (len oob) oobaux) s in
        let count := snd wr in
        if is_err (fst wr) then Some (emit EvShutdown (emit EvErr s1))
        else if len oob <=? count then
          let s2 := match send_done oob with
                    | Some fn => emit (EvSendDone fn (cb_data oob)) s1
                    | None => s1
                    end in
          Some (set_info
                  {| io := io (info s2); otherio_io := otherio_io (info s2);
                     oob_head := next oob;
                     oob_tail := match next oob with
                                 | None => None   (* No more OOB data. *)
                                 | Some _ => oob_tail (info s2)
                                 end |} s2)
        else
          Some (set_heap
                  (<[a := {| buf := buf oob + count; len := wrap64 (len oob - count);
                             send_done := send_done oob; cb_data := cb_data oob;
                             next := next oob |}]> (heap s1)) s1)
    | None =>
        Some (emit (EvSetWriteCallbackEnable (io (info s)) false)
                (emit (EvSetReadCallbackEnable (otherio_io (info s)) true) s))
    end.

(** ** Vocabulary of the statements *)

Definition is_write (e : event) : bool :=
  match e with EvGensioWrite _ _ _ _ => true | _ => false end.

Definition advance (count : Z) (o : ioinfo_oob) : ioinfo_oob :=
  {| buf := buf o + count; len := len o - count; send_done := send_done o;
     cb_data := cb_data o; next := next o |}.

Definition done_calls (o : ioinfo_oob) : list event :=
  match send_done o with
  | Some fn => [EvSendDone fn (cb_data o)]
  | None => []
  end.

(** A queue holding one record of 100 bytes at address 1000, with a
    send-done callback. *)
Definition one_record : st :=
  {| info := {| io := 1; otherio_io := 2; oob_head := Some 16; oob_tail := Some 16 |};
     heap := {[ 16 := {| buf := 1000; len := 100; send_done := Some 9;
                         cb_data := 0; next := None |} ]};
     log := [] |}.

(** ** The queue as a list *)

(** The records reached from [p] by following [next] are those of [q], in
    that order, and the last one has no successor. *)
Fixpoint linked (h : gmap Z ioinfo_oob) (p : option Z) (q : list Z) : bool :=
  match q, p with
  | [], None => true
  | a :: q', Some b =>
      bool_decide (a = b) &&
      match h !! a with
      | Some o => linked h (next o) q'
      | None => false
      end
  | _, _ => false
  end.

(** The out-of-band queue of [s] holds the records [q], oldest first. *)
Definition queue_is (s : st) (q : list Z) : Prop :=
  linked (heap s) (oob_head (info s)) q = true ∧ NoDup q ∧
  oob_tail (info s) = last q.

(** The write of record [a] as it stands in [s]. *)
Definition oob_write (s : st) (a : Z) : list event :=
  match heap s !! a with
  | Some o => [EvGensioWrite (io (info s)) (buf o) (len o) oobaux]
  | None => []
  end.

(** Write-ready events one after the other, each write taking all it is
    offered. *)
Fixpoint drain (n : nat) (s : st) : option st :=
  match n with
  | O => Some s
  | S n' =>
      s' ← io_event_write_ready GE_NOERR (GE_NOERR, 2 ^ 64 - 1) s;
      drain n' s'
  end.

(** A queue of two records, the second without a callback. *)
Definition two_records : st :=
  {| info := {| io := 1; otherio_io := 2; oob_head := Some 16; oob_tail := Some 32 |};
     heap := {[ 16 := {| buf := 1000; len := 100; send_done := Some 9;
                         cb_data := 0; next := Some 32 |};
                32 := {| buf := 2000; len := 10; send_done := None;
                         cb_data := 0; next := None |};
                48 := {| buf := 3000; len := 5; send_done := None;
                         cb_data := 0; next := Some 16 |} ]};
     log := [] |}.

(** ** The read path *)

(** The part of [struct ioinfo] the read path touches.  Characters are their
    values: [buf] holds [unsigned char], [escape_data] holds [char].
    [other_ready] is [otherio->ready]; [has_sh] and [has_oobdata] tell whether
    [sh] and [uh->oobdata] are set. *)
Record rd_info := {
  r_io : Z;
  r_other_io : Z;
  other_ready : bool;
  escape_char : Z;
  in_escape : bool;
  escape_pos : Z;
  escape_data : list Z;
  has_sh : bool;
  has_oobdata : bool;
}.

Inductive rd_event :=
| RdOut (text : list Z)
| RdMultichar (data : list Z)
| RdShutdown (user_req : bool)
| RdBreak (to : Z)
| RdHandleEscape (c : Z)
| RdOobData (n : Z)
| RdWrite (to : Z) (data : list Z)
| RdErr
| RdSetRead (to : Z) (en : bool)
| RdSetWrite (to : Z) (en : bool).

Definition set_escape (ie : bool) (pos : Z) (data : list Z) (i : rd_info) : rd_info :=
  {| r_io := r_io i; r_other_io := r_other_io i; other_ready := other_ready i;
     escape_char := escape_char i; in_escape := ie; escape_pos := pos;
     escape_data := data; has_sh := has_sh i; has_oobdata := has_oobdata i |}.

(** The conversion of an [unsigned char] to [char], taken as signed. *)
Definition to_char (b : Z) : Z := if 128 <=? b then b - 256 else b.

(** [tolower] in the C locale. *)
Definition tolower (c : Z) : Z := if (65 <=? c) && (c <=? 90) then c + 32 else c.

(** The string at the start of [escape_data]. *)
Fixpoint c_string (data : list Z) : list Z :=
  match data with
  | [] => []
  | c :: rest => if c =? 0 then [] else c :: c_string rest
  end.

(** [handle_escapechar]; [sh_rv] is what [sh->handle_escape] answers if it is
    called.  An array write outside [escape_data] would answer [None]. *)
Definition put (pos : Z) (c : Z) (data : list Z) : option (list Z) :=
  if (0 <=? pos) && (pos <? Z.of_nat (length data))
  then Some (<[Z.to_nat pos := c]> data) else None.

Definition handle_escapechar (i : rd_info) (c : Z) (sh_rv : bool)
  : option (rd_info * list rd_event * bool) :=
  if 0 <? escape_pos i then
    (* We are getting a multichar escape from the input. *)
    if (c =? 13) || (c =? 10) then
      data ← put (escape_pos i) 0 (escape_data i);
      let pos := wrap32 (escape_pos i + 1) in
      Some (set_escape (in_escape i) 0 data i,
            (if (1 <? pos) && has_sh i then [RdMultichar (c_string data)] else [])
              ++ [RdOut [62]],
            false)
    else if (c =? 8) || (c =? 127) then
      if 1 <? escape_pos i then
        Some (set_escape (in_escape i) (wrap32 (escape_pos i - 1)) (escape_data i) i,
              [RdOut [8; 32; 8]], true)
      else Some (i, [], true)
    else if escape_pos i <? 10 then
      data ← put (escape_pos i) c (escape_data i);
      Some (set_escape (in_escape i) (wrap32 (escape_pos i + 1)) data i,
            [RdOut [c]], true)
    else Some (i, [RdOut [c]], true)
  else
    let c := tolower c in
    if c =? 113 then Some (i, [RdShutdown true], false)
    else if negb (other_ready i) then Some (i, [], false)
    else if c =? 98 then Some (i, [RdBreak (r_other_io i)], false)
    else if has_sh i then
      if sh_rv then
        data ← put 0 c (escape_data i);
        Some (set_escape (in_escape i) 1 data i,
              [RdHandleEscape c; RdOut [60]], true)
      else Some (i, [RdHandleEscape c], false)
    else Some (i, [], false).

(** The index of the first [escape_char] in the buffer. *)
Fixpoint find_escape (esc : Z) (buf : list Z) : option nat :=
  match buf with
  | [] => None
  | b :: rest =>
      if b =? esc then Some O else S <$> find_escape esc rest
  end.

(** The end of the [GENSIO_EVENT_READ] case of [io_event]: [buflen] bytes are
    written to the other side if it is ready; [escapepos] is the place of the
    escape character found, if one was.  [wr] is what [gensio_write] answers.
    The last component is [*buflen] on return: the count consumed. *)
Definition io_event_forward (i : rd_info) (buf : list Z) (wr : gensio_err * Z)
    (buflen : Z) (escapepos : option nat) : option (rd_info * list rd_event * Z) :=
  let evs := if other_ready i
             then [RdWrite (r_other_io i) (take (Z.to_nat buflen) buf)] else [] in
  if other_ready i && is_err (fst wr) then
    Some (i, evs ++ [RdErr; RdShutdown false], buflen)
  else
    let count := if other_ready i then snd wr else 0 in
    if count <? buflen then
      Some (i, evs ++ RdSetRead (r_io i) false ::
                 (if other_ready i then [RdSetWrite (r_other_io i) true] else []),
            count)
    else
      match escapepos with
      | Some _ =>
          Some (set_escape true 0 (escape_data i) i, evs, wrap64 (buflen + 1))
      | None => Some (i, evs, buflen)
      end.

(** The [GENSIO_EVENT_READ] case of [io_event] without an error.  [is_oob]
    tells whether the aux data names [oob], [oob_taken] is the length the
    user's [oobdata] handler leaves in [*buflen]. *)
Definition io_event_read (i : rd_info) (buf : list Z) (is_oob : bool)
    (oob_taken : Z) (sh_rv : bool) (wr : gensio_err * Z)
  : option (rd_info * list rd_event * Z) :=
  let buflen := Z.of_nat (length buf) in
  if buflen =? 0 then Some (i, [], 0)
  else if is_oob then
    if has_oobdata i then Some (i, [RdOobData buflen], oob_taken)
    else Some (i, [], buflen)
  else if 0 <=? escape_char i then
    if in_escape i then
      if (escape_pos i =? 0) && (default 0 (buf !! O) =? escape_char i) then
        (* double escape means send one escape char. *)
        io_event_forward (set_escape false (escape_pos i) (escape_data i) i) buf wr
          buflen None
      else
        r ← handle_escapechar i (to_char (default 0 (buf !! O))) sh_rv;
        let i1 := fst (fst r) in
        Some (set_escape (snd r) (escape_pos i1) (escape_data i1) i1, snd (fst r), 1)
    else
      match find_escape (escape_char i) buf with
      | Some k => io_event_forward i buf wr (Z.of_nat k) (Some k)
      | None => io_event_forward i buf wr buflen None
      end
  else io_event_forward i buf wr buflen None.

Definition is_rd_write (e : rd_event) : bool :=
  match e with RdWrite _ _ => true | _ => false end.

(** The bytes handed to [gensio_write]. *)
Definition written (evs : list rd_event) : list Z :=
  flat_map (λ e, match e with RdWrite _ data => data | _ => [] end) evs.

(** An endpoint with escape character 0x1c, eleven bytes for the escape and
    a sub-handler, whose other side is ready. *)
Definition rd_sample : rd_info :=
  {| r_io := 1; r_other_io := 2; other_ready := true; escape_char := 28;
     in_escape := false; escape_pos := 0; escape_data := replicate 11 0;
     has_sh := true; has_oobdata := false |}.

End Ioinfo.

(** * The timer half of the Avahi poll bridge *)

Module Avahi.

Record timeval := { tv_sec : Z; tv_usec : Z }.

(** [gensio_time] is declared in a header that is not among the sources: a
    count of seconds and a 32-bit count of nanoseconds. *)
Record gensio_time := { secs : Z; nsecs : Z }.

(** Conversion to a signed 32-bit integer. *)
Definition to_int32 (z : Z) : Z := (z + 2 ^ 31) mod 2 ^ 32 - 2 ^ 31.

(** [struct AvahiTimeout] without its pointers ([u], [t], [callback],
    [userdata]). *)
Record AvahiTimeout := {
  tv : timeval;
  stopped : bool;
  in_update : bool;
  freed : bool;
}.

Inductive event :=
| EvStartTimer (gt : gensio_time)
| EvStopTimerWithDone
| EvFreeTimer
| EvFreeTimeout
| EvPollDeref.

Global Instance timeval_eq_dec : EqDecision timeval.
Proof. solve_decision. Defined.
Global Instance gensio_time_eq_dec : EqDecision gensio_time.
Proof. solve_decision. Defined.
Global Instance event_eq_dec : EqDecision event.
Proof. solve_decision. Defined.

Definition tv_cmp (tv1 tv2 : timeval) : Z :=
  if tv_sec tv1 <? tv_sec tv2 then -1
  else if tv_sec tv2 <? tv_sec tv1 then 1
  else if tv_usec tv1 <? tv_usec tv2 then -1
  else if tv_usec tv2 <? tv_usec tv1 then 1
  else 0.

(** [do_timer_start]; [now] is what [gettimeofday] answers.  The result is the
    call [o->start_timer(at->t, &gt)]. *)
Definition do_timer_start (at' : AvahiTimeout) (now : timeval) : list event :=
  let t := tv at' in
  let gt :=
    if tv_cmp t now <=? 0 then {| secs := 0; nsecs := 0 |}
    else
      let s := tv_sec t - tv_sec now in
      let ns := to_int32 ((tv_usec t - tv_usec now) * 1000) in
      if ns <? 0 then {| secs := s - 1; nsecs := to_int32 (ns + 1000000000) |}
      else {| secs := s; nsecs := ns |} in
  [EvStartTimer gt].

(** [i_gensio_avahi_timer_stopped]: the new timeout and the calls made. *)
Definition i_gensio_avahi_timer_stopped (at' : AvahiTimeout) (now : timeval)
  : AvahiTimeout * list event :=
  if freed at' then (at', [EvFreeTimer; EvFreeTimeout; EvPollDeref])
  else if in_update at' then
    let at2 := {| tv := tv at'; stopped := stopped at'; in_update := false;
                  freed := freed at' |} in
    (at2, if negb (stopped at2) then do_timer_start at2 now else [])
  else (at', []).

(** [gensio_avahi_timer_stopped], the done callback handed to
    [stop_timer_with_done]; it only adds the lock around the above. *)
Definition gensio_avahi_timer_stopped (at' : AvahiTimeout) (now : timeval)
  : AvahiTimeout * list event :=
  i_gensio_avahi_timer_stopped at' now.

(** [gensio_avahi_timeout_update]; [new_tv] is [None] for a [NULL] expiry and
    [rv] is what [stop_timer_with_done] answers if it is called. *)
Definition gensio_avahi_timeout_update (at' : AvahiTimeout)
    (new_tv : option timeval) (rv : gensio_err) (now : timeval)
  : AvahiTimeout * list event :=
  let upd :=
    match new_tv with
    | Some t => Some {| tv := t; stopped := false; in_update := in_update at';
                        freed := freed at' |}
    | None =>
        if stopped at' then None
        else Some {| tv := tv at'; stopped := true; in_update := in_update at';
                     freed := freed at' |}
    end in
  match upd with
  | None => (at', [])
  | Some at1 =>
      if negb (in_update at1) then
        let at2 := {| tv := tv at1; stopped := stopped at1; in_update := true;
                      freed := freed at1 |} in
        if bool_decide (rv = GE_TIMEDOUT) then
          let r := i_gensio_avahi_timer_stopped at2 now in
          (fst r, EvStopTimerWithDone :: snd r)
        else (at2, [EvStopTimerWithDone])
      else (at1, [])
  end.

(** The number of timer starts among some calls. *)
Definition is_start (e : event) : bool :=
  match e with EvStartTimer _ => true | _ => false end.

Definition starts (evs : list event) : nat := length (List.filter is_start evs).

(** A live timeout that is stopped and has no update pending. *)
Definition idle_timeout : AvahiTimeout :=
  {| tv := {| tv_sec := 0; tv_usec := 0 |}; stopped := true; in_update := false;
     freed := false |}.

(** ** The rest of the timeouts, the poll and the watches *)

(** [gensio_avahi_timeout_free]; [rv] is what [stop_timer_with_done] answers
    if it is called. *)
Definition gensio_avahi_timeout_free (at' : AvahiTimeout) (rv : gensio_err)
  : AvahiTimeout * list event :=
  if freed at' then (at', [])
  else
    let at1 := {| tv := tv at'; stopped := true; in_update := in_update at';
                  freed := true |} in
    if bool_decide (rv = GE_TIMEDOUT) then
      (at1, [EvStopTimerWithDone; EvFreeTimer; EvPollDeref])
    else (at1, [EvStopTimerWithDone]).

(** [gensio_avahi_timeout_new]: [alloc_ok] and [timer_ok] tell whether the two
    allocations succeed; [None] is the [NULL] result, with the calls made on
    the way out.  The second component counts the [u->refcount++]. *)
Definition gensio_avahi_timeout_new (alloc_ok timer_ok : bool)
    (new_tv : option timeval) (rv : gensio_err) (now : timeval)
  : option AvahiTimeout * Z * list event :=
  if negb alloc_ok then (None, 0, [])
  else if negb timer_ok then (None, 0, [EvFreeTimeout])
  else
    let at0 := {| tv := {| tv_sec := 0; tv_usec := 0 |}; stopped := true;
                  in_update := false; freed := false |} in
    let r := gensio_avahi_timeout_update at0 new_tv rv now in
    (Some (fst r), 1, snd r).

(** [gensio_avahi_timeout], the timer handler: whether the user's callback is
    called. *)
Definition gensio_avahi_timeout (at' : AvahiTimeout) : bool := negb (stopped at').

Definition is_poll_deref (e : event) : bool :=
  match e with EvPollDeref => true | _ => false end.

Definition is_free_timeout (e : event) : bool :=
  match e with EvFreeTimeout => true | _ => false end.

(** [struct gensio_avahi_userdata] without its pointers; [runs] counts the
    calls of [o->run(u->runner)]. *)
Record gensio_avahi_userdata := {
  u_refcount : Z;
  u_stopped : bool;
  stop_done : option Z;
  stop_userdata : Z;
  runs : nat;
}.

(** [gensio_avahi_poll_deref]; [None] when the assertion fails. *)
Definition gensio_avahi_poll_deref (u : gensio_avahi_userdata)
  : option gensio_avahi_userdata :=
  if 0 <? u_refcount u then
    let n := wrap32 (u_refcount u - 1) in
    Some {| u_refcount := n; u_stopped := u_stopped u; stop_done := stop_done u;
            stop_userdata := stop_userdata u;
            runs := if n =? 0 then S (runs u) else runs u |}
  else None.

Definition gensio_avahi_poll_free (u : gensio_avahi_userdata) (done : option Z)
    (userdata : Z) : option gensio_avahi_userdata :=
  if u_stopped u then Some u
  else
    gensio_avahi_poll_deref
      {| u_refcount := u_refcount u; u_stopped := true; stop_done := done;
         stop_userdata := userdata; runs := runs u |}.

(** The part of [alloc_gensio_avahi_poll] that sets up the user data. *)
Definition alloc_gensio_avahi_userdata : gensio_avahi_userdata :=
  {| u_refcount := 1; u_stopped := false; stop_done := None; stop_userdata := 0;
     runs := 0 |}.

(** The [u->refcount++] of [watch_new] and [timeout_new]. *)
Definition poll_ref (u : gensio_avahi_userdata) : gensio_avahi_userdata :=
  {| u_refcount := wrap32 (u_refcount u + 1); u_stopped := u_stopped u;
     stop_done := stop_done u; stop_userdata := stop_userdata u; runs := runs u |}.

(** What happens to a poll: an object (watch or timeout) is created, an object
    is released, the poll is freed. *)
Inductive poll_op := PollNew | PollRelease | PollFree (done : option Z) (userdata : Z).

Definition poll_step (u : gensio_avahi_userdata) (op : poll_op)
  : option gensio_avahi_userdata :=
  match op with
  | PollNew => Some (poll_ref u)
  | PollRelease => gensio_avahi_poll_deref u
  | PollFree done userdata => gensio_avahi_poll_free u done userdata
  end.

Fixpoint poll_run (u : gensio_avahi_userdata) (ops : list poll_op)
  : option gensio_avahi_userdata :=
  match ops with
  | [] => Some u
  | op :: ops' => u' ← poll_step u op; poll_run u' ops'
  end.

(** [struct AvahiWatch] without its pointers. *)
Record AvahiWatch := {
  w_fd : Z;
  events : Z;
  revents : Z;
  w_freed : bool;
}.

Inductive watch_event :=
| EvCallback (fd : Z) (revents : Z)
| EvClearFdHandlers (fd : Z)
| EvFreeWatch
| EvWatchPollDeref.

(** The three ready handlers differ only in the event they report. *)
Definition gensio_avahi_ready_handler (ev : Z) (w : AvahiWatch)
  : AvahiWatch * list watch_event :=
  if negb (w_freed w) then
    ({| w_fd := w_fd w; events := events w; revents := 0; w_freed := w_freed w |},
     [EvCallback (w_fd w) ev])
  else (w, []).

(** [gensio_avahi_watch_free]; [None] when the assertion fails. *)
Definition gensio_avahi_watch_free (w : AvahiWatch)
  : option (AvahiWatch * list watch_event) :=
  if w_freed w then None
  else Some ({| w_fd := w_fd w; events := events w; revents := revents w;
                w_freed := true |}, [EvClearFdHandlers (w_fd w)]).

Definition gensio_avahi_cleared_handler (w : AvahiWatch) : list watch_event :=
  [EvFreeWatch; EvWatchPollDeref].

Definition is_poll_new (op : poll_op) : bool :=
  match op with PollNew => true | _ => false end.

Definition is_poll_release (op : poll_op) : bool :=
  match op with PollRelease => true | _ => false end.

Definition is_poll_free (op : poll_op) : bool :=
  match op with PollFree _ _ => true | _ => false end.

(** The references that [ops] give up on [u]: one for each release, and the
    poll's own if [u] is not stopped yet and [ops] free it. *)
Definition gives_up (u : gensio_avahi_userdata) (ops : list poll_op) : Z :=
  Z.of_nat (length (List.filter is_poll_release ops)) +
  (if negb (u_stopped u) && existsb is_poll_free ops then 1 else 0).

(** [gensio_avahi_watch_new]: [alloc_ok] tells whether the allocation
    succeeds and [err] is what [set_fd_handlers] answers.  The second component
    counts the [u->refcount++].  [win], [wout] and [werr] are the values of
    [AVAHI_WATCH_IN], [AVAHI_WATCH_OUT] and [AVAHI_WATCH_ERR], which Avahi's
    headers define. *)
Inductive watch_call :=
| CallSetFdHandlers (fd : Z)
| CallFree
| CallSetReadHandler (fd : Z) (en : bool)
| CallSetWriteHandler (fd : Z) (en : bool)
| CallSetExceptHandler (fd : Z) (en : bool).

Definition gensio_avahi_watch_update (win wout werr : Z) (w : AvahiWatch) (event : Z)
  : list watch_call :=
  [CallSetReadHandler (w_fd w) (negb (Z.land event win =? 0));
   CallSetWriteHandler (w_fd w) (negb (Z.land event wout =? 0));
   CallSetExceptHandler (w_fd w) (negb (Z.land event werr =? 0))].

Definition gensio_avahi_watch_new (win wout werr : Z) (alloc_ok : bool) (err : bool)
    (fd event : Z) : option AvahiWatch * Z * list watch_call :=
  if negb alloc_ok then (None, 0, [])
  else
    let aw := {| w_fd := fd; events := event; revents := 0; w_freed := false |} in
    if err then (None, 0, [CallSetFdHandlers fd; CallFree])
    else (Some aw, 1, CallSetFdHandlers fd :: gensio_avahi_watch_update win wout werr aw event).

Definition gensio_avahi_watch_get_events (w : AvahiWatch) : Z := events w.

End Avahi.

(** * Properties of the file-descriptor lower layer *)

Module FdLLFacts.
Import FdLL.
Local Open Scope fd_scope.

Lemma grows_trans P a b c : grows P a b → grows P b c → grows P a c.
Proof. intros H1 H2. induction H2; [assumption|]. constructor; assumption. Qed.

Lemma grows_app P a b : grows P a b → ∃ evs, b = evs ++ a ∧ Forall P evs.
Proof.
  induction 1 as [|e tr' He _ [evs [-> Hevs]]].
  - exists []. split; [reflexivity | constructor].
  - exists (e :: evs). split; [reflexivity | constructor; assumption].
Qed.

Section Pres.
Context (I : world → Prop).

Lemma pres_ret {A} (a : A) : pres I (ret a).
Proof. intros w H. exact H. Qed.
Lemma pres_get : pres I get.
Proof. intros w H. exact H. Qed.
Lemma pres_abort {A} why : pres I (@abort A why).
Proof. intros w H. exact H. Qed.
Lemma pres_out_of_fuel {A} : pres I (@out_of_fuel A).
Proof. intros w H. exact H. Qed.
Lemma pres_bind {A B} (m : M A) (f : A → M B) :
  pres I m → (∀ a, pres I (f a)) → pres I (bind m f).
Proof.
  intros Hm Hf w H. unfold bind. specialize (Hm w H).
  destruct (m w) as [[a| |] w']; simpl in *; auto. apply Hf, Hm.
Qed.
Lemma pres_get_bind {B} (f : fd_ll → M B) :
  (∀ w, I w → I (snd (f (ll w) w))) → pres I (bind get f).
Proof. intros Hf w H. unfold bind, get. apply Hf, H. Qed.
Lemma pres_at {A} (m : M A) w : pres I m → I w → I (snd (m w)).
Proof. intros Hm. apply Hm. Qed.
Lemma pres_modify f : (∀ w, I w → I (set_ll (f (ll w)) w)) → pres I (modify f).
Proof. intros H w. apply H. Qed.
Lemma pres_emit e : (∀ w, I w → I (set_trace (e :: trace w) w)) → pres I (emit e).
Proof. intros H w. apply H. Qed.
Lemma pres_update g : (∀ w, I w → I (g w)) → pres I (update g).
Proof. intros H w. apply H. Qed.
Lemma pres_snap f : (∀ w, I w → I (set_trace (f w :: trace w) w)) → pres I (snap f).
Proof. intros H w. apply H. Qed.
Lemma pres_ask E {A} (q : env → nat → A) :
  (∀ w, I w → I (set_tick (S (tick w)) w)) → pres I (ask E q).
Proof. intros H w. apply H. Qed.
Lemma pres_fd_lock :
  (∀ w, I w → I (set_held true (set_trace (EvLock :: trace w) w))) → pres I fd_lock.
Proof. intros H w Hw. unfold fd_lock. destruct (freed w), (held w); simpl; auto. Qed.
Lemma pres_fd_unlock :
  (∀ w, I w → I (set_held false (set_trace (EvUnlock :: trace w) w))) → pres I fd_unlock.
Proof. intros H w Hw. unfold fd_unlock. destruct (held w); simpl; auto. Qed.

End Pres.

(** Equations of the monad, for stepping through a computation. *)
Lemma bind_get {B} (f : fd_ll → M B) w : bind get f w = f (ll w) w.
Proof. reflexivity. Qed.
Lemma bind_ret {A B} (a : A) (f : A → M B) w : bind (ret a) f w = f a w.
Proof. reflexivity. Qed.
Lemma bind_skip {B} (f : unit → M B) w : bind skip f w = f () w.
Proof. reflexivity. Qed.
Lemma bind_modify {B} g (f : unit → M B) w :
  bind (modify g) f w = f () (set_ll (g (ll w)) w).
Proof. reflexivity. Qed.
Lemma bind_emit {B} e (f : unit → M B) w :
  bind (emit e) f w = f () (set_trace (e :: trace w) w).
Proof. reflexivity. Qed.
Lemma bind_update {B} g (f : unit → M B) w : bind (update g) f w = f () (g w).
Proof. reflexivity. Qed.
Lemma bind_snap {B} g (f : unit → M B) w :
  bind (snap g) f w = f () (set_trace (g w :: trace w) w).
Proof. reflexivity. Qed.
Lemma bind_ask E {A B} (q : env → nat → A) (f : A → M B) w :
  bind (ask E q) f w = f (q E (tick w)) (set_tick (S (tick w)) w).
Proof. reflexivity. Qed.
Lemma bind_bind {A B C} (m : M A) (f : A → M B) (g : B → M C) w :
  bind (bind m f) g w = bind m (λ a, bind (f a) g) w.
Proof. unfold bind. destruct (m w) as [[a| |] w']; reflexivity. Qed.
Lemma bind_done {A B} (m : M A) (f : A → M B) w a w' :
  m w = (Done a, w') → bind m f w = f a w'.
Proof. unfold bind. intros ->. reflexivity. Qed.
Lemma bind_if {A B} (b : bool) (m1 m2 : M A) (f : A → M B) w :
  bind (if b then m1 else m2) f w = if b then bind m1 f w else bind m2 f w.
Proof. destruct b; reflexivity. Qed.
Lemma if_app {A} (b : bool) (m1 m2 : M A) w :
  (if b then m1 else m2) w = if b then m1 w else m2 w.
Proof. destruct b; reflexivity. Qed.

Lemma bind_fd_lock {B} (f : unit → M B) w :
  freed w = false → held w = false →
  bind fd_lock f w = f () (set_held true (set_trace (EvLock :: trace w) w)).
Proof. intros Hf Hh. unfold bind, fd_lock. rewrite Hf, Hh. reflexivity. Qed.

Lemma bind_fd_unlock {B} (f : unit → M B) w :
  held w = true →
  bind fd_unlock f w = f () (set_held false (set_trace (EvUnlock :: trace w) w)).
Proof. intros Hh. unfold bind, fd_unlock. rewrite Hh. reflexivity. Qed.

Lemma run_fd_unlock w :
  held w = true →
  fd_unlock w = (Done (), set_held false (set_trace (EvUnlock :: trace w) w)).
Proof. intros Hh. unfold fd_unlock. rewrite Hh. reflexivity. Qed.

Ltac proj :=
  cbn [ll held freed registered rd_armed wr_armed ex_armed clear_pending
       runner_queued timer_armed trace tick
       set_ll set_held set_freed set_registered set_rd_armed set_wr_armed
       set_ex_armed set_clear_pending set_runner_queued set_timer_armed
       set_trace set_tick
       refcount cb cb_data fd state read_enabled write_enabled write_only ops
       handler_data open_done open_data open_err close_done close_data
       read_data read_data_size read_data_len read_data_pos auxdata in_read
       deferred_op_pending deferred_read deferred_close
       set_refcount set_cb set_cb_data set_fd set_state set_read_enabled
       set_write_enabled set_open_done set_open_data set_open_err
       set_close_done set_close_data set_read_data set_read_data_len
       set_read_data_pos set_auxdata set_in_read set_deferred_op_pending
       set_deferred_read set_deferred_close
       fst snd orb andb negb is_err is_state].

Ltac decide_eqs :=
  repeat match goal with
         | |- context [bool_decide (?a = ?b)] =>
             first [ rewrite (bool_decide_eq_true_2 (a = b)) by reflexivity
                   | rewrite (bool_decide_eq_false_2 (a = b)) by discriminate ]
         end.

Ltac fd_step :=
  first [ rewrite bind_bind | rewrite bind_get | rewrite bind_ret | rewrite bind_skip
        | rewrite bind_modify | rewrite bind_emit | rewrite bind_update
        | rewrite bind_snap
        | rewrite bind_ask | rewrite bind_if | rewrite if_app ]; proj;
  unfold is_state; proj.
Ltac fd_steps := repeat fd_step.

Ltac unlock_step :=
  first [ rewrite bind_fd_unlock by reflexivity
        | rewrite run_fd_unlock by reflexivity ]; proj.

Create HintDb pres.

Ltac head_of t := lazymatch t with ?f _ => head_of f | _ => t end.

(* [leaf] closes the stability side conditions of the invariant at hand. *)
Ltac pres_step leaf :=
  lazymatch goal with
  | |- pres _ (bind _ _) => apply pres_bind; [|intros ?]
  | |- pres _ (ret _) => apply pres_ret
  | |- pres _ skip => apply pres_ret
  | |- pres _ get => apply pres_get
  | |- pres _ (abort _) => apply pres_abort
  | |- pres _ out_of_fuel => apply pres_out_of_fuel
  | |- pres _ (modify _) => apply pres_modify; leaf
  | |- pres _ (emit _) => apply pres_emit; leaf
  | |- pres _ (update _) => apply pres_update; leaf
  | |- pres _ (snap _) => apply pres_snap; leaf
  | |- pres _ (ask _ _) => apply pres_ask; leaf
  | |- pres _ fd_lock => apply pres_fd_lock; leaf
  | |- pres _ fd_unlock => apply pres_fd_unlock; leaf
  | |- pres _ (if ?b then _ else _) => destruct b
  | |- pres _ (match ?x with _ => _ end) => destruct x
  | |- pres _ (let _ := _ in _) => cbv zeta
  | |- pres _ ?m => first [ solve [eauto with pres] | let h := head_of m in unfold h ]
  end.
Ltac pres_go leaf := repeat pres_step leaf.

Lemma pres_up (I : world → Prop) E u :
  (∀ w, I w → I (set_tick (S (tick w))
                   (set_trace (EvUp u (held w) (refcount (ll w)) :: trace w) w))) →
  (∀ cs, pres I (run_calls E cs)) →
  pres I (up E u).
Proof.
  intros H1 H2 w Hw. unfold up.
  apply (pres_bind I); [apply H2 | intros _; apply pres_ret |]. apply H1, Hw.
Qed.

Lemma pres_run_calls (I : world → Prop) E :
  (∀ c, pres I (gensio_ll_fd_func E c)) → ∀ cs, pres I (run_calls E cs).
Proof.
  intros H cs. induction cs as [|c cs IH]; simpl.
  - apply pres_ret.
  - apply pres_bind; [apply H | intros _; exact IH].
Qed.

Ltac grown_leaf :=
  intros ? ?; unfold grown in *; cbn; repeat (first [assumption | constructor]).

Section Grown.
Context (E : env) (fuel : nat) (X : list event).

Lemma ll_func_grown c : pres (grown X) (gensio_ll_fd_func E c).
Proof. destruct c; pres_go grown_leaf. Qed.

Lemma up_grown u : pres (grown X) (up E u).
Proof. apply pres_up; [grown_leaf | apply pres_run_calls, ll_func_grown]. Qed.
Hint Resolve up_grown : pres.

Lemma fd_deliver_retry_grown n err : pres (grown X) (fd_deliver_retry E n err).
Proof. induction n as [|n IH]; simpl; pres_go grown_leaf. Qed.
Hint Resolve fd_deliver_retry_grown : pres.

Lemma fd_deliver_read_data_grown err :
  pres (grown X) (fd_deliver_read_data E fuel err).
Proof. pres_go grown_leaf. Qed.
Hint Resolve fd_deliver_read_data_grown : pres.

Lemma fd_deferred_retry_grown n : pres (grown X) (fd_deferred_retry E fuel n).
Proof. induction n as [|n IH]; simpl; pres_go grown_leaf. Qed.
Hint Resolve fd_deferred_retry_grown : pres.

Lemma fd_deferred_op_grown : pres (grown X) (fd_deferred_op E fuel).
Proof. pres_go grown_leaf. Qed.

Lemma fd_handle_incoming_grown doread aux :
  pres (grown X) doread →
  pres (grown X) (fd_handle_incoming E fuel doread aux).
Proof. intros Hd. pres_go grown_leaf. Qed.
Hint Resolve fd_handle_incoming_grown : pres.

Lemma run_drv_grown cs : pres (grown X) (run_drv E fuel cs).
Proof.
  induction cs as [|[res aux|op] cs IH]; simpl; pres_go grown_leaf.
Qed.
Hint Resolve run_drv_grown : pres.

Lemma fd_read_ready_grown : pres (grown X) (fd_read_ready E fuel).
Proof. pres_go grown_leaf. Qed.

Lemma fd_write_ready_grown : pres (grown X) (fd_write_ready E fuel).
Proof. pres_go grown_leaf. Qed.

Lemma fd_except_ready_grown : pres (grown X) (fd_except_ready E fuel).
Proof. pres_go grown_leaf. Qed.

Lemma fd_finish_cleared_grown : pres (grown X) (fd_finish_cleared E).
Proof. pres_go grown_leaf. Qed.

Lemma fd_cleared_grown : pres (grown X) (fd_cleared E).
Proof. pres_go grown_leaf. Qed.

End Grown.

Global Hint Resolve up_grown fd_deliver_retry_grown fd_deliver_read_data_grown
  fd_deferred_retry_grown fd_deferred_op_grown fd_handle_incoming_grown run_drv_grown
  fd_read_ready_grown fd_write_ready_grown fd_except_ready_grown
  fd_finish_cleared_grown fd_cleared_grown : pres.

Lemma grown_post X w : grown X w → ∃ post, trace w = post ++ X.
Proof. intros H. apply grows_app in H as (evs & -> & _). eauto. Qed.

Lemma grown_refl w : grown (trace w) w.
Proof. constructor. Qed.

(** If [m] leaves a trace that extends [X], so does [m] followed by [k]. *)
Lemma grown_bind {A B} X (m : M A) (k : A → M B) w :
  grown X (snd (m w)) → (∀ a, pres (grown X) (k a)) → grown X (snd (bind m k w)).
Proof.
  intros Hm Hk. unfold bind. destruct (m w) as [[a| |] w']; simpl in *; auto.
  apply Hk, Hm.
Qed.

Ltac quiet_leaf :=
  intros ? ?; unfold quiet_from in *; cbn; repeat (first [assumption | constructor]).

Section Facts.
Context (E : env).

Lemma ll_func_quiet w0 c : pres (quiet_from w0) (gensio_ll_fd_func E c).
Proof. destruct c; pres_go quiet_leaf. Qed.

Lemma run_calls_quiet w0 cs : pres (quiet_from w0) (run_calls E cs).
Proof.
  induction cs as [|c cs IH]; simpl.
  - apply pres_ret.
  - apply pres_bind; [apply ll_func_quiet | intros _; exact IH].
Qed.

(** What an up-call leaves in the trace: the call itself, then whatever the
    code above does before it returns, which makes no up-call. *)
Lemma up_trace u w o w1 :
  up E u w = (o, w1) →
  ∃ evs, trace w1 = evs ++ EvUp u (held w) (refcount (ll w)) :: trace w ∧
         Forall (λ e, is_up e = false) evs.
Proof.
  unfold up. intros H.
  set (w0 := set_tick (S (tick w))
               (set_trace (EvUp u (held w) (refcount (ll w)) :: trace w) w)) in *.
  assert (Hq : quiet_from w0 (snd (bind (run_calls E (fst (user E (tick w) u)))
                                  (λ _, ret (snd (user E (tick w) u))) w0))).
  { apply (pres_bind (quiet_from w0)).
    - apply run_calls_quiet.
    - intros _. apply pres_ret.
    - constructor. }
  rewrite H in Hq. simpl in Hq. apply grows_app in Hq. exact Hq.
Qed.

(** Claim C10.  A read delivery with a non-zero error makes exactly one
    up-call, and when that returns the buffer is reset ([read_data_pos] and
    [read_data_len] zero, [auxdata] NULL) whatever count the consumer returned;
    bytes still buffered are dropped. *)
Theorem fd_deliver_read_data_error (n : nat) (err : gensio_err) (w w1 : world) (c : Z) :
  is_err err = true →
  up E (up_read_call err (ll w)) w = (Done c, w1) →
  fd_deliver_read_data E (S n) err w = (Done (), set_ll (reset_read (ll w1)) w1) ∧
  ∃ evs, trace w1 = evs ++ EvUp (up_read_call err (ll w)) (held w) (refcount (ll w)) :: trace w ∧
         Forall (λ e, is_up e = false) evs.
Proof.
  intros Herr Hup. split.
  - unfold fd_deliver_read_data. rewrite bind_get, Herr. proj.
    unfold fd_deliver_retry, up_read. fd_steps.
    fold (up_read_call err (ll w)).
    rewrite (bind_done _ _ _ _ _ Hup). fd_steps. rewrite Herr. proj.
    fd_steps. reflexivity.
  - eapply up_trace. exact Hup.
Qed.

(** *** The read buffer is the lower layer's own *)

Ltac buffer_leaf :=
  intros ? ?; unfold same_buffer in *; cbn; assumption.

Lemma ll_func_buffer s c : pres (λ w, same_buffer s (ll w)) (gensio_ll_fd_func E c).
Proof. destruct c; pres_go buffer_leaf. Qed.

Lemma run_calls_buffer s cs : pres (λ w, same_buffer s (ll w)) (run_calls E cs).
Proof. apply pres_run_calls, ll_func_buffer. Qed.

Lemma up_buffer u w : same_buffer (ll w) (ll (snd (up E u w))).
Proof.
  apply (pres_up (λ w', same_buffer (ll w) (ll w'))).
  - buffer_leaf.
  - apply run_calls_buffer.
  - repeat split.
Qed.

Lemma wrap64_range z : 0 ≤ wrap64 z < 2 ^ 64.
Proof. unfold wrap64. apply Z.mod_pos_bound. lia. Qed.

Lemma wrap64_small z : 0 ≤ z < 2 ^ 64 → wrap64 z = z.
Proof. unfold wrap64. apply Z.mod_small. Qed.

Lemma up_read_inv err w c w1 :
  up_read E err w = (Done c, w1) →
  ∃ r, up E (up_read_call err (ll w)) w = (Done r, w1) ∧ c = wrap64 r.
Proof.
  unfold up_read. rewrite bind_get. fold (up_read_call err (ll w)).
  unfold bind, ret. destruct (up E _ w) as [[r| |] w'] eqn:Hup; intros H; inversion H.
  eauto.
Qed.

Lemma offered_consume c s :
  0 ≤ c ≤ read_data_len s → 0 ≤ read_data_pos s →
  offered (consume c s) = drop (Z.to_nat c) (offered s).
Proof.
  intros Hc Hp. unfold offered, consume. proj.
  rewrite skipn_firstn_comm, drop_drop.
  f_equal; [lia | f_equal; lia].
Qed.

(** One round of the delivery loop when the consumer takes [c] bytes, fewer
    than offered. *)
Lemma fd_deliver_retry_short n w c w1 :
  buffer_ok (ll w) →
  up_read E GE_NOERR w = (Done c, w1) →
  c < read_data_len (ll w) →
  0 ≤ c ∧
  same_buffer (ll w) (ll w1) ∧
  fd_deliver_retry E (S n) GE_NOERR w =
    (if read_enabled (ll w1) then fd_deliver_retry E n GE_NOERR else skip)
      (set_ll (consume c (ll w1)) w1).
Proof.
  intros (Hp & Hl & Hb & Hs) Hup Hc.
  destruct (up_read_inv _ _ _ _ Hup) as (r & Hr & ->).
  pose proof (up_buffer (up_read_call GE_NOERR (ll w)) w) as Hbuf.
  rewrite Hr in Hbuf. simpl in Hbuf. destruct Hbuf as (Hd' & Hp' & Hl' & Ha').
  pose proof (wrap64_range r) as Hrange.
  split; [lia|]. split; [repeat split; assumption|].
  cbn [fd_deliver_retry]. rewrite (bind_done _ _ _ _ _ Hup). fd_steps.
  rewrite Hl'. replace (read_data_len (ll w) <=? wrap64 r) with false
    by (symmetry; apply Z.leb_gt; assumption).
  fd_steps. unfold consume. rewrite ?Hp', ?Hl'.
  rewrite !(wrap64_small (_ + _)), !(wrap64_small (_ - _)) by lia.
  reflexivity.
Qed.

Lemma is_state_true st s : state s = st → is_state st s = true.
Proof. intros <-. unfold is_state. apply bool_decide_eq_true_2. reflexivity. Qed.

Lemma is_state_false st s : state s ≠ st → is_state st s = false.
Proof. intros H. unfold is_state. apply bool_decide_eq_false_2. exact H. Qed.

(** What any later delivery does first: it offers the buffer as it stands. *)
Lemma fd_deliver_retry_first n err w :
  grown (EvUp (up_read_call err (ll w)) (held w) (refcount (ll w)) :: trace w)
        (snd (fd_deliver_retry E (S n) err w)).
Proof.
  cbn [fd_deliver_retry]. unfold up_read. rewrite bind_bind, bind_get, bind_bind.
  fold (up_read_call err (ll w)).
  apply grown_bind.
  - destruct (up E (up_read_call err (ll w)) w) as [o w1] eqn:Hup.
    destruct (up_trace _ _ _ _ Hup) as (evs & Htr & _). simpl. unfold grown.
    rewrite Htr. clear. induction evs; simpl; constructor; auto.
  - intros r. pres_go grown_leaf.
Qed.

Lemma fd_deliver_read_data_first n w :
  read_data_len (ll w) ≠ 0 →
  grown (EvUp (up_read_call GE_NOERR (ll w)) (held w) (refcount (ll w)) :: trace w)
        (snd (fd_deliver_read_data E (S n) GE_NOERR w)).
Proof.
  intros Hl. unfold fd_deliver_read_data. rewrite bind_get. proj.
  apply Z.eqb_neq in Hl. rewrite Hl. proj. apply fd_deliver_retry_first.
Qed.

Lemma up_read_call_same err s s' :
  same_buffer s s' → up_read_call err s' = up_read_call err s.
Proof.
  intros (Hd & Hp & Hl & Ha). unfold up_read_call, offered.
  rewrite Hd, Hp, Hl, Ha. reflexivity.
Qed.

Lemma up_read_call_consume c s :
  0 ≤ c ≤ read_data_len s → 0 ≤ read_data_pos s →
  up_read_call GE_NOERR (consume c s) =
    UpRead GE_NOERR (read_data_pos s + c) (drop (Z.to_nat c) (offered s))
      (read_data_len s - c) (auxdata s).
Proof.
  intros Hc Hp. unfold up_read_call. rewrite offered_consume by assumption.
  reflexivity.
Qed.

(** Claim C2, amended.  When the consumer takes fewer bytes than offered, zero
    included, and read is still enabled when it returns, [fd_deliver_read_data]
    calls the consumer again at once, in the same invocation, with the
    unconsumed suffix: the second up-call is the very next event after the
    first one returns.  No trip through the deferred runner takes place. *)
Theorem fd_deliver_retries_at_once (n : nat) (w w1 : world) (c : Z) :
  buffer_ok (ll w) →
  up_read E GE_NOERR w = (Done c, w1) →
  c < read_data_len (ll w) →
  read_enabled (ll w1) = true →
  let u2 := UpRead GE_NOERR (read_data_pos (ll w) + c)
              (drop (Z.to_nat c) (offered (ll w)))
              (read_data_len (ll w) - c) (auxdata (ll w)) in
  fd_deliver_read_data E (S (S n)) GE_NOERR w =
    fd_deliver_retry E (S n) GE_NOERR (set_ll (consume c (ll w1)) w1) ∧
  ∃ post, trace (snd (fd_deliver_read_data E (S (S n)) GE_NOERR w)) =
            post ++ EvUp u2 (held w1) (refcount (ll w1)) :: trace w1.
Proof.
  intros Hok Hup Hc Hen u2.
  destruct (fd_deliver_retry_short (S n) w c w1 Hok Hup Hc) as (Hc0 & Hbuf & Heq).
  assert (Hrd : fd_deliver_read_data E (S (S n)) GE_NOERR w =
                fd_deliver_retry E (S n) GE_NOERR (set_ll (consume c (ll w1)) w1)).
  { unfold fd_deliver_read_data. rewrite bind_get. proj.
    replace (read_data_len (ll w) =? 0) with false by (symmetry; apply Z.eqb_neq; lia).
    proj. rewrite Heq, Hen. reflexivity. }
  split; [exact Hrd|]. rewrite Hrd.
  destruct Hok as (Hp & Hl & _).
  pose proof (fd_deliver_retry_first n GE_NOERR (set_ll (consume c (ll w1)) w1)) as Hg.
  revert Hg. proj.
  destruct Hbuf as (Hd' & Hp' & Hl' & Ha').
  rewrite up_read_call_consume by lia.
  assert (Hoff : offered (ll w1) = offered (ll w))
    by (unfold offered; rewrite Hd', Hp', Hl'; reflexivity).
  rewrite Hoff, Hp', Hl', Ha'. intros Hg. apply grown_post in Hg. exact Hg.
Qed.

(** Enabling read with bytes in the buffer schedules the deferred runner,
    whose first up-call offers the buffer as it stands. *)
Lemma fd_deferred_read_first fuel w :
  held w = false → freed w = false →
  write_only (ll w) = false → state (ll w) = FD_OPEN → in_read (ll w) = false →
  deferred_close (ll w) = false → read_data_len (ll w) ≠ 0 →
  let r := fd_set_read_callback_enable true w in
  fst r = Done () ∧
  (∃ evs, trace (snd r) = evs ++ trace w ∧ Forall (λ e, is_up e = false) evs) ∧
  ∃ post rc, trace (snd (fd_deferred_op E (S fuel) (snd r))) =
    post ++ EvUp (up_read_call GE_NOERR (ll w)) false rc
         :: EvUnlock :: EvLock :: trace (snd r).
Proof.
  intros Hh Hf Hwo Hst Hin Hdc Hl r.
  assert (Hl0 : (read_data_len (ll w) =? 0) = false) by (apply Z.eqb_neq; exact Hl).
  assert (Hr : r = fd_set_read_callback_enable true w) by reflexivity.
  unfold fd_set_read_callback_enable in Hr.
  rewrite bind_fd_lock in Hr by assumption.
  revert Hr. fd_steps. rewrite Hwo. fd_steps. rewrite Hin, Hst, Hl0. decide_eqs.
  proj. unfold fd_sched_deferred_op. fd_steps.
  destruct (deferred_op_pending (ll w)) eqn:Hpend; proj; unfold fd_ref, o_run;
    fd_steps; unlock_step; intros ->;
    (split; [reflexivity|]);
    (split; [apply grows_app; cbn; repeat constructor|]).
  all: cbn [snd ret].
  all: unfold fd_deferred_op.
  all: rewrite bind_fd_lock by (proj; first [assumption | reflexivity]).
  all: fd_steps.
  all: rewrite Hdc; fd_steps;
    cbn [fd_deferred_retry]; fd_steps;
    unlock_step.
  all: match goal with
       | |- ∃ post rc, trace (snd (bind (bind (fd_deliver_read_data _ _ _) ?k1) ?k2 ?w5)) = _ =>
           pose proof (fd_deliver_read_data_first fuel w5) as Hg;
           assert (Hg2 : grown (EvUp (up_read_call GE_NOERR (ll w5)) (held w5)
                                  (refcount (ll w5)) :: trace w5)
                           (snd (bind (bind (fd_deliver_read_data E (S fuel) GE_NOERR) k1) k2 w5)))
       end.
  1,3: apply grown_bind; [apply grown_bind; [apply Hg; proj; exact Hl | intros; pres_go grown_leaf]
                         | intros; pres_go grown_leaf].
  all: apply grown_post in Hg2 as (post & Hpost); rewrite Hpost;
    eexists post, _; reflexivity.
Qed.

(** The read-ready handler does not read while bytes are buffered: its first
    up-call offers the buffer as it stands. *)
Lemma fd_read_ready_first fuel w :
  held w = false → freed w = false →
  has_read_ready (ops (ll w)) = false → in_read (ll w) = false →
  read_data_len (ll w) ≠ 0 →
  ∃ post rc, trace (snd (fd_read_ready E (S fuel) w)) =
    post ++ EvUp (up_read_call GE_NOERR (ll w)) false rc
         :: EvUnlock :: EvSetExceptHandler (fd (ll w)) false
         :: EvSetReadHandler (fd (ll w)) false :: EvRef true rc :: EvLock :: trace w.
Proof.
  intros Hh Hf Hrr Hin Hl.
  assert (Hl0 : (read_data_len (ll w) =? 0) = false) by (apply Z.eqb_neq; exact Hl).
  unfold fd_read_ready. rewrite bind_get, Hrr.
  unfold fd_handle_incoming, fd_lock_and_ref.
  rewrite bind_bind, bind_fd_lock by assumption.
  unfold o_set_read_handler, o_set_except_handler. fd_steps. rewrite Hin.
  fd_steps. unlock_step. fd_steps. rewrite Hl0. fd_steps.
  match goal with
  | |- ∃ post rc, trace (snd (bind (fd_deliver_read_data _ _ _) ?k ?w5)) = _ =>
      assert (Hg : grown (EvUp (up_read_call GE_NOERR (ll w5)) (held w5)
                            (refcount (ll w5)) :: trace w5)
                     (snd (bind (fd_deliver_read_data E (S fuel) GE_NOERR) k w5)))
  end.
  { apply grown_bind; [apply fd_deliver_read_data_first; proj; exact Hl
                      | intros; pres_go grown_leaf]. }
  apply grown_post in Hg as (post & Hpost). rewrite Hpost.
  eexists post, _. reflexivity.
Qed.


(** *** Close and disable *)

(** Claim C7.  [fd_close] in a state other than open or in-open returns
    [GE_NOTREADY] and changes nothing but taking and releasing the lock; in
    state open or in-open it returns 0, records the done callback and its
    data, and moves to in-close. *)
Theorem fd_close_spec (w : world) (done : option Z) (data : Z) :
  freed w = false → held w = false →
  (state (ll w) ≠ FD_OPEN → state (ll w) ≠ FD_IN_OPEN →
     fd_close done data w = (Done GE_NOTREADY, close_refused w)) ∧
  (state (ll w) = FD_OPEN ∨ state (ll w) = FD_IN_OPEN →
     fd_close done data w = (Done GE_NOERR, close_accepted done data w) ∧
     close_done (ll (close_accepted done data w)) = done ∧
     close_data (ll (close_accepted done data w)) = data ∧
     state (ll (close_accepted done data w)) = FD_IN_CLOSE).
Proof.
  intros Hf Hh. split.
  - intros H1 H2. unfold fd_close. rewrite bind_fd_lock by assumption. fd_steps.
    rewrite (bool_decide_eq_false_2 _ H1), (bool_decide_eq_false_2 _ H2). fd_steps.
    unlock_step. destruct w; simpl in *; subst; reflexivity.
  - intros Hst. split; [|repeat split].
    unfold fd_close. rewrite bind_fd_lock by assumption. fd_steps.
    replace (bool_decide (state (ll w) = FD_OPEN) || bool_decide (state (ll w) = FD_IN_OPEN))
      with true
      by (destruct Hst as [-> | ->]; reflexivity).
    unfold fd_start_close, o_clear_fd_handlers. fd_steps.
    unfold close_accepted.
    destruct (has_check_close (ops (ll w))); fd_steps; unlock_step;
      destruct w; simpl in *; subst; reflexivity.
Qed.

Lemma os_deliver_nothing_owed fuel ev w :
  nothing_owed w → os_deliver E fuel ev w = (Done (), w).
Proof.
  intros (Hr & Hc & Hq & Ht). destruct ev; unfold os_deliver;
    rewrite ?Hr, ?Hc, ?Hq, ?Ht; reflexivity.
Qed.

Lemma run_os_nothing_owed fuel evs w :
  nothing_owed w → run E fuel (map Os evs) w = (Done (), w).
Proof.
  intros H. induction evs as [|ev evs IH]; [reflexivity|].
  cbn [map run step]. unfold bind. rewrite os_deliver_nothing_owed by exact H.
  exact IH.
Qed.

Lemma os_deliver_not_owed fuel ev w :
  owed w ev = false → os_deliver E fuel ev w = (Done (), w).
Proof. intros H. destruct ev; unfold os_deliver; cbn [owed] in H; rewrite H; reflexivity. Qed.

Lemma run_os_not_owed fuel evs w :
  forallb (λ ev, negb (owed w ev)) evs = true →
  run E fuel (map Os evs) w = (Done (), w).
Proof.
  induction evs as [|ev evs IH]; intros H; [reflexivity|].
  cbn [forallb] in H. apply andb_true_iff in H as [H1 H2].
  apply negb_true_iff in H1.
  cbn [map run step]. unfold bind. rewrite os_deliver_not_owed by exact H1.
  apply IH, H2.
Qed.

(** Claim C9, amended.  Whatever the state of the lower layer, [fd_disable]
    itself makes no up-call and takes no lock: it moves the lower layer to
    closed, clears the handlers without asking for a cleared report, closes
    the handle and leaves [open_done] and [close_done] as they were.  It owes
    nothing new: afterwards no ready event is owed, and a cleared report, a
    run of the deferred op or a close timer is owed exactly if it was owed
    before; events that are not owed reach no callback.  What was owed before
    the disable is not cancelled by it. *)
Theorem fd_disable_no_callbacks (fuel : nat) (w : world) (evs : list os_event) :
  fd_disable w = (Done (), disabled w) ∧
  state (ll (disabled w)) = FD_CLOSED ∧
  fd (ll (disabled w)) = -1 ∧
  open_done (ll (disabled w)) = open_done (ll w) ∧
  close_done (ll (disabled w)) = close_done (ll w) ∧
  trace (disabled w) =
    EvClose (fd (ll w)) :: EvClearFdHandlersNorpt (fd (ll w)) :: trace w ∧
  held (disabled w) = held w ∧
  (∀ ev, owed (disabled w) ev = negb (is_ready ev) && owed w ev) ∧
  (forallb (λ ev, negb (owed (disabled w) ev)) evs = true →
   run E fuel (map Os evs) (disabled w) = (Done (), disabled w)).
Proof.
  split; [|repeat split].
  - unfold fd_disable, o_clear_fd_handlers_norpt, os_close. fd_steps.
    unfold modify. destruct w; reflexivity.
  - intros ev. destruct ev; reflexivity.
  - apply run_os_not_owed.
Qed.

End Facts.
(** ** The close-done callback *)

Lemma grows_impl (P Q : event → Prop) a b :
  (∀ e, P e → Q e) → grows P a b → grows Q a b.
Proof. intros H. induction 1; constructor; auto. Qed.

Lemma pres_bind_at (I : world → Prop) {A B} (m : M A) (k : A → M B) w :
  I (snd (m w)) → (∀ a, pres I (k a)) → I (snd (bind m k w)).
Proof.
  intros Hm Hk. unfold bind. destruct (m w) as [[a| |] w']; simpl in *; auto.
  apply Hk, Hm.
Qed.

Lemma wrap32_small z : 0 ≤ z < 2 ^ 32 → wrap32 z = z.
Proof. unfold wrap32. apply Z.mod_small. Qed.

Ltac ncd_leaf :=
  intros ? ?; unfold no_close_done in *; cbn;
  repeat (first [assumption | constructor; [reflexivity|]]).

Section CloseDone.
Context (E : env).

Lemma up_grows u w :
  grows (λ e, is_up e = false) (EvUp u (held w) (refcount (ll w)) :: trace w)
    (trace (snd (up E u w))).
Proof.
  unfold up.
  set (w1 := set_tick (S (tick w))
               (set_trace (EvUp u (held w) (refcount (ll w)) :: trace w) w)).
  apply (pres_bind_at (λ w', grows (λ e, is_up e = false) (trace w1) (trace w'))).
  - apply (run_calls_quiet E w1). constructor.
  - intros _. apply pres_ret.
Qed.

Lemma up_no_close_done X u w :
  is_close_done (EvUp u (held w) (refcount (ll w))) = false →
  no_close_done X w → no_close_done X (snd (up E u w)).
Proof.
  intros Hu HX. unfold no_close_done in *.
  eapply grows_trans; [|eapply grows_impl; [|apply up_grows]].
  - constructor; [exact Hu | exact HX].
  - intros e He. destruct e; try reflexivity. discriminate.
Qed.

Lemma ll_func_ncd X c : pres (no_close_done X) (gensio_ll_fd_func E c).
Proof. destruct c; pres_go ncd_leaf. Qed.

Lemma up_read_ncd X err : pres (no_close_done X) (up_read E err).
Proof.
  unfold up_read. apply pres_bind; [apply pres_get|]. intros s.
  apply pres_bind; [|intros; apply pres_ret].
  intros w Hw. apply up_no_close_done; [reflexivity | exact Hw].
Qed.
Hint Resolve up_read_ncd : pres.

Lemma fd_deliver_retry_ncd X n err : pres (no_close_done X) (fd_deliver_retry E n err).
Proof. induction n as [|n IH]; simpl; pres_go ncd_leaf. Qed.
Hint Resolve fd_deliver_retry_ncd : pres.

Lemma fd_deliver_read_data_ncd X fuel err :
  pres (no_close_done X) (fd_deliver_read_data E fuel err).
Proof. pres_go ncd_leaf. Qed.
Hint Resolve fd_deliver_read_data_ncd : pres.

Lemma fd_deferred_retry_ncd X fuel n : pres (no_close_done X) (fd_deferred_retry E fuel n).
Proof. induction n as [|n IH]; simpl; pres_go ncd_leaf. Qed.
Hint Resolve fd_deferred_retry_ncd : pres.

Lemma up_then_no_close_done u w :
  no_close_done (EvUp u (held w) (refcount (ll w)) :: trace w) (snd (up E u w)).
Proof.
  unfold no_close_done. eapply grows_impl; [|apply up_grows].
  intros e He. destruct e; try reflexivity. discriminate.
Qed.

Lemma no_close_done_post X w :
  no_close_done X w →
  ∃ post, trace w = post ++ X ∧ Forall (λ e, is_close_done e = false) post.
Proof. intros H. apply grows_app in H. exact H. Qed.

End CloseDone.

(** ** The statements at sample inputs *)

Lemma buffer_ok_world_buffered : buffer_ok (ll world_buffered).
Proof. repeat split; vm_compute; congruence. Qed.


Lemma fd_deliver_retries_at_once_witness :
  let w := world_buffered_enabled in
  let w1 := snd (up_read env_zero_then_all GE_NOERR w) in
  fd_deliver_read_data env_zero_then_all 2 GE_NOERR w =
    fd_deliver_retry env_zero_then_all 1 GE_NOERR (set_ll (consume 0 (ll w1)) w1).
Proof.
  apply (fd_deliver_retries_at_once env_zero_then_all 0 world_buffered_enabled
           (snd (up_read env_zero_then_all GE_NOERR world_buffered_enabled)) 0).
  - repeat split; vm_compute; congruence.
  - vm_compute. reflexivity.
  - vm_compute. reflexivity.
  - vm_compute. reflexivity.
Defined.

Lemma zero_consumption_retried_synchronously :
  let r := run env_zero_then_all 2
             [User (GENSIO_LL_FUNC_SET_READ_CALLBACK true); Os OsReadReady]
             (alloc_world env_zero_then_all 5 no_ops 4 false) in
  fst r = Done () ∧
  rev (trace (snd r)) =
    [EvSetFdHandlers 5; EvLock; EvSetReadHandler 5 true; EvSetExceptHandler 5 true;
     EvUnlock; EvLock; EvRef true 2; EvSetReadHandler 5 false;
     EvSetExceptHandler 5 false; EvUnlock; EvRead 5 4;
     EvUp (UpRead GE_NOERR 0 [x01; x02; x03] 3 None) false 2;
     EvUp (UpRead GE_NOERR 0 [x01; x02; x03] 3 None) false 2;
     EvLock; EvSetReadHandler 5 true; EvSetExceptHandler 5 true;
     EvDeref true 1; EvUnlock] ∧
  runner_queued (snd r) = false.
Proof. vm_compute. repeat split; reflexivity. Qed.


Lemma fd_close_spec_witness :
  fd_close (Some 7) 0 world_failed_open =
    (Done GE_NOTREADY, close_refused world_failed_open) ∧
  fd_close (Some 7) 0 world_open =
    (Done GE_NOERR, close_accepted (Some 7) 0 world_open).
Proof.
  split.
  - apply (fd_close_spec world_failed_open (Some 7) 0); [reflexivity | reflexivity | |];
      vm_compute; discriminate.
  - apply (fd_close_spec world_open (Some 7) 0); [reflexivity | reflexivity |].
    left. reflexivity.
Defined.

Lemma fd_disable_no_callbacks_witness :
  fd_disable world_open = (Done (), disabled world_open) ∧
  run env_quiet 1 (map Os [OsReadReady; OsWriteReady; OsCleared; OsRunner])
    (disabled world_open) = (Done (), disabled world_open).
Proof.
  destruct (fd_disable_no_callbacks env_quiet 1 world_open
              [OsReadReady; OsWriteReady; OsCleared; OsRunner])
    as (H1 & _ & _ & _ & _ & _ & _ & _ & H2).
  split; [exact H1 | apply H2; reflexivity].
Defined.

Lemma callbacks_owed_before_disable_still_run :
  (let r := run env_quiet 1
              [User (GENSIO_LL_FUNC_SET_READ_CALLBACK true);
               User GENSIO_LL_FUNC_DISABLE; Os OsRunner] world_buffered in
   fst r = Done () ∧
   take 12 (trace (snd r)) =
     [EvUnlock; EvDeref true 1; EvLock;
      EvUp (UpRead GE_NOERR 1 [x02; x03] 2 None) false 2;
      EvUnlock; EvLock; EvClose 5; EvClearFdHandlersNorpt 5; EvUnlock;
      EvRun; EvRef true 2; EvLock] ∧
   drop 12 (trace (snd r)) = trace world_buffered) ∧
  (let r := run env_quiet 1
              [User (GENSIO_LL_FUNC_CLOSE (Some 7) 0);
               User GENSIO_LL_FUNC_DISABLE; Os OsCleared] world_open in
   fst r = Done () ∧
   rev (trace (snd r)) =
     [EvSetFdHandlers 5; EvLock; EvClearFdHandlers 5; EvUnlock;
      EvClearFdHandlersNorpt 5; EvClose 5; EvLock; EvRef true 2; EvClose (-1);
      EvUnlock; EvUp (UpCloseDone 7 0 0) false 2; EvLock; EvDeref true 1;
      EvUnlock]).
Proof. vm_compute. repeat split; reflexivity. Qed.

Lemma fd_deliver_read_data_error_witness :
  let w1 := snd (up env_quiet (up_read_call GE_REMCLOSE (ll world_buffered))
                   world_buffered) in
  fd_deliver_read_data env_quiet 1 GE_REMCLOSE world_buffered =
    (Done (), set_ll (reset_read (ll w1)) w1).
Proof.
  apply (fd_deliver_read_data_error env_quiet 0 GE_REMCLOSE world_buffered _ 2).
  - reflexivity.
  - vm_compute. reflexivity.
Defined.


(** ** A write-only lower layer *)

Ltac wo_leaf :=
  let H1 := fresh in let H2 := fresh in let H3 := fresh in let H4 := fresh in
  intros ? (H1 & H2 & H3 & H4); unfold write_only_inv; cbn;
  repeat split; try assumption;
  repeat (first [assumption | constructor; [reflexivity|]]).

Ltac wo_get :=
  let w := fresh "w" in let Hw := fresh "Hw" in
  let Hwo := fresh in let Hre := fresh in
  apply pres_get_bind; intros w Hw;
  pose proof Hw as (Hwo & Hre & _ & _);
  cbv beta; rewrite ?Hwo, ?Hre, ?andb_false_r; cbv beta iota;
  clear Hwo Hre;
  apply pres_at; [|exact Hw]; clear Hw.

Ltac wo_step :=
  lazymatch goal with
  | |- pres _ (bind get _) => wo_get
  | |- _ => pres_step wo_leaf
  end.
Ltac wo_go := repeat wo_step.

Section WriteOnly.
Context (E : env) (strict : bool) (X : list event).
Hypothesis Hdrv : strict = true → ∀ n, forallb (λ c, negb (is_incoming c)) (drv_hook E n) = true.

Local Abbreviation I := (write_only_inv strict X).

Lemma ll_func_wo c : pres I (gensio_ll_fd_func E c).
Proof. destruct c; wo_go. Qed.

Lemma up_wo u : pres I (up E u).
Proof. apply pres_up; [wo_leaf | apply pres_run_calls, ll_func_wo]. Qed.
Hint Resolve up_wo : pres.

Lemma fd_deliver_retry_wo n err : pres I (fd_deliver_retry E n err).
Proof. induction n as [|n IH]; simpl; wo_go. Qed.
Hint Resolve fd_deliver_retry_wo : pres.

Lemma fd_deliver_read_data_wo fuel err : pres I (fd_deliver_read_data E fuel err).
Proof. wo_go. Qed.
Hint Resolve fd_deliver_read_data_wo : pres.

Lemma fd_deferred_retry_wo fuel n : pres I (fd_deferred_retry E fuel n).
Proof. induction n as [|n IH]; simpl; wo_go. Qed.
Hint Resolve fd_deferred_retry_wo : pres.

Lemma fd_deferred_op_wo fuel : pres I (fd_deferred_op E fuel).
Proof. wo_go. Qed.

Lemma fd_handle_incoming_wo fuel doread aux :
  pres I doread → pres I (fd_handle_incoming E fuel doread aux).
Proof. intros Hd. wo_go. Qed.

Lemma driver_read_wo res : strict = false → pres I (driver_read res).
Proof.
  intros Hs. unfold driver_read.
  apply pres_get_bind. intros w (H1 & H2 & H3 & H4).
  rewrite bind_emit. cbn [ret snd].
  repeat split; try assumption. cbn.
  constructor; [cbn; exact Hs | exact H4].
Qed.

Lemma run_drv_wo fuel cs :
  (strict = true → forallb (λ c, negb (is_incoming c)) cs = true) →
  pres I (run_drv E fuel cs).
Proof.
  induction cs as [|[res aux|op] cs IH]; intros Hcs; cbn [run_drv].
  - apply pres_ret.
  - assert (Hs : strict = false).
    { clear IH. destruct strict; [specialize (Hcs eq_refl); discriminate | reflexivity]. }
    apply pres_bind; [|intros; apply IH; rewrite Hs; discriminate].
    unfold gensio_fd_ll_handle_incoming.
    apply fd_handle_incoming_wo, driver_read_wo. exact Hs.
  - apply pres_bind; [apply up_wo | intros; apply IH].
    intros Hs. apply Hcs in Hs. exact Hs.
Qed.

Lemma ops_hook_call_wo fuel h :
  reads strict (EvOps h) = false → pres I (ops_hook_call E fuel h).
Proof.
  intros Hh. unfold ops_hook_call.
  apply pres_bind.
  - apply pres_emit. intros w (H1 & H2 & H3 & H4). repeat split; try assumption.
    cbn. constructor; assumption.
  - intros _. intros w Hw. unfold bind, ask. cbn [fst snd].
    apply run_drv_wo.
    + intros Hs. apply Hdrv, Hs.
    + revert w Hw. wo_leaf.
Qed.

Lemma fd_finish_open_wo err : pres I (fd_finish_open E err).
Proof. wo_go. Qed.
Hint Resolve fd_finish_open_wo : pres.

Lemma fd_handle_write_ready_wo fuel : pres I (fd_handle_write_ready E fuel).
Proof.
  assert (H := ops_hook_call_wo fuel OpWriteReady eq_refl).
  wo_go.
Qed.
Hint Resolve fd_handle_write_ready_wo : pres.

Lemma fd_write_ready_wo fuel : pres I (fd_write_ready E fuel).
Proof. wo_go. Qed.

Lemma fd_except_ready_wo fuel : pres I (fd_except_ready E fuel).
Proof.
  assert (H := ops_hook_call_wo fuel OpExceptReady eq_refl).
  wo_go.
Qed.

Lemma fd_finish_cleared_wo : pres I (fd_finish_cleared E).
Proof. wo_go. Qed.
Hint Resolve fd_finish_cleared_wo : pres.

Lemma fd_close_timeout_wo : pres I (fd_close_timeout E).
Proof. wo_go. Qed.
Hint Resolve fd_close_timeout_wo : pres.

Lemma fd_cleared_wo : pres I (fd_cleared E).
Proof. wo_go. Qed.

Lemma os_deliver_wo fuel ev : pres I (os_deliver E fuel ev).
Proof.
  intros w Hw. destruct ev; unfold os_deliver.
  - destruct Hw as (H1 & H2 & H3 & H4). rewrite H3, andb_false_r.
    repeat split; assumption.
  - destruct (registered w && wr_armed w); [apply fd_write_ready_wo|]; exact Hw.
  - destruct (registered w && ex_armed w); [apply fd_except_ready_wo|]; exact Hw.
  - destruct (clear_pending w); [apply fd_cleared_wo; revert w Hw; wo_leaf | exact Hw].
  - destruct (runner_queued w); [apply fd_deferred_op_wo; revert w Hw; wo_leaf | exact Hw].
  - destruct (timer_armed w); [apply fd_close_timeout_wo; revert w Hw; wo_leaf | exact Hw].
Qed.

Lemma run_wo fuel ins : pres I (run E fuel ins).
Proof.
  induction ins as [|i ins IH]; cbn [run]; [apply pres_ret|].
  apply pres_bind; [|intros; exact IH].
  destruct i as [c|ev]; cbn [step].
  - apply pres_bind; [apply ll_func_wo | intros; apply pres_ret].
  - apply os_deliver_wo.
Qed.

End WriteOnly.

Lemma alloc_write_only E h driver hdata size w0 :
  fd_gensio_ll_alloc E true h driver hdata size true = Some w0 →
  ∀ strict, write_only_inv strict [] w0.
Proof.
  unfold fd_gensio_ll_alloc. cbn [negb].
  destruct (h =? -1).
  - intros [= <-] strict. repeat split. cbn. constructor.
  - unfold fd_setup_handlers, o_set_fd_handlers. fd_steps.
    destruct (os_set_fd_handlers E 0); fd_steps; cbn; [discriminate|].
    intros [= <-] strict. repeat split. cbn. repeat constructor.
Qed.

Lemma grows_nil_Forall (P : event → Prop) tr : grows P [] tr → Forall P tr.
Proof.
  intros H. apply grows_app in H as (evs & -> & H). rewrite app_nil_r. exact H.
Qed.





(** ** The reference discipline *)

Ltac lk_fin :=
  repeat split; auto; try lia; try discriminate; try congruence; try (intros ? [=]).

Section Locks.

Lemma locks_ret b k {A} (a : A) : locks b k b k (ret a).
Proof. intros w Hw Hb Hk. split; [exact Hw|]. split; [reflexivity|]. auto. Qed.
Lemma locks_get b k : locks b k b k get.
Proof. intros w Hw Hb Hk. split; [exact Hw|]. split; [reflexivity|]. auto. Qed.
Lemma locks_out_of_fuel b k b' k' {A} : locks b k b' k' (@out_of_fuel A).
Proof.
  intros w Hw Hb Hk. split; [exact Hw|]. split; [reflexivity|]. intros a [=].
Qed.
Lemma locks_bind b k b' k' b'' k'' {A B} (m : M A) (f : A → M B) :
  locks b k b' k' m → (∀ a, locks b' k' b'' k'' (f a)) → locks b k b'' k'' (bind m f).
Proof.
  intros Hm Hf w Hw Hb Hk. unfold bind. destruct (Hm w Hw Hb Hk) as (H1 & H2 & H3).
  destruct (m w) as [[a| |] w']; cbn [fst snd] in *.
  - destruct (H3 a eq_refl). apply Hf; assumption.
  - split; [exact H1|]. split; [exact H2|]. intros a [=].
  - split; [exact H1|]. split; [exact H2|]. intros a [=].
Qed.
Lemma locks_post b k b' k1 k' {A} (m : M A) :
  locks b k b' k1 m → k1 ≤ k' → locks b k b' k' m.
Proof.
  intros Hm Hle w Hw Hb Hk. destruct (Hm w Hw Hb Hk) as (H1 & H2 & H3).
  split; [exact H1|]. split; [exact H2|]. intros a Ha.
  destruct (H3 a Ha) as [H4 H5]. split; [exact H4|]. unfold owes in *. lia.
Qed.
Lemma locks_modify b k f :
  (∀ s, refcount (f s) = refcount s ∧
        deferred_op_pending (f s) = deferred_op_pending s) →
  locks b k b k (modify f).
Proof.
  intros Hf w (H1 & H2 & H3 & H4 & H5 & H6 & H7) Hb Hk.
  unfold modify, ref_inv, owes in *. proj.
  destruct (Hf (ll w)) as [-> ->]. lk_fin.
Qed.
Lemma locks_reset_pending b k :
  locks b k b (k + 1) (modify (set_deferred_op_pending false)).
Proof.
  intros w (H1 & H2 & H3 & H4 & H5 & H6 & H7) Hb Hk.
  unfold modify, ref_inv, owes in *. proj.
  destruct (deferred_op_pending (ll w)); lk_fin.
Qed.
Lemma locks_emit b k e :
  ref_ok e = true → is_free e = false → is_zero_deref e = false →
  locks b k b k (emit e).
Proof.
  intros He Hf Hz w (H1 & H2 & H3 & H4 & H5 & H6 & H7) Hb Hk.
  unfold emit, ref_inv, owes, count in *. proj.
  cbn [forallb List.filter]. rewrite He, Hf, Hz. cbn [andb].
  lk_fin.
Qed.
Lemma locks_update b k g :
  (∀ w, ll (g w) = ll w ∧ held (g w) = held w ∧ freed (g w) = freed w ∧
        trace (g w) = trace w) →
  locks b k b k (update g).
Proof.
  intros Hg w (H1 & H2 & H3 & H4 & H5 & H6 & H7) Hb Hk. unfold update. cbn [fst snd].
  destruct (Hg w) as (G1 & G2 & G3 & G4).
  unfold ref_inv, owes. rewrite G1, G2, G3, G4. lk_fin.
Qed.
Lemma locks_ask b k E {A} (q : env → nat → A) : locks b k b k (ask E q).
Proof.
  intros w (H1 & H2 & H3 & H4 & H5 & H6 & H7) Hb Hk. unfold ask, ref_inv, owes. proj.
  lk_fin.
Qed.
Lemma locks_fd_lock k : locks false k true k fd_lock.
Proof.
  intros w (H1 & H2 & H3 & H4 & H5 & H6 & H7) Hb Hk. unfold fd_lock.
  destruct (freed w) eqn:Hf; cbn [fst snd].
  - unfold ref_inv. rewrite Hf. lk_fin.
  - rewrite Hb. unfold ref_inv, owes, count in *. proj. rewrite Hf in *.
    cbn [forallb List.filter ref_ok is_free is_zero_deref andb].
    lk_fin.
Qed.
Lemma locks_fd_unlock k : locks true k false k fd_unlock.
Proof.
  intros w (H1 & H2 & H3 & H4 & H5 & H6 & H7) Hb Hk. unfold fd_unlock.
  rewrite Hb. unfold ref_inv, owes, count in *. proj.
  cbn [forallb List.filter ref_ok is_free is_zero_deref andb].
  lk_fin.
Qed.

Lemma wrap32_range z : 0 ≤ wrap32 z < 2 ^ 32.
Proof. unfold wrap32. apply Z.mod_pos_bound. lia. Qed.

Lemma locks_fd_ref k : k ≤ 1000 → locks true k true (k + 1) fd_ref.
Proof.
  intros Hk1 w (H1 & H2 & H3 & H4 & H5 & H6 & H7) Hb Hk. unfold fd_ref.
  pose proof (H2 Hb) as Hnf.
  rewrite bind_modify. unfold snap, ref_inv, owes, count in *. proj.
  assert (Hr : refcount (ll w) ≤ 1002) by (destruct (deferred_op_pending (ll w)); lia).
  rewrite (wrap32_small (refcount (ll w) + 1)) by lia.
  cbn [forallb List.filter ref_ok is_free is_zero_deref andb]. rewrite Hb.
  replace (0 <? refcount (ll w) + 1) with true by (symmetry; apply Z.ltb_lt; lia).
  replace (refcount (ll w) + 1 =? 0) with false by (symmetry; apply Z.eqb_neq; lia).
  cbn [andb]. lk_fin.
Qed.

Lemma locks_fd_lock_and_ref k : k ≤ 1000 → locks false k true (k + 1) fd_lock_and_ref.
Proof.
  intros Hk. unfold fd_lock_and_ref. eapply locks_bind; [apply locks_fd_lock|]. intros _.
  apply locks_fd_ref, Hk.
Qed.

Lemma locks_fd_deref_and_unlock k : locks true k false (k - 1) fd_deref_and_unlock.
Proof.
  intros w (H1 & H2 & H3 & H4 & H5 & H6 & H7) Hb Hk. unfold fd_deref_and_unlock.
  rewrite bind_get. specialize (H2 Hb). specialize (H4 H2).
  replace (0 <? refcount (ll w)) with true by (symmetry; apply Z.ltb_lt; lia).
  cbv zeta. fd_steps.
  rewrite bind_fd_unlock by (proj; exact Hb). proj.
  assert (Hw : wrap32 (refcount (ll w) - 1) = refcount (ll w) - 1)
    by (apply wrap32_small; lia).
  rewrite Hw. rewrite H2 in *.
  destruct (Z.eqb_spec (refcount (ll w) - 1) 0) as [Hz|Hnz].
  - unfold fd_finish_free. fd_steps. unfold update, ref_inv, owes, count in *. proj.
    cbn [forallb List.filter ref_ok is_free is_zero_deref andb negb]. rewrite Hb.
    rewrite Hz. cbn [Z.eqb Z.leb Z.compare andb length].
    rewrite H1, H6, H7. destruct (deferred_op_pending (ll w)); lk_fin.
  - unfold skip, ret, ref_inv, owes, count in *. proj.
    cbn [forallb List.filter ref_ok is_free is_zero_deref andb negb]. rewrite Hb, H2.
    apply Z.eqb_neq in Hnz. rewrite Hnz.
    replace (0 <=? refcount (ll w) - 1) with true by (symmetry; apply Z.leb_le; lia).
    cbn [andb]. lk_fin.
Qed.

Lemma locks_fd_free k : locks false k false k fd_free.
Proof.
  unfold fd_free. apply (locks_post _ _ _ (k - 1)); [|lia].
  eapply locks_bind; [apply locks_fd_lock|]. intros _. apply locks_fd_deref_and_unlock.
Qed.

Lemma locks_fd_sched_deferred_op k :
  k ≤ 1000 → locks true k true k fd_sched_deferred_op.
Proof.
  intros Hk1 w Hw Hb Hk. unfold fd_sched_deferred_op. rewrite bind_get.
  destruct (deferred_op_pending (ll w)) eqn:Hp; cbn [negb].
  - apply (locks_ret true k ()); assumption.
  - destruct Hw as (H1 & H2 & H3 & H4 & H5 & H6 & H7). pose proof (H2 Hb) as Hnf.
    unfold fd_ref, o_run. fd_steps. unfold update, ref_inv, owes, count in *. proj.
    rewrite Hp in Hk.
    rewrite (wrap32_small (refcount (ll w) + 1)) by lia.
    cbn [forallb List.filter ref_ok is_free is_zero_deref andb]. rewrite Hb.
    replace (0 <? refcount (ll w) + 1) with true by (symmetry; apply Z.ltb_lt; lia).
    replace (refcount (ll w) + 1 =? 0) with false by (symmetry; apply Z.eqb_neq; lia).
    cbn [andb]. lk_fin.
Qed.

End Locks.

Create HintDb locks.
Global Hint Resolve locks_fd_lock locks_fd_unlock locks_fd_ref locks_fd_lock_and_ref
  locks_fd_deref_and_unlock locks_fd_free locks_fd_sched_deferred_op : locks.
Global Hint Extern 2 (_ ≤ _) => lia : locks.

Ltac lk_side :=
  lazymatch goal with
  | |- ?a ≤ ?b =>
      first [ is_evar a; apply Z.le_refl | is_evar b; apply Z.le_refl | lia ]
  end.

Ltac lk_step :=
  lazymatch goal with
  | |- _ ≤ _ => lk_side
  | |- locks _ _ _ _ (bind _ _) => eapply locks_bind; [|intros ?]
  | |- locks _ _ _ _ (ret _) => apply locks_ret
  | |- locks _ _ _ _ skip => apply locks_ret
  | |- locks _ _ _ _ get => apply locks_get
  | |- locks _ _ _ _ out_of_fuel => apply locks_out_of_fuel
  | |- locks _ _ _ _ (modify (set_deferred_op_pending false)) =>
      apply locks_reset_pending
  | |- locks _ _ _ _ (modify _) => apply locks_modify; intros ?; split; reflexivity
  | |- locks _ _ _ _ (emit _) => apply locks_emit; reflexivity
  | |- locks _ _ _ _ (update _) => apply locks_update; intros ?; repeat split
  | |- locks _ _ _ _ (ask _ _) => apply locks_ask
  | |- locks _ _ _ _ (if ?c then _ else _) => destruct c; (eapply locks_post; [|])
  | |- locks _ _ _ _ (match ?x with _ => _ end) => destruct x; (eapply locks_post; [|])
  | |- locks _ _ _ _ (let _ := _ in _) => cbv zeta
  | |- locks _ _ _ _ ?m => first [ solve [eauto with locks] | let h := head_of m in unfold h ]
  end.
Ltac lk_go := repeat lk_step.
(* [lk] proves a judgement whose final count is given. *)
Ltac lk := eapply locks_post; [lk_go|]; try lk_side.

Section LocksAll.
Context (E : env).

Lemma locks_ll_func k c : k ≤ 1000 → locks false k false k (gensio_ll_fd_func E c).
Proof. intros Hk. destruct c; lk. Qed.

Lemma locks_run_calls k cs : k ≤ 1000 → locks false k false k (run_calls E cs).
Proof.
  intros Hk. induction cs as [|c cs IH]; cbn [run_calls]; [apply locks_ret|].
  eapply locks_bind; [apply locks_ll_func, Hk | intros _; exact IH].
Qed.

Lemma locks_up k u : k ≤ 1000 → locks false k false k (up E u).
Proof.
  intros Hk1 w Hw Hb Hk. unfold up.
  apply (locks_bind false k false k false k (run_calls E (fst (user E (tick w) u)))).
  - apply locks_run_calls, Hk1.
  - intros _. apply locks_ret.
  - destruct Hw as (H1 & H2 & H3 & H4 & H5 & H6 & H7). unfold ref_inv, count in *. proj.
    cbn [forallb List.filter ref_ok is_free is_zero_deref andb negb]. rewrite Hb.
    cbn [negb andb]. lk_fin.
  - proj. exact Hb.
  - unfold owes in *. proj. exact Hk.
Qed.
Hint Resolve locks_up : locks.

Lemma locks_up_read k err : k ≤ 1000 → locks false k false k (up_read E err).
Proof. intros Hk. lk. Qed.
Hint Resolve locks_up_read : locks.

Lemma locks_fd_deliver_retry k n err :
  k ≤ 1000 → locks false k false k (fd_deliver_retry E n err).
Proof. intros Hk. induction n as [|n IH]; cbn [fd_deliver_retry]; lk. Qed.
Hint Resolve locks_fd_deliver_retry : locks.

Lemma locks_fd_deliver_read_data k fuel err :
  k ≤ 1000 → locks false k false k (fd_deliver_read_data E fuel err).
Proof. intros Hk. lk. Qed.
Hint Resolve locks_fd_deliver_read_data : locks.

Lemma locks_fd_finish_close k : k ≤ 1000 → locks true k true k (fd_finish_close E).
Proof. intros Hk. lk. Qed.
Hint Resolve locks_fd_finish_close : locks.

Lemma locks_fd_deferred_retry k fuel n :
  k ≤ 1000 → locks true k true k (fd_deferred_retry E fuel n).
Proof. intros Hk. induction n as [|n IH]; cbn [fd_deferred_retry]; lk. Qed.
Hint Resolve locks_fd_deferred_retry : locks.

Lemma locks_fd_deferred_op k fuel :
  k ≤ 900 → locks false k false k (fd_deferred_op E fuel).
Proof. intros Hk. lk. Qed.

Lemma locks_fd_handle_incoming k fuel doread aux :
  k ≤ 900 → locks false (k + 1) false (k + 1) doread →
  locks false k false k (fd_handle_incoming E fuel doread aux).
Proof. intros Hk Hd. lk. Qed.

Lemma locks_driver_read k res : locks false k false k (driver_read res).
Proof. lk. Qed.
Hint Resolve locks_driver_read : locks.

Lemma locks_gensio_ll_fd_read k : locks false k false k (gensio_ll_fd_read E).
Proof. lk. Qed.
Hint Resolve locks_gensio_ll_fd_read : locks.

Lemma locks_run_drv k fuel cs : k ≤ 900 → locks false k false k (run_drv E fuel cs).
Proof.
  intros Hk. induction cs as [|[res aux|op] cs IH]; cbn [run_drv].
  - apply locks_ret.
  - eapply locks_bind; [|intros _; exact IH].
    apply locks_fd_handle_incoming; [exact Hk | apply locks_driver_read].
  - eapply locks_bind; [|intros _; exact IH].
    unfold gensio_fd_ll_callback. apply locks_up. lia.
Qed.
Hint Resolve locks_run_drv : locks.

Lemma locks_fd_read_ready k fuel : k ≤ 800 → locks false k false k (fd_read_ready E fuel).
Proof.
  intros Hk. unfold fd_read_ready. eapply locks_bind; [apply locks_get|]. intros s.
  destruct (has_read_ready (ops s)); [lk|].
  apply locks_fd_handle_incoming; [lia | apply locks_gensio_ll_fd_read].
Qed.

Lemma locks_fd_finish_open k err : k ≤ 1000 → locks true k true k (fd_finish_open E err).
Proof. intros Hk. lk. Qed.
Hint Resolve locks_fd_finish_open : locks.

Lemma locks_fd_handle_write_ready k fuel :
  k ≤ 900 → locks true k true k (fd_handle_write_ready E fuel).
Proof. intros Hk. lk. Qed.
Hint Resolve locks_fd_handle_write_ready : locks.

Lemma locks_fd_write_ready k fuel : k ≤ 800 → locks false k false k (fd_write_ready E fuel).
Proof. intros Hk. lk. Qed.

Lemma locks_fd_except_ready k fuel :
  k ≤ 800 → locks false k false k (fd_except_ready E fuel).
Proof. intros Hk. lk. Qed.

Lemma locks_fd_finish_cleared k : k ≤ 800 → locks false k false k (fd_finish_cleared E).
Proof. intros Hk. lk. Qed.
Hint Resolve locks_fd_finish_cleared : locks.

Lemma locks_fd_close_timeout k : k ≤ 800 → locks false k false k (fd_close_timeout E).
Proof. intros Hk. lk. Qed.
Hint Resolve locks_fd_close_timeout : locks.

Lemma locks_fd_cleared k : k ≤ 800 → locks false k false k (fd_cleared E).
Proof. intros Hk. lk. Qed.

End LocksAll.

Section LocksRun.
Context (E : env) (fuel : nat).

Lemma locks_os_deliver ev : locks false 0 false 0 (os_deliver E fuel ev).
Proof.
  intros w Hw Hb Hk. unfold os_deliver.
  destruct ev.
  - destruct (registered w && rd_armed w); [apply (locks_fd_read_ready E 0); [lia|..]; assumption|].
    apply (locks_ret false 0 ()); assumption.
  - destruct (registered w && wr_armed w); [apply (locks_fd_write_ready E 0); [lia|..]; assumption|].
    apply (locks_ret false 0 ()); assumption.
  - destruct (registered w && ex_armed w); [apply (locks_fd_except_ready E 0); [lia|..]; assumption|].
    apply (locks_ret false 0 ()); assumption.
  - destruct (clear_pending w); [apply (locks_fd_cleared E 0); [lia|..]; assumption|].
    apply (locks_ret false 0 ()); assumption.
  - destruct (runner_queued w); [apply (locks_fd_deferred_op E 0); [lia|..]; assumption|].
    apply (locks_ret false 0 ()); assumption.
  - destruct (timer_armed w); [apply (locks_fd_close_timeout E 0); [lia|..]; assumption|].
    apply (locks_ret false 0 ()); assumption.
Qed.

Lemma locks_step i : locks false 0 false 0 (step E fuel i).
Proof.
  destruct i as [c|ev]; cbn [step].
  - eapply locks_bind; [apply locks_ll_func; lia | intros _; apply locks_ret].
  - apply locks_os_deliver.
Qed.

Lemma locks_run ins : locks false 0 false 0 (run E fuel ins).
Proof.
  induction ins as [|i ins IH]; cbn [run]; [apply locks_ret|].
  eapply locks_bind; [apply locks_step | intros _; exact IH].
Qed.

End LocksRun.

Lemma alloc_ref_inv E ok h driver hdata size wronly w0 :
  fd_gensio_ll_alloc E ok h driver hdata size wronly = Some w0 →
  ref_inv w0 ∧ held w0 = false ∧ owes 0 w0.
Proof.
  unfold fd_gensio_ll_alloc. destruct ok; [|discriminate]. cbn [negb].
  destruct (h =? -1).
  - intros [= <-]. unfold ref_inv, owes, count. cbn. lk_fin.
  - unfold fd_setup_handlers, o_set_fd_handlers.
    fd_steps. destruct (os_set_fd_handlers E 0); fd_steps.
    + cbn. discriminate.
    + unfold ret. intros [= <-]. unfold ref_inv, owes, count. cbn. lk_fin.
Qed.

Lemma er_bind {A B} (m : M A) (f : A → M B) :
  (∀ a, ends_released (f a)) → ends_released (bind m f).
Proof.
  intros Hf w b. unfold bind. destruct (m w) as [[a| |] w']; cbn [fst snd].
  - apply Hf.
  - discriminate.
  - discriminate.
Qed.

Lemma er_deref : ends_released fd_deref_and_unlock.
Proof.
  intros w a. unfold fd_deref_and_unlock. rewrite bind_get.
  destruct (0 <? refcount (ll w)); [|discriminate]. cbv zeta. fd_steps.
  destruct (held w) eqn:Hh.
  - rewrite bind_fd_unlock by (proj; exact Hh). proj.
    destruct (Z.eqb_spec (wrap32 (refcount (ll w) - 1)) 0) as [Hz|Hnz].
    + unfold fd_finish_free. fd_steps. unfold update. proj. rewrite Hz. reflexivity.
    + unfold skip, ret. proj. intros _. cbn [released].
      apply negb_true_iff, Z.eqb_neq, Hnz.
  - unfold bind at 1, fd_unlock at 1. proj. rewrite Hh. discriminate.
Qed.

Ltac er_go :=
  repeat first [ apply er_deref
               | apply er_bind; intros ?
               | match goal with
                 | |- ends_released (if ?c then _ else _) => destruct c
                 end ].

Section Paths.
Context (E : env) (fuel : nat).

Lemma er_fd_handle_incoming doread aux :
  ends_released (fd_handle_incoming E fuel doread aux).
Proof. unfold fd_handle_incoming. er_go. Qed.

Lemma er_fd_write_ready : ends_released (fd_write_ready E fuel).
Proof. unfold fd_write_ready. er_go. Qed.

Lemma er_fd_finish_cleared : ends_released (fd_finish_cleared E).
Proof. unfold fd_finish_cleared. er_go. Qed.

Lemma er_fd_deferred_op : ends_released (fd_deferred_op E fuel).
Proof. unfold fd_deferred_op. er_go. Qed.

Lemma lock_and_ref_then {A} (k : unit → M A) w :
  held w = false → freed w = false →
  (∀ u, pres (grown (EvRef true (wrap32 (refcount (ll w) + 1)) :: EvLock :: trace w)) (k u)) →
  ∃ post, trace (snd (bind fd_lock_and_ref k w)) =
          post ++ EvRef true (wrap32 (refcount (ll w) + 1)) :: EvLock :: trace w.
Proof.
  intros Hh Hf Hk. apply grown_post.
  unfold fd_lock_and_ref. rewrite !bind_bind.
  rewrite bind_fd_lock by assumption. fd_steps.
  apply Hk. proj. constructor.
Qed.

Lemma fd_handle_incoming_bracketed doread aux w :
  held w = false → freed w = false →
  pres (grown (EvRef true (wrap32 (refcount (ll w) + 1)) :: EvLock :: trace w)) doread →
  bracketed w (fd_handle_incoming E fuel doread aux w).
Proof.
  intros Hh Hf Hd. split; [|apply er_fd_handle_incoming].
  unfold fd_handle_incoming. apply lock_and_ref_then; [assumption..|].
  intros _. pres_go grown_leaf.
Qed.

Lemma fd_write_ready_bracketed w :
  held w = false → freed w = false → bracketed w (fd_write_ready E fuel w).
Proof.
  intros Hh Hf. split; [|apply er_fd_write_ready].
  unfold fd_write_ready. apply lock_and_ref_then; [assumption..|].
  intros _. pres_go grown_leaf.
Qed.

Lemma fd_finish_cleared_bracketed w :
  held w = false → freed w = false → bracketed w (fd_finish_cleared E w).
Proof.
  intros Hh Hf. split; [|apply er_fd_finish_cleared].
  unfold fd_finish_cleared. apply lock_and_ref_then; [assumption..|].
  intros _. pres_go grown_leaf.
Qed.

Lemma fd_except_ready_bracketed w :
  held w = false → freed w = false → state (ll w) = FD_IN_OPEN →
  bracketed w (fd_except_ready E fuel w).
Proof.
  intros Hh Hf Hs. unfold fd_except_ready.
  rewrite bind_fd_lock by assumption. rewrite bind_get. proj.
  rewrite (is_state_true FD_IN_OPEN) by (proj; exact Hs).
  split.
  - apply grown_post. unfold fd_ref. rewrite !bind_bind. fd_steps.
    match goal with |- grown ?X (snd (?m ?W)) => apply (pres_at (grown X) m W) end.
    + pres_go grown_leaf.
    + proj. constructor.
  - match goal with
    | |- fst (?m ?W) = _ → _ =>
        assert (He : ends_released m) by er_go; exact (He W ())
    end.
Qed.

Lemma fd_sched_deferred_op_ref w :
  deferred_op_pending (ll w) = false →
  trace (snd (fd_sched_deferred_op w)) =
    EvRun :: EvRef (held w) (wrap32 (refcount (ll w) + 1)) :: trace w ∧
  deferred_op_pending (ll (snd (fd_sched_deferred_op w))) = true ∧
  runner_queued (snd (fd_sched_deferred_op w)) = true.
Proof.
  intros Hp. unfold fd_sched_deferred_op. rewrite bind_get, Hp. cbn [negb].
  unfold fd_ref, o_run. fd_steps. unfold update. proj. auto.
Qed.

End Paths.

(** Claim C5, amended.  The reference discipline of the FD lower layer.
    Every path on which the lower layer itself dispatches up-calls (read
    delivery by [fd_handle_incoming], from the read-ready handler or from a
    driver; [fd_write_ready]; [fd_except_ready] during an open;
    [fd_finish_cleared]) first takes the lock and increments the reference
    count under it, before it unlocks, and when it returns it has last
    decremented the count under the lock and then unlocked; the deferred op
    runs on the reference [fd_sched_deferred_op] took under the lock and
    releases it in the same way.  Outside this discipline is
    [gensio_fd_ll_callback], by which a driver makes an up-call: it takes
    neither the lock nor a reference, the up-call is its first event, made at
    the count it found.  In every run from allocation, for every environment:
    no assertion fails (the count is never decremented at zero) and the lock
    is never misused, every up-call and the free happen with the lock
    released, every change of the count happens under the lock, the count
    stays within [0, 2^32), it reaches zero at most once, and the structure is
    freed exactly when it has. *)
Theorem fd_reference_discipline (E : env) (fuel : nat) (w : world)
    (res : gensio_err * list byte) (aux : option (list string))
    (ok : bool) (h : Z) (driver : gensio_fd_ll_ops) (hdata size : Z) (wronly : bool)
    (w0 : world) (ins : list input) :
  held w = false → freed w = false →
  fd_gensio_ll_alloc E ok h driver hdata size wronly = Some w0 →
  (bracketed w (fd_handle_incoming E fuel (gensio_ll_fd_read E) None w) ∧
   bracketed w (gensio_fd_ll_handle_incoming E fuel res aux w) ∧
   bracketed w (fd_write_ready E fuel w) ∧
   (state (ll w) = FD_IN_OPEN → bracketed w (fd_except_ready E fuel w)) ∧
   bracketed w (fd_finish_cleared E w) ∧
   (∀ wl, deferred_op_pending (ll wl) = false →
      trace (snd (fd_sched_deferred_op wl)) =
        EvRun :: EvRef (held wl) (wrap32 (refcount (ll wl) + 1)) :: trace wl ∧
      deferred_op_pending (ll (snd (fd_sched_deferred_op wl))) = true ∧
      runner_queued (snd (fd_sched_deferred_op wl)) = true) ∧
   (fst (fd_deferred_op E fuel w) = Done () →
    released (trace (snd (fd_deferred_op E fuel w))) = true) ∧
   (∀ op, ∃ post,
      trace (snd (gensio_fd_ll_callback E op w)) =
        post ++ EvUp (UpDriver op) false (refcount (ll w)) :: trace w)) ∧
  let r := run E fuel ins w0 in
  breaks (fst r) = false ∧
  forallb ref_ok (trace (snd r)) = true ∧
  0 ≤ refcount (ll (snd r)) < 2 ^ 32 ∧
  (freed (snd r) = true ↔ refcount (ll (snd r)) = 0) ∧
  count is_zero_deref (trace (snd r)) = (if freed (snd r) then 1 else 0)%nat ∧
  count is_free (trace (snd r)) = (if freed (snd r) then 1 else 0)%nat.
Proof.
  intros Hh Hf Ha. split.
  - split; [|split; [|split; [|split; [|split; [|split; [|split]]]]]].
    + apply fd_handle_incoming_bracketed; [assumption..|].
      unfold gensio_ll_fd_read. pres_go grown_leaf.
    + apply fd_handle_incoming_bracketed; [assumption..|].
      unfold driver_read. pres_go grown_leaf.
    + apply fd_write_ready_bracketed; assumption.
    + intros Hs. apply fd_except_ready_bracketed; assumption.
    + apply fd_finish_cleared_bracketed; assumption.
    + intros wl Hp. apply fd_sched_deferred_op_ref, Hp.
    + apply er_fd_deferred_op.
    + intros op. unfold gensio_fd_ll_callback. rewrite <- Hh.
      destruct (up E (UpDriver op) w) as [o w1] eqn:Hup.
      destruct (up_trace E _ _ _ _ Hup) as (evs & Htr & _). exists evs. exact Htr.
  - apply alloc_ref_inv in Ha as (Hi & Hl & Ho).
    destruct (locks_run E fuel ins w0 Hi Hl Ho)
      as ((H1 & H2 & H3 & H4 & H5 & H6 & H7) & Hb & _).
    cbv zeta. split; [exact Hb|]. split; [exact H1|]. split; [exact H3|].
    split; [|split; [exact H7 | exact H6]].
    split; [exact H5|]. intros Hz.
    destruct (freed (snd (run E fuel ins w0))); [reflexivity|].
    specialize (H4 eq_refl). lia.
Qed.

Lemma fd_reference_discipline_witness :
  bracketed world_open (fd_write_ready free_inside_read 1 world_open) ∧
  let r := run free_inside_read 1
             [User (GENSIO_LL_FUNC_SET_READ_CALLBACK true); Os OsReadReady]
             (alloc_world free_inside_read 5 no_ops 4 false) in
  breaks (fst r) = false ∧
  count is_zero_deref (trace (snd r)) = (if freed (snd r) then 1 else 0)%nat.
Proof.
  destruct (fd_reference_discipline free_inside_read 1 world_open (GE_NOERR, []) None
              true 5 no_ops 0 4 false (alloc_world free_inside_read 5 no_ops 4 false)
              [User (GENSIO_LL_FUNC_SET_READ_CALLBACK true); Os OsReadReady])
    as ((_ & _ & Hw & _) & Hb & _ & _ & _ & Hz & _).
  - reflexivity.
  - reflexivity.
  - reflexivity.
  - split; [exact Hw|]. split; [exact Hb | exact Hz].
Defined.

Lemma driver_upcall_without_reference :
  let r := run env_driver_callback 1
             [User (GENSIO_LL_FUNC_SET_READ_CALLBACK true); Os OsReadReady]
             (alloc_world env_driver_callback 5 hook_ops 4 false) in
  fst r = Done () ∧
  rev (trace (snd r)) =
    [EvSetFdHandlers 5; EvLock; EvSetReadHandler 5 true; EvSetExceptHandler 5 true;
     EvUnlock; EvOps OpReadReady; EvUp (UpDriver 1) false 1; EvLock;
     EvDeref true 0; EvUnlock; EvOps OpFree; EvFree false] ∧
  freed (snd r) = true.
Proof. vm_compute. repeat split; reflexivity. Qed.

(** ** The close-done callback, from the close *)

Ltac proj_in H :=
  cbn [ll held freed registered rd_armed wr_armed ex_armed clear_pending
       runner_queued timer_armed trace tick
       set_ll set_held set_freed set_registered set_rd_armed set_wr_armed
       set_ex_armed set_clear_pending set_runner_queued set_timer_armed
       set_trace set_tick
       refcount cb cb_data fd state read_enabled write_enabled write_only ops
       handler_data open_done open_data open_err close_done close_data
       read_data read_data_size read_data_len read_data_pos auxdata in_read
       deferred_op_pending deferred_read deferred_close
       set_refcount set_cb set_cb_data set_fd set_state set_read_enabled
       set_write_enabled set_open_done set_open_data set_open_err
       set_close_done set_close_data set_read_data set_read_data_len
       set_read_data_pos set_auxdata set_in_read set_deferred_op_pending
       set_deferred_read set_deferred_close
       fst snd orb andb negb is_err is_state] in H.

Section CloseOnce.
Context (E : env).

Lemma ll_func_closed c w :
  is_open_call c = false →
  held w = false → freed w = false → state (ll w) = FD_CLOSED →
  (if is_free_call c then 1 else 0) < refcount (ll w) < 2 ^ 32 →
  ∃ e w', gensio_ll_fd_func E c w = (Done e, w') ∧ closed_frame w w' ∧
          refcount (ll w') = refcount (ll w) - (if is_free_call c then 1 else 0) ∧
          quiet_from w w'.
Proof.
  intros Ho Hh Hf Hs Hr.
  assert (Hq : quiet_from w (snd (gensio_ll_fd_func E c w)))
    by (apply ll_func_quiet; constructor).
  revert Hq.
  destruct c as [cb' d'|len|dn dt|dn dt|en|en| |]; cbn [is_free_call] in Hr;
    cbn [gensio_ll_fd_func is_free_call]; [| | discriminate | | | | |].
  - unfold fd_set_callbacks. fd_steps. cbn [ret fst snd].
    intros Hq. eexists _, _. split; [reflexivity|]. unfold closed_frame. proj.
    repeat split; try assumption; lia.
  - unfold fd_write. rewrite ?bind_bind, bind_get.
    destruct (has_write (ops (ll w))); fd_steps; cbn [ret fst snd];
      intros Hq; (eexists _, _; split; [reflexivity|]); unfold closed_frame; proj;
      repeat split; try assumption; lia.
  - unfold fd_close. rewrite ?bind_bind. rewrite bind_fd_lock by assumption. fd_steps.
    rewrite Hs. decide_eqs. cbn [orb]. fd_steps. unlock_step. cbn [ret fst snd].
    intros Hq. eexists _, _. split; [reflexivity|]. unfold closed_frame. proj.
    repeat split; try assumption; lia.
  - unfold fd_set_read_callback_enable. rewrite ?bind_bind. rewrite bind_fd_lock by assumption.
    fd_steps.
    destruct (write_only (ll w)); fd_steps; rewrite ?Hs; decide_eqs;
      cbn [negb]; rewrite ?orb_true_r; cbn [orb]; fd_steps; unlock_step;
      cbn [ret fst snd];
      intros Hq; (eexists _, _; split; [reflexivity|]); unfold closed_frame; proj;
      repeat split; try assumption; lia.
  - unfold fd_set_write_callback_enable. rewrite ?bind_bind. rewrite bind_fd_lock by assumption.
    fd_steps. rewrite Hs. decide_eqs. cbn [orb]. fd_steps. unlock_step.
    cbn [ret fst snd].
    intros Hq. eexists _, _. split; [reflexivity|]. unfold closed_frame. proj.
    repeat split; try assumption; lia.
  - unfold fd_free, fd_deref_and_unlock. rewrite ?bind_bind. rewrite bind_fd_lock by assumption.
    fd_steps.
    replace (0 <? refcount (ll w)) with true by (symmetry; apply Z.ltb_lt; lia).
    cbv zeta. fd_steps. unlock_step.
    rewrite (wrap32_small (refcount (ll w) - 1)) by lia.
    replace (refcount (ll w) - 1 =? 0) with false by (symmetry; apply Z.eqb_neq; lia).
    fd_steps. cbn [ret fst snd skip].
    intros Hq. eexists _, _. split; [reflexivity|]. unfold closed_frame. proj.
    repeat split; try assumption; lia.
  - unfold fd_disable, o_clear_fd_handlers_norpt, os_close. fd_steps. cbn [ret fst snd].
    unfold update, modify. proj.
    intros Hq. eexists _, _. split; [reflexivity|]. unfold closed_frame. proj.
    repeat split; try assumption; lia.
Qed.


Lemma closed_frame_trans w w1 w2 :
  closed_frame w w1 → closed_frame w1 w2 → closed_frame w w2.
Proof.
  unfold closed_frame. intros (A1 & A2 & A3 & A4 & A5 & A6 & A7 & A8 & A9)
    (B1 & B2 & B3 & B4 & B5 & B6 & B7 & B8 & B9).
  repeat split; congruence.
Qed.

Lemma frees_nonneg cs : 0 ≤ frees cs.
Proof. unfold frees. lia. Qed.

Lemma run_calls_closed cs : ∀ w,
  tame cs (refcount (ll w)) →
  held w = false → freed w = false → state (ll w) = FD_CLOSED →
  refcount (ll w) < 2 ^ 32 →
  ∃ w', run_calls E cs w = (Done (), w') ∧ closed_frame w w' ∧
        refcount (ll w') = refcount (ll w) - frees cs ∧ quiet_from w w'.
Proof.
  induction cs as [|c cs IH]; intros w [Ho Hfr] Hh Hf Hs Hr.
  - exists w. split; [reflexivity|]. unfold closed_frame, frees. cbn.
    repeat split; try assumption; try lia. constructor.
  - cbn [forallb] in Ho. apply andb_true_iff in Ho as [Hc Ho].
    apply negb_true_iff in Hc.
    assert (Hfc : frees (c :: cs) = (if is_free_call c then 1 else 0) + frees cs).
    { unfold frees. cbn [List.filter]. destruct (is_free_call c); cbn [length]; lia. }
    pose proof (frees_nonneg cs) as Hnn.
    destruct (ll_func_closed c w Hc Hh Hf Hs) as (e & w1 & H1 & H2 & H3 & H4).
    { destruct (is_free_call c); lia. }
    pose proof H2 as (K1 & K2 & K3 & _).
    destruct (IH w1) as (w' & I1 & I2 & I3 & I4); try assumption.
    { split; [exact Ho|]. destruct (is_free_call c); lia. }
    { destruct (is_free_call c); lia. }
    exists w'. cbn [run_calls]. rewrite (bind_done _ _ _ _ _ H1).
    split; [exact I1|]. split; [eapply closed_frame_trans; eassumption|].
    split; [lia|]. unfold quiet_from in *. eapply grows_trans; eassumption.
Qed.

Lemma up_closed u w :
  tame (fst (user E (tick w) u)) (refcount (ll w)) →
  held w = false → freed w = false → state (ll w) = FD_CLOSED →
  refcount (ll w) < 2 ^ 32 →
  ∃ x w', up E u w = (Done x, w') ∧ closed_frame w w' ∧
          refcount (ll w') = refcount (ll w) - frees (fst (user E (tick w) u)) ∧
          grows (λ e, is_up e = false)
            (EvUp u false (refcount (ll w)) :: trace w) (trace w').
Proof.
  intros Ht Hh Hf Hs Hr. unfold up.
  set (w1 := set_tick (S (tick w))
               (set_trace (EvUp u (held w) (refcount (ll w)) :: trace w) w)).
  destruct (run_calls_closed (fst (user E (tick w) u)) w1) as (w' & H1 & H2 & H3 & H4);
    try assumption.
  exists (snd (user E (tick w) u)), w'.
  rewrite (bind_done _ _ _ _ _ H1). split; [reflexivity|].
  split; [exact H2|]. split; [exact H3|].
  unfold quiet_from in H4. subst w1. cbn [trace set_tick set_trace] in H4.
  rewrite Hh in H4. exact H4.
Qed.


Hint Resolve up_read_ncd fd_deliver_retry_ncd fd_deliver_read_data_ncd
  fd_deferred_retry_ncd : pres.

Ltac close_done_tail :=
  rewrite ?bind_bind; unlock_step;
  apply pres_bind_at;
  [ apply pres_bind_at; [|intros; pres_go ncd_leaf];
    match goal with
    | |- context [up E ?u0 ?W] => exact (up_then_no_close_done E u0 W)
    end
  | intros _; pres_go ncd_leaf ].

(** [fd_finish_cleared] with a close-done callback recorded, no open in
    flight and no deferred op pending. *)
Lemma finish_cleared_direct W fn :
  held W = false → freed W = false → 0 < refcount (ll W) < 2 ^ 32 - 1 →
  close_done (ll W) = Some fn → open_done (ll W) = None →
  deferred_op_pending (ll W) = false →
  ∃ post,
    trace (snd (fd_finish_cleared E W)) =
      post ++ EvUp (UpCloseDone fn (cb_data (ll W)) (close_data (ll W))) false
                (refcount (ll W) + 1)
           :: EvUnlock :: EvClose (fd (ll W)) :: EvRef true (refcount (ll W) + 1)
           :: EvLock :: trace W ∧
    Forall (λ e, is_close_done e = false) post.
Proof.
  intros Hh Hf Hrc Hcd Hod Hp.
  assert (Hw1 : wrap32 (refcount (ll W) + 1) = refcount (ll W) + 1)
    by (apply wrap32_small; lia).
  apply no_close_done_post.
  unfold fd_finish_cleared, fd_lock_and_ref, os_close.
  rewrite !bind_bind, bind_fd_lock by assumption. fd_steps.
  rewrite Hod. fd_steps. rewrite Hp. fd_steps. unfold fd_finish_close. fd_steps.
  rewrite Hcd. fd_steps. rewrite Hw1. close_done_tail.
Qed.

(** The same with a deferred op pending: the callback is left to the
    deferred runner. *)
Lemma finish_cleared_deferred fuel W fn :
  held W = false → freed W = false → 0 < refcount (ll W) < 2 ^ 32 - 1 →
  close_done (ll W) = Some fn → open_done (ll W) = None →
  deferred_op_pending (ll W) = true →
  let r := fd_finish_cleared E W in
  fst r = Done () ∧
  trace (snd r) =
    EvUnlock :: EvDeref true (refcount (ll W)) :: EvClose (fd (ll W))
      :: EvRef true (refcount (ll W) + 1) :: EvLock :: trace W ∧
  deferred_close (ll (snd r)) = true ∧
  ∃ post,
    trace (snd (fd_deferred_op E (S fuel) (snd r))) =
      post ++ EvUp (UpCloseDone fn (cb_data (ll W)) (close_data (ll W))) false
                (refcount (ll W))
           :: EvUnlock :: EvLock :: trace (snd r) ∧
    Forall (λ e, is_close_done e = false) post.
Proof.
  intros Hh Hf Hrc Hcd Hod Hp r.
  assert (Hw1 : wrap32 (refcount (ll W) + 1) = refcount (ll W) + 1)
    by (apply wrap32_small; lia).
  assert (Hr : r = fd_finish_cleared E W) by reflexivity.
  revert Hr.
  unfold fd_finish_cleared, fd_lock_and_ref, os_close.
  rewrite !bind_bind, bind_fd_lock by assumption. fd_steps.
  rewrite Hod. fd_steps. rewrite Hp. fd_steps.
  unfold fd_deref_and_unlock. fd_steps. rewrite Hw1.
  replace (0 <? refcount (ll W) + 1) with true by (symmetry; apply Z.ltb_lt; lia).
  replace (refcount (ll W) + 1 - 1) with (refcount (ll W)) by lia.
  rewrite (wrap32_small (refcount (ll W))) by lia.
  fd_steps. unlock_step.
  replace (refcount (ll W) =? 0) with false by (symmetry; apply Z.eqb_neq; lia).
  intros ->. cbn [fst snd skip ret]. proj.
  split; [reflexivity|]. split; [reflexivity|]. split; [reflexivity|].
  apply no_close_done_post.
  unfold fd_deferred_op.
  rewrite bind_fd_lock by (proj; first [assumption | reflexivity]).
  fd_steps. unfold fd_finish_close. fd_steps. rewrite Hcd. fd_steps.
  close_done_tail.
Qed.


Lemma tame_le cs n m : tame cs n → n ≤ m → tame cs m.
Proof. intros [H1 H2] Hle. split; [exact H1 | lia]. Qed.

Lemma finish_cleared_in_flight fuel W fn fo :
  held W = false → freed W = false → 0 < refcount (ll W) < 2 ^ 32 - 1 →
  close_done (ll W) = Some fn → open_done (ll W) = Some fo →
  let uo := UpOpenDone fo (open_data (ll W)) (open_err (ll W)) (open_data (ll W)) in
  tame (fst (user E (tick W) uo))
    (refcount (ll W) + (if deferred_op_pending (ll W) then 0 else 1)) →
  let r := fd_finish_cleared E W in
  let X := EvUp uo false (refcount (ll W) + 1) :: EvUnlock :: EvClose (fd (ll W))
             :: EvRef true (refcount (ll W) + 1) :: EvLock :: trace W in
  (deferred_op_pending (ll W) = false →
     ∃ post mid d n,
       trace (snd r) =
         post ++ EvUp (UpCloseDone fn d (close_data (ll W))) false n
              :: EvUnlock :: EvLock :: mid ++ X ∧
       Forall (λ e, is_close_done e = false) post ∧
       Forall (λ e, is_up e = false) mid ∧ 0 < n) ∧
  (deferred_op_pending (ll W) = true →
     fst r = Done () ∧ deferred_close (ll (snd r)) = true ∧
     ∃ mid d n,
       trace (snd r) = EvUnlock :: EvDeref true n :: EvLock :: mid ++ X ∧
       Forall (λ e, is_up e = false) mid ∧ 0 < n ∧
       ∃ post,
         trace (snd (fd_deferred_op E (S fuel) (snd r))) =
           post ++ EvUp (UpCloseDone fn d (close_data (ll W))) false n
                :: EvUnlock :: EvLock :: trace (snd r) ∧
         Forall (λ e, is_close_done e = false) post).
Proof.
  intros Hh Hf Hrc Hcd Hod uo Ht. cbv zeta.
  assert (Hw1 : wrap32 (refcount (ll W) + 1) = refcount (ll W) + 1)
    by (apply wrap32_small; lia).
  unfold fd_finish_cleared, fd_lock_and_ref, os_close.
  rewrite !bind_bind, bind_fd_lock by assumption. fd_steps.
  rewrite Hod. fd_steps. rewrite ?bind_bind. unlock_step. rewrite Hw1.
  rewrite ?bind_bind.
  match goal with
  | |- context [bind (up E _) _ ?Wx] =>
      destruct (up_closed uo Wx) as (x & w2 & Hup & Hfr & Hrc2 & Hg)
  end.
  { proj. eapply tame_le; [exact Ht|].
    destruct (deferred_op_pending (ll W)); lia. }
  { reflexivity. }
  { proj. exact Hf. }
  { reflexivity. }
  { proj. lia. }
  proj. proj_in Hrc2. proj_in Hg.
  destruct Hfr as (F1 & F2 & F3 & F4 & F5 & F6 & F7 & F8 & F9).
  proj_in F4. proj_in F5. proj_in F7. proj_in F8.
  rewrite !(bind_done _ _ _ _ _ Hup). clear Hup F6 F9.
  rewrite !bind_fd_lock by assumption. fd_steps. rewrite F7.
  apply grows_app in Hg as (mid & Hmid & Hq).
  pose proof (frees_nonneg (fst (user E (tick W) uo))) as Hnn.
  destruct Ht as [_ Ht].
  split.
  - intros Hp. rewrite Hp in *. fd_steps. unfold fd_finish_close. fd_steps.
    rewrite F4, Hcd. fd_steps.
    match goal with
    | |- ∃ _ _ _ _, trace (snd ?R) = _ ∧ _ =>
        assert (Hn : no_close_done
                       (EvUp (UpCloseDone fn (cb_data (ll w2)) (close_data (ll w2)))
                          false (refcount (ll w2)) :: EvUnlock :: EvLock :: trace w2)
                       (snd R))
    end.
    { close_done_tail. }
    apply no_close_done_post in Hn as (post & Hpost & Hncd).
    exists post, mid, (cb_data (ll w2)), (refcount (ll w2)).
    rewrite Hpost, Hmid, F5. repeat split; try assumption. lia.
  - intros Hp. rewrite Hp in *. fd_steps.
    unfold fd_deref_and_unlock. fd_steps.
    replace (0 <? refcount (ll w2)) with true by (symmetry; apply Z.ltb_lt; lia).
    rewrite (wrap32_small (refcount (ll w2) - 1)) by lia.
    fd_steps. unlock_step.
    replace (refcount (ll w2) - 1 =? 0) with false by (symmetry; apply Z.eqb_neq; lia).
    cbn [fst snd skip ret]. proj.
    split; [reflexivity|]. split; [reflexivity|].
    exists mid, (cb_data (ll w2)), (refcount (ll w2) - 1).
    rewrite Hmid. split; [reflexivity|]. split; [exact Hq|]. split; [lia|].
    rewrite <- Hmid, <- F5.
    apply no_close_done_post.
    unfold fd_deferred_op.
    rewrite bind_fd_lock by (proj; first [assumption | reflexivity]).
    fd_steps. unfold fd_finish_close. fd_steps. rewrite F4, Hcd. fd_steps.
    close_done_tail.
Qed.



Lemma fd_close_accepts (w : world) (done : option Z) (data : Z) :
  freed w = false → held w = false →
  state (ll w) = FD_OPEN ∨ state (ll w) = FD_IN_OPEN →
  fd_close done data w = (Done GE_NOERR, close_accepted done data w).
Proof.
  intros Hf Hh Hst.
  unfold fd_close. rewrite bind_fd_lock by assumption. fd_steps.
  replace (bool_decide (state (ll w) = FD_OPEN) || bool_decide (state (ll w) = FD_IN_OPEN))
    with true
    by (destruct Hst as [-> | ->]; reflexivity).
  unfold fd_start_close, o_clear_fd_handlers. fd_steps.
  unfold close_accepted.
  destruct (has_check_close (ops (ll w))); fd_steps; unlock_step;
    destruct w; simpl in *; subst; reflexivity.
Qed.

Lemma polled_fields n (w : world) :
  ll (polled n w) = ll w ∧ held (polled n w) = held w ∧
  freed (polled n w) = freed w ∧ tick (polled n w) = (n + tick w)%nat.
Proof.
  induction n as [|n (H1 & H2 & H3 & H4)]; [repeat split|].
  cbn [polled]. unfold poll. proj. rewrite H4. repeat split; assumption.
Qed.

Lemma cleared_world_fields n (w : world) (done : option Z) (data : Z) :
  let wc := cleared_world n (close_accepted done data w) in
  held wc = false ∧ freed wc = freed w ∧
  refcount (ll wc) = refcount (ll w) ∧
  close_done (ll wc) = done ∧ close_data (ll wc) = data ∧
  open_done (ll wc) = open_done (ll w) ∧ open_data (ll wc) = open_data (ll w) ∧
  open_err (ll wc) = open_err (ll w) ∧ cb_data (ll wc) = cb_data (ll w) ∧
  fd (ll wc) = fd (ll w) ∧
  deferred_op_pending (ll wc) = deferred_op_pending (ll w).
Proof.
  cbv zeta. unfold cleared_world.
  destruct (polled_fields n (close_accepted done data w)) as (H1 & H2 & H3 & _).
  destruct (has_check_close (ops (ll (close_accepted done data w)))); proj;
    rewrite ?H1, ?H2, ?H3; unfold close_accepted; proj; repeat split.
Qed.

Lemma bind_skip_r (m : M unit) w : bind m (λ _, skip) w = m w.
Proof. unfold bind, skip, ret. destruct (m w) as [[[]| |] w']; reflexivity. Qed.

Lemma bind_os_timer {B} fuel (K : unit → M B) (w : world) :
  timer_armed w = true →
  bind (os_deliver E fuel OsTimer) K w =
    bind (fd_close_timeout E) K (set_timer_armed false w).
Proof. intros H. unfold bind, os_deliver. rewrite H. reflexivity. Qed.

Lemma close_timeout_polls fuel (w : world) m : ∀ k,
  has_check_close (ops (ll w)) = true →
  (∀ i, (i < m)%nat → drv_check_close E (k + i + tick w) = GE_INPROGRESS) →
  drv_check_close E (k + m + tick w) ≠ GE_INPROGRESS →
  bind (fd_close_timeout E) (λ _, run E fuel (replicate m (Os OsTimer))) (polled k w) =
    fd_finish_cleared E (cleared_world (k + m) w).
Proof.
  induction m as [|m IH]; intros k Hc Hin Hdone.
  - cbn [replicate run]. rewrite bind_skip_r.
    destruct (polled_fields k w) as (H1 & _ & _ & H4).
    unfold fd_close_timeout. rewrite bind_get, H1, Hc. fd_steps. rewrite H4.
    replace (k + 0 + tick w)%nat with (k + tick w)%nat in Hdone by lia.
    rewrite (bool_decide_eq_false_2 _ Hdone).
    unfold cleared_world. rewrite Hc. replace (k + 0)%nat with k by lia.
    cbv zeta. rewrite H4. reflexivity.
  - destruct (polled_fields k w) as (H1 & _ & _ & H4).
    unfold fd_close_timeout at 1. rewrite !bind_bind, bind_get, H1, Hc. fd_steps.
    rewrite H4.
    assert (H0 : drv_check_close E (k + tick w) = GE_INPROGRESS).
    { specialize (Hin O). replace (k + 0 + tick w)%nat with (k + tick w)%nat in Hin by lia.
      apply Hin. lia. }
    rewrite H0. decide_eqs. unfold o_start_timer. fd_steps. unfold update. proj.
    cbn [replicate run step]. rewrite <- H4.
    rewrite bind_os_timer by reflexivity.
    match goal with
    | |- bind _ _ ?X = _ =>
        replace X with (polled (S k) w)
          by (cbn [polled]; unfold poll, set_timer_armed, set_trace, set_tick;
              cbn [ll held freed registered rd_armed wr_armed ex_armed
                   clear_pending runner_queued timer_armed trace tick];
              reflexivity)
    end.
    replace (k + S m)%nat with (S k + m)%nat by lia.
    apply IH.
    + exact Hc.
    + intros i Hi. replace (S k + i + tick w)%nat with (k + S i + tick w)%nat by lia.
      apply Hin. lia.
    + replace (S k + m + tick w)%nat with (k + S m + tick w)%nat by lia. exact Hdone.
Qed.

Lemma bind_os_cleared {B} fuel (K : unit → M B) (w : world) :
  clear_pending w = true →
  bind (os_deliver E fuel OsCleared) K w =
    bind (fd_cleared E) K (set_clear_pending false w).
Proof. intros H. unfold bind, os_deliver. rewrite H. reflexivity. Qed.

Lemma bind_fd_cleared {B} (K : unit → M B) (w : world) :
  bind (fd_cleared E) K w =
    if has_check_close (ops (ll w)) then bind (fd_close_timeout E) K w
    else bind (fd_finish_cleared E) K w.
Proof.
  unfold fd_cleared. rewrite bind_bind, bind_get.
  destruct (has_check_close (ops (ll w))); reflexivity.
Qed.

Lemma run_cleared_events fuel (w : world) (done : option Z) (data : Z) n :
  polls_done E w n →
  run E fuel (cleared_events n) (close_accepted done data w) =
    fd_finish_cleared E (cleared_world n (close_accepted done data w)).
Proof.
  intros Hp. unfold polls_done in Hp. unfold cleared_events. cbn [run step].
  rewrite bind_os_cleared by reflexivity. rewrite bind_fd_cleared.
  replace (has_check_close (ops (ll (set_clear_pending false (close_accepted done data w)))))
    with (has_check_close (ops (ll w))) by reflexivity.
  destruct (has_check_close (ops (ll w))) eqn:Hc.
  - destruct Hp as [Hin Hdone].
    assert (Hc' : has_check_close (ops (ll (close_accepted done data w))) = true)
      by exact Hc.
    pose proof (close_timeout_polls fuel (close_accepted done data w) n O Hc') as H.
    cbn [polled Nat.add] in H.
    replace (tick (close_accepted done data w)) with (tick w) in H by reflexivity.
    exact (H Hin Hdone).
  - subst n. cbn [replicate run]. rewrite bind_skip_r. unfold cleared_world.
    replace (has_check_close (ops (ll (close_accepted done data w))))
      with (has_check_close (ops (ll w))) by reflexivity.
    rewrite Hc. reflexivity.
Qed.


End CloseOnce.


(** ** The operations of the lower layer, one by one *)

Lemma bind_fd_lock_cases {B} (f : unit → M B) w :
  bind fd_lock f w =
    if freed w then (Abort UseAfterFree, w)
    else if held w then (Abort LockMisuse, w)
    else f () (set_held true (set_trace (EvLock :: trace w) w)).
Proof. unfold bind, fd_lock. destruct (freed w), (held w); reflexivity. Qed.

Section Operations.
Context (E : env).

(** [fd_open] on a lower layer without a [sub_open] answers [GE_NOTSUP] and
    touches nothing, not even the lock.  Otherwise it answers what the driver's
    [sub_open] answers, or [GE_NOMEM] when the handlers cannot be set, and it
    always gives the lock back: when the open completes at once the state is
    [FD_OPEN] and no handler is armed; when it is in progress the state is
    [FD_IN_OPEN], the done callback is recorded and the write and except
    handlers are armed; when it fails the state is left as it was. *)
Theorem fd_open_outcomes (done : option Z) (data : Z) (w : world) :
  held w = false → freed w = false →
  let r := fd_open E done data w in
  let a := drv_sub_open E (tick w) (fd (ll w)) in
  let w' := snd r in
  (has_sub_open (ops (ll w)) = false → r = (Done GE_NOTSUP, w)) ∧
  (has_sub_open (ops (ll w)) = true →
     held w' = false ∧
     (fst a ≠ GE_NOERR → fst a ≠ GE_INPROGRESS →
        fst r = Done (fst a) ∧ state (ll w') = state (ll w) ∧
        registered w' = registered w ∧ open_done (ll w') = open_done (ll w)) ∧
     (fst a = GE_NOERR ∨ fst a = GE_INPROGRESS →
      os_set_fd_handlers E (S (tick w)) = true →
        fst r = Done GE_NOMEM ∧ state (ll w') = state (ll w) ∧ fd (ll w') = -1 ∧
        trace w' = EvUnlock :: EvClose (snd a) :: EvSetFdHandlers (snd a)
                     :: EvOps OpSubOpen :: EvLock :: trace w) ∧
     (fst a = GE_NOERR → os_set_fd_handlers E (S (tick w)) = false →
        fst r = Done GE_NOERR ∧ state (ll w') = FD_OPEN ∧ fd (ll w') = snd a ∧
        registered w' = true ∧ rd_armed w' = false ∧ wr_armed w' = false ∧
        ex_armed w' = false ∧ open_done (ll w') = open_done (ll w)) ∧
     (fst a = GE_INPROGRESS → os_set_fd_handlers E (S (tick w)) = false →
        fst r = Done GE_INPROGRESS ∧ state (ll w') = FD_IN_OPEN ∧ fd (ll w') = snd a ∧
        registered w' = true ∧ rd_armed w' = false ∧ wr_armed w' = true ∧
        ex_armed w' = true ∧ open_done (ll w') = done ∧ open_data (ll w') = data)).
Proof.
  intros Hh Hf. cbv zeta. split.
  - intros Hs. unfold fd_open. rewrite bind_get, Hs. reflexivity.
  - intros Hs. unfold fd_open. rewrite bind_get, Hs. cbn [negb].
    rewrite bind_fd_lock by assumption. fd_steps.
    destruct (drv_sub_open E (tick w) (fd (ll w))) as [e h] eqn:Ha. cbn [fst snd].
    unfold fd_setup_handlers, o_set_fd_handlers, os_close, o_set_write_handler,
      o_set_except_handler.
    destruct e; decide_eqs; cbn [orb]; fd_steps;
      try (destruct (os_set_fd_handlers E (S (tick w))) eqn:Hos; fd_steps);
      decide_eqs; fd_steps; repeat unlock_step; fd_steps; unfold ret, update; proj;
      repeat split; intros; try congruence; try discriminate;
      try match goal with H : _ ∨ _ |- _ => destruct H; discriminate end.
Qed.

(** [fd_open] does not look at the state: its answer is the same whatever
    state the lower layer is in, so an open of an open lower layer is not
    refused. *)
Theorem fd_open_ignores_state (done : option Z) (data : Z) (st : fd_state) (w : world) :
  fst (fd_open E done data (set_ll (set_state st (ll w)) w)) = fst (fd_open E done data w).
Proof.
  unfold fd_open. rewrite !bind_get. proj.
  destruct (has_sub_open (ops (ll w))); cbn [negb]; [|reflexivity].
  rewrite !bind_fd_lock_cases. proj.
  destruct (freed w); [reflexivity|]. destruct (held w); [reflexivity|].
  fd_steps.
  destruct (drv_sub_open E (tick w) (fd (ll w))) as [e h] eqn:Ha. cbn [fst snd].
  unfold fd_setup_handlers, o_set_fd_handlers, os_close, o_set_write_handler,
    o_set_except_handler.
  destruct e; decide_eqs; cbn [orb]; fd_steps;
    try (destruct (os_set_fd_handlers E (S (tick w))) eqn:Hos; fd_steps);
    decide_eqs; fd_steps; repeat unlock_step; fd_steps; reflexivity.
Qed.

(** [fd_set_write_callback_enable] records the wish and arms or disarms the
    write handler only while the lower layer is open or opening; nothing else
    of the lower layer changes and the lock is given back. *)
Theorem fd_set_write_callback_enable_spec (enabled : bool) (w : world) :
  held w = false → freed w = false →
  let r := fd_set_write_callback_enable enabled w in
  let live := bool_decide (state (ll w) = FD_OPEN) ||
              bool_decide (state (ll w) = FD_IN_OPEN) in
  fst r = Done () ∧
  ll (snd r) = set_write_enabled enabled (ll w) ∧
  wr_armed (snd r) = (if live then enabled else wr_armed w) ∧
  rd_armed (snd r) = rd_armed w ∧ ex_armed (snd r) = ex_armed w ∧
  held (snd r) = false ∧
  trace (snd r) =
    EvUnlock :: (if live then [EvSetWriteHandler (fd (ll w)) enabled] else [])
      ++ EvLock :: trace w.
Proof.
  intros Hh Hf. cbv zeta. unfold fd_set_write_callback_enable.
  rewrite bind_fd_lock by assumption. fd_steps.
  destruct (bool_decide (state (ll w) = FD_OPEN) ||
            bool_decide (state (ll w) = FD_IN_OPEN));
    unfold o_set_write_handler; fd_steps; unlock_step; repeat split.
Qed.


(** [fd_free] gives up one reference under the lock; the structure is freed,
    after the unlock, exactly when that was the last one. *)
Theorem fd_free_drops_one_reference (w : world) :
  held w = false → freed w = false → 1 ≤ refcount (ll w) < 2 ^ 32 →
  let r := fd_free w in
  fst r = Done () ∧
  refcount (ll (snd r)) = refcount (ll w) - 1 ∧
  freed (snd r) = (refcount (ll w) =? 1) ∧
  held (snd r) = false ∧
  trace (snd r) =
    (if refcount (ll w) =? 1 then [EvFree false; EvOps OpFree] else [])
      ++ EvUnlock :: EvDeref true (refcount (ll w) - 1) :: EvLock :: trace w.
Proof.
  intros Hh Hf Hr. cbv zeta. unfold fd_free, fd_deref_and_unlock.
  rewrite bind_fd_lock by assumption. fd_steps.
  replace (0 <? refcount (ll w)) with true by (symmetry; apply Z.ltb_lt; lia).
  cbv zeta. fd_steps. unlock_step.
  rewrite (wrap32_small (refcount (ll w) - 1)) by lia.
  destruct (Z.eqb_spec (refcount (ll w)) 1) as [H1|H1].
  - rewrite H1. cbn [Z.sub Z.eqb Z.add Z.opp Z.pos_sub].
    unfold fd_finish_free. fd_steps. unfold update. proj. rewrite ?Hf. repeat split.
  - replace (refcount (ll w) - 1 =? 0) with false by (symmetry; apply Z.eqb_neq; lia).
    unfold skip, ret. proj. rewrite ?Hf. repeat split.
Qed.

(** A read-ready event that arrives while a read delivery is under way
    ([in_read] set) delivers nothing: it disarms the read and except handlers,
    gives its reference back and returns, without reading and without an
    up-call. *)
Theorem fd_handle_incoming_not_reentrant (fuel : nat)
    (doread : M (gensio_err * list byte)) (aux : option (list string)) (w : world) :
  held w = false → freed w = false → in_read (ll w) = true →
  1 ≤ refcount (ll w) < 2 ^ 32 - 1 →
  let r := fd_handle_incoming E fuel doread aux w in
  fst r = Done () ∧ ll (snd r) = ll w ∧
  rd_armed (snd r) = false ∧ ex_armed (snd r) = false ∧
  held (snd r) = false ∧ freed (snd r) = false ∧ tick (snd r) = tick w ∧
  trace (snd r) =
    [EvUnlock; EvDeref true (refcount (ll w));
     EvSetExceptHandler (fd (ll w)) false; EvSetReadHandler (fd (ll w)) false;
     EvRef true (refcount (ll w) + 1); EvLock] ++ trace w.
Proof.
  intros Hh Hf Hi Hr. cbv zeta.
  unfold fd_handle_incoming, fd_lock_and_ref, o_set_read_handler, o_set_except_handler,
    fd_deref_and_unlock.
  rewrite !bind_bind. rewrite bind_fd_lock by assumption. fd_steps.
  rewrite Hi.
  rewrite (wrap32_small (refcount (ll w) + 1)) by lia.
  replace (0 <? refcount (ll w) + 1) with true by (symmetry; apply Z.ltb_lt; lia).
  replace (refcount (ll w) + 1 - 1) with (refcount (ll w)) by lia.
  rewrite (wrap32_small (refcount (ll w))) by lia.
  unlock_step.
  replace (refcount (ll w) =? 0) with false by (symmetry; apply Z.eqb_neq; lia).
  unfold skip, ret. proj. rewrite Hf.
  repeat split. destruct w as [s]. destruct s. cbn in *. reflexivity.
Qed.

(** While the driver's [check_close] answers [GE_INPROGRESS], the close timer
    only starts itself again: the handle is not closed, no lock is taken and no
    callback is called. *)
Theorem fd_close_timeout_polls (w : world) :
  has_check_close (ops (ll w)) = true → drv_check_close E (tick w) = GE_INPROGRESS →
  fd_close_timeout E w =
    (Done (), set_timer_armed true
                (set_trace (EvStartTimer :: EvOps OpCheckCloseDone :: trace w)
                   (set_tick (S (tick w)) w))).
Proof.
  intros Hc Hd. unfold fd_close_timeout, o_start_timer. rewrite bind_get, Hc.
  fd_steps. rewrite Hd. decide_eqs. fd_steps. unfold update.
  destruct w; reflexivity.
Qed.

(** During an open, the except-ready handler does exactly what the
    write-ready handler does. *)
Theorem fd_except_ready_in_open (fuel : nat) (w : world) :
  held w = false → freed w = false → state (ll w) = FD_IN_OPEN →
  fd_except_ready E fuel w = fd_write_ready E fuel w.
Proof.
  intros Hh Hf Hs. unfold fd_except_ready, fd_write_ready, fd_lock_and_ref, fd_ref.
  rewrite !bind_bind. rewrite !bind_fd_lock by assumption. rewrite bind_get. proj.
  rewrite (is_state_true FD_IN_OPEN) by (proj; exact Hs).
  rewrite !bind_bind. reflexivity.
Qed.

(** When the consumer takes all it is offered, or reports more, the delivery
    is over after one up-call and the buffer is empty again. *)
Theorem fd_deliver_read_data_all_taken (n : nat) (w w1 : world) (c : Z) :
  read_data_len (ll w) ≠ 0 →
  up_read E GE_NOERR w = (Done c, w1) →
  read_data_len (ll w1) ≤ c →
  fd_deliver_read_data E (S n) GE_NOERR w = (Done (), set_ll (reset_read (ll w1)) w1) ∧
  ∃ evs, trace w1 = evs ++ EvUp (up_read_call GE_NOERR (ll w)) (held w) (refcount (ll w))
                            :: trace w ∧
         Forall (λ e, is_up e = false) evs.
Proof.
  intros Hl Hup Hc. split.
  - unfold fd_deliver_read_data. rewrite bind_get. cbn [is_err orb].
    replace (read_data_len (ll w) =? 0) with false by (symmetry; apply Z.eqb_neq; exact Hl).
    cbn [negb fd_deliver_retry].
    rewrite (bind_done _ _ _ _ _ Hup). fd_steps.
    replace (read_data_len (ll w1) <=? c) with true by (symmetry; apply Z.leb_le; exact Hc).
    fd_steps. reflexivity.
  - apply up_read_inv in Hup as (r & Hup & _). eapply up_trace. exact Hup.
Qed.

(** An open that fails while the handle is still there is not reported at
    once: [fd_finish_open] records the error, starts the close (the state
    becomes [FD_IN_CLOSE] and the handlers are cleared, with a cleared report
    owed) and keeps the done callback for later; no up-call is made and the
    lock stays held. *)
Theorem fd_finish_open_failure_starts_close (err : gensio_err) (w : world) :
  is_err err = true → fd (ll w) ≠ -1 →
  let r := fd_finish_open E err w in
  fst r = Done () ∧
  state (ll (snd r)) = FD_IN_CLOSE ∧ open_err (ll (snd r)) = err ∧
  open_done (ll (snd r)) = open_done (ll w) ∧
  registered (snd r) = false ∧ clear_pending (snd r) = true ∧
  held (snd r) = held w ∧ tick (snd r) = tick w ∧
  trace (snd r) =
    EvClearFdHandlers (fd (ll w))
      :: (if has_check_close (ops (ll w)) then [EvOps OpCheckCloseStart] else [])
      ++ EvSetExceptHandler (fd (ll w)) false :: trace w.
Proof.
  intros Herr Hfd. cbv zeta. unfold fd_finish_open. rewrite bind_get.
  replace (fd (ll w) =? -1) with false by (symmetry; apply Z.eqb_neq; exact Hfd).
  cbn [negb]. unfold o_set_except_handler, fd_start_close, o_clear_fd_handlers.
  fd_steps. rewrite Herr. fd_steps.
  destruct (has_check_close (ops (ll w))); fd_steps; unfold update; proj; repeat split.
Qed.

End Operations.

(** What [fd_gensio_ll_alloc] returns: a lower layer with one reference, the
    lock free, both callbacks off and an empty buffer, closed when it is given
    no handle and otherwise open and registered with every handler disarmed.
    It returns [NULL] exactly when an allocation fails or the handlers cannot
    be set. *)
Theorem fd_gensio_ll_alloc_result (E : env) (ok : bool) (h : Z)
    (driver : gensio_fd_ll_ops) (hdata size : Z) (wronly : bool) :
  let r := fd_gensio_ll_alloc E ok h driver hdata size wronly in
  (r = None ↔ ok = false ∨ (h ≠ -1 ∧ os_set_fd_handlers E 0 = true)) ∧
  ∀ w, r = Some w →
    refcount (ll w) = 1 ∧ held w = false ∧ freed w = false ∧
    state (ll w) = (if h =? -1 then FD_CLOSED else FD_OPEN) ∧
    fd (ll w) = h ∧ write_only (ll w) = wronly ∧ ops (ll w) = driver ∧
    read_enabled (ll w) = false ∧ write_enabled (ll w) = false ∧
    read_data_len (ll w) = 0 ∧ read_data_pos (ll w) = 0 ∧
    read_data_size (ll w) = size ∧
    length (read_data (ll w)) = Z.to_nat size ∧
    registered w = negb (h =? -1) ∧
    rd_armed w = false ∧ wr_armed w = false ∧ ex_armed w = false ∧
    deferred_op_pending (ll w) = false ∧ in_read (ll w) = false.
Proof.
  cbv zeta. unfold fd_gensio_ll_alloc. destruct ok; cbn [negb].
  2:{ split; [split; auto|]. discriminate. }
  assert (Hlen : length (if 0 <? size then replicate (Z.to_nat size) x00 else [])
                 = Z.to_nat size).
  { destruct (Z.ltb_spec 0 size); [apply length_replicate | cbn; lia]. }
  destruct (Z.eqb_spec h (-1)) as [Hh|Hh].
  - split.
    + split; [discriminate|]. intros [H|[H _]]; [discriminate | contradiction].
    + intros w [= <-]. cbn. repeat split; try assumption.
  - unfold fd_setup_handlers, o_set_fd_handlers. fd_steps.
    destruct (os_set_fd_handlers E 0) eqn:Hos; fd_steps; cbn [ret fst snd update].
    + split; [split; auto|]. discriminate.
    + split.
      * split; [discriminate|]. intros [H|[_ H]]; discriminate.
      * intros w [= <-]. cbn. repeat split; try assumption.
Qed.

Lemma fd_open_outcomes_witness :
  fst (fd_open env_opening (Some 3) 0 world_closed) = Done GE_INPROGRESS ∧
  state (ll (snd (fd_open env_opening (Some 3) 0 world_closed))) = FD_IN_OPEN ∧
  wr_armed (snd (fd_open env_opening (Some 3) 0 world_closed)) = true.
Proof.
  pose proof (fd_open_outcomes env_opening (Some 3) 0 world_closed eq_refl eq_refl) as H.
  cbv zeta in H. destruct H as [_ H].
  destruct (H eq_refl) as (_ & _ & _ & _ & H4).
  destruct (H4 eq_refl eq_refl) as (H5 & H6 & _ & _ & _ & H7 & _).
  split; [exact H5|]. split; [exact H6 | exact H7].
Defined.

Lemma fd_set_write_callback_enable_spec_witness :
  wr_armed (snd (fd_set_write_callback_enable true world_open)) = true ∧
  wr_armed (snd (fd_set_write_callback_enable true world_closed)) = false.
Proof.
  pose proof (fd_set_write_callback_enable_spec true world_open eq_refl eq_refl) as H1.
  pose proof (fd_set_write_callback_enable_spec true world_closed eq_refl eq_refl) as H2.
  cbv zeta in H1, H2.
  destruct H1 as (_ & _ & H1 & _). destruct H2 as (_ & _ & H2 & _).
  split; [exact H1 | exact H2].
Defined.

Lemma fd_free_drops_one_reference_witness :
  freed (snd (fd_free world_open)) = true ∧
  freed (snd (fd_free world_pending)) = false.
Proof.
  assert (R1 : 1 ≤ refcount (ll world_open) < 2 ^ 32) by (cbn; lia).
  assert (R2 : 1 ≤ refcount (ll world_pending) < 2 ^ 32) by (cbn; lia).
  pose proof (fd_free_drops_one_reference world_open eq_refl eq_refl R1) as H1.
  pose proof (fd_free_drops_one_reference world_pending eq_refl eq_refl R2) as H2.
  cbv zeta in H1, H2.
  destruct H1 as (_ & _ & H1 & _). destruct H2 as (_ & _ & H2 & _).
  split; [exact H1 | exact H2].
Defined.

Lemma fd_handle_incoming_not_reentrant_witness :
  fst (fd_handle_incoming env_quiet 1 (gensio_ll_fd_read env_quiet) None world_in_read)
    = Done () ∧
  ll (snd (fd_handle_incoming env_quiet 1 (gensio_ll_fd_read env_quiet) None
             world_in_read)) = ll world_in_read.
Proof.
  assert (R : 1 ≤ refcount (ll world_in_read) < 2 ^ 32 - 1) by (cbn; lia).
  pose proof (fd_handle_incoming_not_reentrant env_quiet 1 (gensio_ll_fd_read env_quiet)
                None world_in_read eq_refl eq_refl eq_refl R) as H.
  cbv zeta in H. destruct H as (H1 & H2 & _). split; [exact H1 | exact H2].
Defined.

Lemma fd_close_timeout_polls_witness :
  timer_armed (snd (fd_close_timeout env_close_pending world_check_close)) = true ∧
  fd (ll (snd (fd_close_timeout env_close_pending world_check_close))) = 5.
Proof.
  rewrite (fd_close_timeout_polls env_close_pending world_check_close eq_refl eq_refl).
  split; reflexivity.
Defined.

Lemma fd_except_ready_in_open_witness :
  fd_except_ready env_opening 1 world_opening = fd_write_ready env_opening 1 world_opening.
Proof. apply fd_except_ready_in_open; reflexivity. Defined.

Lemma fd_deliver_read_data_all_taken_witness :
  let w1 := snd (up_read env_quiet GE_NOERR world_buffered) in
  fd_deliver_read_data env_quiet 1 GE_NOERR world_buffered =
    (Done (), set_ll (reset_read (ll w1)) w1).
Proof.
  apply (fd_deliver_read_data_all_taken env_quiet 0 world_buffered
           (snd (up_read env_quiet GE_NOERR world_buffered)) 2).
  - vm_compute. discriminate.
  - vm_compute. reflexivity.
  - vm_compute. discriminate.
Defined.

Lemma fd_finish_open_failure_starts_close_witness :
  state (ll (snd (fd_finish_open env_short_read GE_IOERR world_opening))) = FD_IN_CLOSE ∧
  open_done (ll (snd (fd_finish_open env_short_read GE_IOERR world_opening))) = Some 3.
Proof.
  assert (Hfd : fd (ll world_opening) ≠ -1) by (vm_compute; discriminate).
  pose proof (fd_finish_open_failure_starts_close env_short_read GE_IOERR world_opening
                eq_refl Hfd) as H.
  cbv zeta in H. destruct H as (_ & H1 & _ & H2 & _). split; [exact H1 | exact H2].
Defined.

End FdLLFacts.

(** * Properties of the out-of-band send queue *)

Module IoinfoFacts.
Import Ioinfo.



(** ** The queue, errors and the read path *)

Lemma linked_insert_other h p q a o :
  a ∉ q → linked (<[a := o]> h) p q = linked h p q.
Proof.
  revert p. induction q as [|b q IH]; intros p Ha; destruct p as [c|]; cbn; try reflexivity.
  apply not_elem_of_cons in Ha as [Hab Ha].
  rewrite lookup_insert_ne by congruence.
  destruct (h !! b) as [ob|]; [|reflexivity]. rewrite IH by exact Ha. reflexivity.
Qed.

Lemma linked_snoc h q : ∀ p t ot a oa,
  linked h p q = true → NoDup q → a ∉ q → last q = Some t → h !! t = Some ot →
  next oa = None →
  linked (<[t := {| buf := buf ot; len := len ot; send_done := send_done ot;
                    cb_data := cb_data ot; next := Some a |}]> (<[a := oa]> h))
    p (q ++ [a]) = true.
Proof.
  induction q as [|b q IH]; intros p t ot a oa Hl Hnd Ha Ht Hot Hoa; [discriminate|].
  destruct p as [c|]; [|discriminate]. cbn in Hl.
  apply andb_true_iff in Hl as [Hbc Hl]. apply bool_decide_eq_true_1 in Hbc. subst c.
  destruct (h !! b) as [ob|] eqn:Hb; [|discriminate].
  apply not_elem_of_cons in Ha as [Hab Ha].
  apply NoDup_cons in Hnd as [Hbq Hnd].
  cbn [app linked]. rewrite bool_decide_eq_true_2 by reflexivity. cbn [andb].
  destruct q as [|b' q'].
  - assert (t = b) as -> by (cbn in Ht; congruence).
    rewrite lookup_insert_eq. cbn [next app linked].
    rewrite bool_decide_eq_true_2 by reflexivity. cbn [andb].
    rewrite lookup_insert_ne by congruence. rewrite lookup_insert_eq. rewrite Hoa.
    reflexivity.
  - assert (Ht' : last (b' :: q') = Some t).
    { rewrite last_cons in Ht. destruct (last (b' :: q')) as [y|] eqn:Hy; [exact Ht|].
      rewrite last_cons in Hy. destruct (last q'); discriminate. }
    assert (Hbt : b ≠ t).
    { intros ->. apply Hbq. apply last_Some_elem_of, Ht'. }
    rewrite lookup_insert_ne by congruence. rewrite lookup_insert_ne by congruence.
    rewrite Hb. apply IH; assumption.
Qed.

(** [ioinfo_sendoob] appends at the tail: on a well-formed queue [q], a record
    that is not queued yet becomes its last element, the records ahead of it
    keep their place and their contents, and the write callback is turned
    on. *)
Theorem ioinfo_sendoob_appends (s : st) (q : list Z) (a : Z) (oa : ioinfo_oob) :
  queue_is s q → a ∉ q → heap s !! a = Some oa →
  ∃ s', ioinfo_sendoob a s = Some s' ∧
        queue_is s' (q ++ [a]) ∧
        log s' = log s ++ [EvSetWriteCallbackEnable (io (info s)) true] ∧
        io (info s') = io (info s) ∧
        ∀ b o, heap s !! b = Some o →
          ∃ o', heap s' !! b = Some o' ∧ buf o' = buf o ∧ len o' = len o ∧
                send_done o' = send_done o ∧ cb_data o' = cb_data o.
Proof.
  intros (Hl & Hnd & Ht) Ha Hoa. unfold ioinfo_sendoob. rewrite Hoa. cbn [mbind option_bind].
  destruct q as [|b0 q0] using rev_ind.
  - cbn in Ht. rewrite Ht. cbn [mbind option_bind].
    eexists. split; [reflexivity|]. cbn.
    destruct (oob_head (info s)); [discriminate|].
    split; [|split; [reflexivity|split; [reflexivity|]]].
    + unfold queue_is. cbn. rewrite bool_decide_eq_true_2 by reflexivity.
      rewrite lookup_insert_eq. cbn. repeat split. apply NoDup_singleton.
    + intros b o Hb. destruct (decide (b = a)) as [->|Hne].
      * rewrite lookup_insert_eq. rewrite Hoa in Hb. injection Hb as <-.
        eexists. split; [reflexivity|]. cbn. auto.
      * rewrite lookup_insert_ne by congruence. eauto 10.
  - clear IHq0. rewrite last_snoc in Ht. rewrite Ht. cbn [mbind option_bind].
    assert (Hb0a : b0 ≠ a).
    { intros ->. apply Ha. apply elem_of_app. right. left. }
    assert (Hb0 : ∃ ob, heap s !! b0 = Some ob).
    { clear -Hl. revert Hl. generalize (oob_head (info s)).
      induction q0 as [|c q0 IH]; intros p; destruct p as [d|]; cbn; try discriminate.
      - destruct (heap s !! b0); [eauto | rewrite andb_false_r; discriminate].
      - destruct (heap s !! c); [|rewrite andb_false_r; discriminate].
        intros H. apply andb_true_iff in H as [_ H]. eapply IH, H. }
    destruct Hb0 as [ob Hob].
    rewrite lookup_insert_ne by congruence. rewrite Hob. cbn [mbind option_bind].
    eexists. split; [reflexivity|]. cbn.
    split; [|split; [reflexivity|split; [reflexivity|]]].
    + unfold queue_is. cbn. split; [|split].
      * apply linked_snoc; try assumption; [apply last_snoc | reflexivity].
      * apply NoDup_app. split; [exact Hnd|]. split; [|apply NoDup_singleton].
        intros x Hx Hx'. apply elem_of_cons in Hx' as [->|Hx']; [contradiction|].
        inversion Hx'.
      * rewrite last_snoc. reflexivity.
    + intros b o Hb. destruct (decide (b = b0)) as [->|Hne].
      * rewrite lookup_insert_eq. rewrite Hob in Hb. injection Hb as <-.
        eexists. split; [reflexivity|]. cbn. auto.
      * rewrite lookup_insert_ne by congruence.
        destruct (decide (b = a)) as [->|Hne2].
        -- rewrite lookup_insert_eq. rewrite Hoa in Hb. injection Hb as <-.
        eexists. split; [reflexivity|]. cbn. auto.
        -- rewrite lookup_insert_ne by congruence. eauto 10.
Qed.

Lemma ioinfo_sendoob_appends_witness :
  ∃ s', ioinfo_sendoob 48 two_records = Some s' ∧ queue_is s' [16; 32; 48].
Proof.
  destruct (ioinfo_sendoob_appends two_records [16; 32] 48
              {| buf := 3000; len := 5; send_done := None; cb_data := 0;
                 next := Some 16 |}) as (s' & H1 & H2 & _).
  - split; [vm_compute; reflexivity|]. split; [|reflexivity].
    apply NoDup_cons. split; [|apply NoDup_singleton].
    intros H. apply elem_of_cons in H as [H|H]; [discriminate | inversion H].
  - intros H. apply elem_of_cons in H as [H|H]; [discriminate|].
    apply elem_of_cons in H as [H|H]; [discriminate | inversion H].
  - vm_compute. reflexivity.
  - exists s'. split; [exact H1 | exact H2].
Defined.

(** What one record contributes to the log when it is written in full. *)
Lemma write_ready_pops s a q o :
  queue_is s (a :: q) → heap s !! a = Some o → 0 ≤ len o < 2 ^ 64 →
  ∃ s', io_event_write_ready GE_NOERR (GE_NOERR, 2 ^ 64 - 1) s = Some s' ∧
        queue_is s' q ∧ heap s' = heap s ∧ io (info s') = io (info s) ∧
        otherio_io (info s') = otherio_io (info s) ∧
        log s' = log s ++ EvGensioWrite (io (info s)) (buf o) (len o) oobaux
                            :: done_calls o.
Proof.
  intros (Hl & Hnd & Ht) Ho Hlen. unfold io_event_write_ready. cbn [is_err].
  destruct (oob_head (info s)) as [b|] eqn:Hh; [|discriminate]. cbn in Hl.
  apply andb_true_iff in Hl as [Hab Hl]. apply bool_decide_eq_true_1 in Hab. subst b.
  rewrite Ho in Hl |- *. cbn [mbind option_bind fst snd is_err].
  replace (len o <=? 2 ^ 64 - 1) with true by (symmetry; apply Z.leb_le; lia).
  apply NoDup_cons in Hnd as [Haq Hnd].
  eexists. split; [reflexivity|].
  unfold queue_is, done_calls.
  destruct (send_done o) as [fn|]; cbn;
    (split; [|split; [reflexivity|split; [reflexivity|split; [reflexivity|]]]]);
    try (rewrite <- ?app_assoc; reflexivity);
    (split; [exact Hl|]; split; [exact Hnd|]);
    (destruct q as [|b q]; [destruct (next o); [discriminate|reflexivity]|]);
    (destruct (next o); [|discriminate]);
    rewrite Ht; rewrite last_cons; destruct (last (b :: q)) eqn:Hlast; try reflexivity;
    rewrite last_cons in Hlast; destruct (last q); discriminate.
Qed.

(** The queue is first in, first out: write-ready events whose writes take
    all they are offered write the records in the order they were queued, each
    with the [oob] tag and followed by its [send_done], and leave the queue
    empty; the next write-ready event then turns the write callback off and the
    read callback of the other side on. *)
Theorem oob_queue_fifo (q : list Z) (s : st) :
  queue_is s q →
  (∀ a, a ∈ q → ∃ o, heap s !! a = Some o ∧ 0 ≤ len o < 2 ^ 64) →
  ∃ s', drain (length q) s = Some s' ∧
        queue_is s' [] ∧ heap s' = heap s ∧
        log s' = log s ++
                 flat_map (λ a, match heap s !! a with
                                | Some o => EvGensioWrite (io (info s)) (buf o) (len o)
                                              oobaux :: done_calls o
                                | None => []
                                end) q ∧
        ∃ s'', io_event_write_ready GE_NOERR (GE_NOERR, 2 ^ 64 - 1) s' = Some s'' ∧
               log s'' = log s' ++ [EvSetReadCallbackEnable (otherio_io (info s)) true;
                                    EvSetWriteCallbackEnable (io (info s)) false].
Proof.
  revert s. induction q as [|a q IH]; intros s Hq Hlen.
  - exists s. split; [reflexivity|]. split; [exact Hq|]. split; [reflexivity|].
    split; [cbn; rewrite app_nil_r; reflexivity|].
    destruct Hq as (Hl & _ & _). destruct (oob_head (info s)) eqn:Hh; [discriminate|].
    unfold io_event_write_ready. cbn [is_err]. rewrite Hh.
    eexists. split; [reflexivity|]. cbn. rewrite <- app_assoc. reflexivity.
  - destruct (Hlen a) as (o & Ho & Hr); [left|].
    destruct (write_ready_pops s a q o Hq Ho Hr) as (s1 & W1 & W2 & W3 & W4 & W5 & W6).
    destruct (IH s1 W2) as (s' & D1 & D2 & D3 & D4 & s'' & D5 & D6).
    { intros b Hb. rewrite W3. apply Hlen. right. exact Hb. }
    exists s'. cbn [length drain]. rewrite W1. cbn [mbind option_bind].
    split; [exact D1|]. split; [exact D2|]. split; [congruence|].
    split.
    + rewrite D4, W6, W3, W4. cbn [flat_map]. rewrite Ho. rewrite <- app_assoc.
      reflexivity.
    + exists s''. split; [exact D5|]. rewrite D6, W4, W5. reflexivity.
Qed.

Lemma oob_queue_fifo_witness :
  ∃ s', drain 2 two_records = Some s' ∧
        log s' = [EvGensioWrite 1 1000 100 oobaux; EvSendDone 9 0;
                  EvGensioWrite 1 2000 10 oobaux].
Proof.
  destruct (oob_queue_fifo [16; 32] two_records) as (s' & H1 & _ & _ & H2 & _).
  - split; [vm_compute; reflexivity|]. split; [|reflexivity].
    apply NoDup_cons. split; [|apply NoDup_singleton].
    intros H. apply elem_of_cons in H as [H|H]; [discriminate | inversion H].
  - intros a Ha. apply elem_of_cons in Ha as [->|Ha].
    + eexists. split; [vm_compute; reflexivity|]. cbn. lia.
    + apply elem_of_cons in Ha as [->|Ha]; [|inversion Ha].
      eexists. split; [vm_compute; reflexivity|]. cbn. lia.
  - exists s'. split; [exact H1|]. rewrite H2. vm_compute. reflexivity.
Defined.

(** An event that carries an error writes nothing and leaves the queue as it
    is: the error is reported, unless it is [GE_REMCLOSE], and the user's
    shutdown handler is called. *)
Theorem io_event_error_shuts_down (err : gensio_err) (wr : gensio_err * Z) (s : st) :
  err ≠ GE_NOERR →
  ∃ s', io_event_write_ready err wr s = Some s' ∧
        info s' = info s ∧ heap s' = heap s ∧
        log s' = log s ++ (if bool_decide (err = GE_REMCLOSE) then [] else [EvErr])
                       ++ [EvShutdown].
Proof.
  intros He. unfold io_event_write_ready.
  replace (is_err err) with true by (destruct err; try reflexivity; contradiction).
  eexists. split; [reflexivity|].
  destruct (bool_decide (err = GE_REMCLOSE)); cbn; rewrite <- ?app_assoc; auto.
Qed.

Lemma io_event_error_shuts_down_witness :
  ∃ s', io_event_write_ready GE_REMCLOSE (GE_NOERR, 0) one_record = Some s' ∧
        heap s' = heap one_record ∧ log s' = [EvShutdown].
Proof.
  destruct (io_event_error_shuts_down GE_REMCLOSE (GE_NOERR, 0) one_record)
    as (s' & H1 & _ & H2 & H3); [discriminate|].
  exists s'. split; [exact H1|]. split; [exact H2 | exact H3].
Defined.

(** A write error on an out-of-band record is reported and shuts down; the
    record stays at the head of the queue, not advanced, and its [send_done]
    is not called. *)
Theorem oob_write_error_keeps_record (s : st) (a : Z) (oob : ioinfo_oob)
    (rv : gensio_err) (count : Z) :
  oob_head (info s) = Some a → heap s !! a = Some oob → rv ≠ GE_NOERR →
  ∃ s', io_event_write_ready GE_NOERR (rv, count) s = Some s' ∧
        info s' = info s ∧ heap s' = heap s ∧
        log s' = log s ++ [EvGensioWrite (io (info s)) (buf oob) (len oob) oobaux;
                           EvErr; EvShutdown].
Proof.
  intros Hh Ha Hrv. unfold io_event_write_ready. cbn [is_err]. rewrite Hh, Ha.
  cbn [mbind option_bind fst snd].
  replace (is_err rv) with true by (destruct rv; try reflexivity; contradiction).
  eexists. split; [reflexivity|]. cbn. rewrite <- !app_assoc. auto.
Qed.

Lemma oob_write_error_keeps_record_witness :
  ∃ s', io_event_write_ready GE_NOERR (GE_IOERR, 40) one_record = Some s' ∧
        heap s' = heap one_record ∧ oob_head (info s') = Some 16.
Proof.
  destruct (oob_write_error_keeps_record one_record 16
              {| buf := 1000; len := 100; send_done := Some 9; cb_data := 0;
                 next := None |} GE_IOERR 40 eq_refl eq_refl)
    as (s' & H1 & H2 & H3 & _); [discriminate|].
  exists s'. split; [exact H1|]. split; [exact H3|]. rewrite H2. reflexivity.
Defined.

Lemma find_escape_spec esc buf k :
  find_escape esc buf = Some k →
  (k < length buf)%nat ∧ buf !! k = Some esc ∧ Forall (λ b, b ≠ esc) (take k buf).
Proof.
  revert k. induction buf as [|b rest IH]; intros k; cbn; [discriminate|].
  destruct (Z.eqb_spec b esc) as [->|Hne].
  - intros [= <-]. cbn. repeat split; [lia | constructor].
  - destruct (find_escape esc rest) as [k'|]; [|discriminate]. cbn.
    intros [= <-]. destruct (IH k' eq_refl) as (H1 & H2 & H3).
    cbn. repeat split; [lia | exact H2 | constructor; assumption].
Qed.

Lemma find_escape_none esc buf :
  find_escape esc buf = None → Forall (λ b, b ≠ esc) buf.
Proof.
  induction buf as [|b rest IH]; cbn; [constructor|].
  destruct (Z.eqb_spec b esc) as [->|Hne]; [discriminate|].
  destruct (find_escape esc rest); [discriminate|].
  intros _. constructor; [exact Hne | apply IH; reflexivity].
Qed.





(** After an escape character, a second one ends the escape and the whole
    buffer, the second escape character first, is forwarded as it is: the
    bytes that follow are not searched for a further escape character. *)
Theorem io_event_read_double_escape (i : rd_info) (buf : list Z) (sh_rv : bool)
    (count : Z) :
  0 ≤ escape_char i → in_escape i = true → escape_pos i = 0 →
  buf !! O = Some (escape_char i) → other_ready i = true →
  Z.of_nat (length buf) ≤ count →
  io_event_read i buf false 0 sh_rv (GE_NOERR, count) =
    Some (set_escape false 0 (escape_data i) i, [RdWrite (r_other_io i) buf],
          Z.of_nat (length buf)).
Proof.
  intros He Hie Hp Hb Hr Hc. unfold io_event_read.
  destruct buf as [|b buf]; [discriminate|]. cbn in Hb. injection Hb as ->.
  replace (Z.of_nat (length (escape_char i :: buf)) =? 0) with false
    by (symmetry; apply Z.eqb_neq; cbn; lia).
  replace (0 <=? escape_char i) with true by (symmetry; apply Z.leb_le; lia).
  rewrite Hie, Hp. cbn [lookup list_lookup default id].
  rewrite !Z.eqb_refl. cbn [andb].
  unfold io_event_forward. cbn [other_ready set_escape]. rewrite Hr. cbn [andb is_err fst snd].
  replace (count <? Z.of_nat (length (escape_char i :: buf))) with false
    by (symmetry; apply Z.ltb_ge; lia).
  rewrite Nat2Z.id, firstn_all. reflexivity.
Qed.

Lemma io_event_read_double_escape_witness :
  io_event_read (set_escape true 0 (replicate 11 0) rd_sample) [28; 28; 113] false 0
    false (GE_NOERR, 3) =
  Some (rd_sample, [RdWrite 2 [28; 28; 113]], 3).
Proof.
  apply (io_event_read_double_escape (set_escape true 0 (replicate 11 0) rd_sample)
           [28; 28; 113] false 3); try reflexivity; cbn; lia.
Defined.



(** [handle_escapechar] stays inside [escape_data]: with eleven bytes of
    escape data and a position of at most ten, no write falls outside the
    array, the array keeps its size and the position stays at most ten. *)
Theorem handle_escapechar_in_bounds (i : rd_info) (c : Z) (sh_rv : bool) :
  length (escape_data i) = 11%nat → 0 ≤ escape_pos i ≤ 10 →
  ∃ i' evs rv, handle_escapechar i c sh_rv = Some (i', evs, rv) ∧
               length (escape_data i') = 11%nat ∧ 0 ≤ escape_pos i' ≤ 10 ∧
               (rv = true → escape_pos i = 0 → escape_pos i' = 1) ∧
               (rv = false → escape_pos i' = 0 ∨ escape_pos i = 0).
Proof.
  intros Hl Hp. unfold handle_escapechar, put. rewrite Hl.
  assert (Hw : ∀ z, 0 ≤ z ≤ 11 → wrap32 z = z).
  { intros z Hz. unfold wrap32. apply Z.mod_small. lia. }
  assert (Hin : (0 <=? escape_pos i) && (escape_pos i <? Z.of_nat 11) = true)
    by (apply andb_true_iff; split; [apply Z.leb_le | apply Z.ltb_lt]; lia).
  rewrite Hin. cbn [mbind option_bind Z.leb Z.compare andb Z.ltb Z.of_nat Pos.of_succ_nat
                      Pos.succ].
  repeat match goal with
         | |- context [if ?b then _ else _] =>
             lazymatch b with
             | context [if _ then _ else _] => fail
             | ?x <? ?y => destruct (Z.ltb_spec x y)
             | _ => destruct b
             end
         end;
    first [ exfalso; cbn in *; lia
          | (eexists _, _, _; split; [reflexivity|]);
            cbn [escape_data escape_pos set_escape]; rewrite ?length_insert, ?Hw by lia;
            repeat split; intros; try lia; try discriminate; auto;
            try (left; lia); try (right; lia) ].
Qed.

Lemma handle_escapechar_in_bounds_witness :
  ∃ i' evs rv,
    handle_escapechar (set_escape true 10 (replicate 11 65) rd_sample) 66 false =
      Some (i', evs, rv) ∧ escape_pos i' = 10 ∧ escape_data i' = replicate 11 65.
Proof.
  destruct (handle_escapechar_in_bounds (set_escape true 10 (replicate 11 65) rd_sample)
              66 false) as (i' & evs & rv & H1 & _).
  - reflexivity.
  - cbn. lia.
  - exists i', evs, rv. split; [exact H1|].
    vm_compute in H1. injection H1 as <- _ _. split; reflexivity.
Defined.

(** Outside a multi-character escape, [q] in either case asks the user's
    shutdown handler to shut down, whether the other side is ready or not, and
    ends the escape; no other character does before the other side is
    ready. *)
Theorem handle_escapechar_quit (i : rd_info) (c : Z) (sh_rv : bool) :
  escape_pos i = 0 →
  (c = 113 ∨ c = 81 →
   handle_escapechar i c sh_rv = Some (i, [RdShutdown true], false)) ∧
  (c ≠ 113 → c ≠ 81 → other_ready i = false →
   handle_escapechar i c sh_rv = Some (i, [], false)).
Proof.
  intros Hp. unfold handle_escapechar. rewrite Hp. cbn [Z.ltb Z.compare]. split.
  - intros [-> | ->]; reflexivity.
  - intros H1 H2 Hr. rewrite Hr. cbn [negb].
    replace (tolower c =? 113) with false; [reflexivity|].
    symmetry. apply Z.eqb_neq. unfold tolower.
    destruct (Z.leb_spec 65 c), (Z.leb_spec c 90); cbn [andb]; lia.
Qed.

Lemma handle_escapechar_quit_witness :
  handle_escapechar rd_sample 81 true = Some (rd_sample, [RdShutdown true], false).
Proof.
  destruct (handle_escapechar_quit rd_sample 81 true eq_refl) as [H _].
  apply H. right. reflexivity.
Defined.

End IoinfoFacts.

(** * Properties of the Avahi timer bridge *)

Module AvahiFacts.
Import Avahi.

Lemma starts_do_timer_start at' now : starts (do_timer_start at' now) = 1%nat.
Proof. unfold do_timer_start, starts. reflexivity. Qed.

(** Claim C8.  A [timeout_update] with an expiry on a live timeout leaves the
    timeout armed for exactly one restart: when no update is pending, the
    timer is stopped with a done callback, and restarted at once if the stop
    answers [GE_TIMEDOUT], or by the done callback if the stop is accepted; when
    an update is already pending the call only records the new expiry.  In
    every case the pending done callback restarts the timer once, with the
    latest expiry, and a further callback would restart nothing. *)
Theorem timeout_update_restarts_once (at' : AvahiTimeout) (t now now' : timeval)
    (rv : gensio_err) :
  freed at' = false →
  let r := gensio_avahi_timeout_update at' (Some t) rv now in
  let at1 := fst r in
  tv at1 = t ∧ stopped at1 = false ∧ freed at1 = false ∧
  (in_update at' = false → rv = GE_TIMEDOUT →
     snd r = EvStopTimerWithDone :: do_timer_start at1 now ∧
     starts (snd r) = 1%nat ∧ in_update at1 = false) ∧
  (in_update at' = false → rv = GE_NOERR →
     snd r = [EvStopTimerWithDone] ∧ in_update at1 = true) ∧
  (in_update at' = true → snd r = [] ∧ in_update at1 = true) ∧
  (in_update at1 = true →
     let r2 := gensio_avahi_timer_stopped at1 now' in
     snd r2 = do_timer_start at1 now' ∧
     starts (snd r ++ snd r2) = 1%nat ∧
     in_update (fst r2) = false ∧
     snd (gensio_avahi_timer_stopped (fst r2) now') = []).
Proof.
  intros Hf. destruct at' as [t0 sp iu fr]. simpl in Hf. subst fr.
  unfold gensio_avahi_timeout_update, gensio_avahi_timer_stopped,
    i_gensio_avahi_timer_stopped. simpl.
  destruct iu; simpl.
  - repeat split; try discriminate; intros; reflexivity.
  - destruct (bool_decide (rv = GE_TIMEDOUT)) eqn:Hrv; simpl.
    + apply bool_decide_eq_true_1 in Hrv. subst rv.
      repeat split; try discriminate; intros; try reflexivity.
    + apply bool_decide_eq_false_1 in Hrv.
      repeat split; try discriminate; try congruence; intros; try reflexivity.
Qed.

Lemma timeout_update_restarts_once_witness :
  let t := {| tv_sec := 10; tv_usec := 500 |} in
  let now := {| tv_sec := 9; tv_usec := 700 |} in
  snd (gensio_avahi_timeout_update idle_timeout (Some t) GE_TIMEDOUT now) =
    [EvStopTimerWithDone; EvStartTimer {| secs := 0; nsecs := 999800000 |}] ∧
  snd (gensio_avahi_timeout_update idle_timeout (Some t) GE_NOERR now) =
    [EvStopTimerWithDone].
Proof.
  intros t now.
  destruct (timeout_update_restarts_once idle_timeout t now now GE_TIMEDOUT eq_refl)
    as (_ & _ & _ & H1 & _).
  destruct (timeout_update_restarts_once idle_timeout t now now GE_NOERR eq_refl)
    as (_ & _ & _ & _ & H2 & _).
  split.
  - apply H1; reflexivity.
  - apply H2; reflexivity.
Defined.

(** ** More about the bridge *)


(** [tv_cmp] compares lexicographically, seconds first: it answers -1, 0 or 1,
    is antisymmetric, answers 0 exactly on equal times, and is transitive. *)
Theorem tv_cmp_is_an_order (a b c : timeval) :
  (tv_cmp a b = -1 ∨ tv_cmp a b = 0 ∨ tv_cmp a b = 1) ∧
  tv_cmp a b = - tv_cmp b a ∧
  (tv_cmp a b = 0 ↔ a = b) ∧
  (tv_cmp a b ≤ 0 → tv_cmp b c ≤ 0 → tv_cmp a c ≤ 0) ∧
  (tv_cmp a b = -1 ↔
     tv_sec a < tv_sec b ∨ (tv_sec a = tv_sec b ∧ tv_usec a < tv_usec b)).
Proof.
  destruct a as [sa ua], b as [sb ub], c as [sc uc]. unfold tv_cmp. cbn [tv_sec tv_usec].
  repeat match goal with
         | |- context [?x <? ?y] => destruct (Z.ltb_spec x y)
         end;
    repeat split; intros; try lia; try (left; lia); try (right; lia);
    try discriminate; try congruence;
    try (f_equal; lia);
    try match goal with H : _ = _ |- _ => injection H; intros; lia end.
Qed.

Lemma tv_cmp_is_an_order_witness :
  tv_cmp {| tv_sec := 1; tv_usec := 5 |} {| tv_sec := 2; tv_usec := 1 |} ≤ 0.
Proof.
  destruct (tv_cmp_is_an_order {| tv_sec := 1; tv_usec := 5 |}
              {| tv_sec := 1; tv_usec := 7 |} {| tv_sec := 2; tv_usec := 1 |})
    as (_ & _ & _ & H & _).
  apply H; vm_compute; discriminate.
Defined.

Lemma to_int32_small z : - 2 ^ 31 ≤ z < 2 ^ 31 → to_int32 z = z.
Proof. intros H. unfold to_int32. rewrite Z.mod_small; lia. Qed.

(** For times whose microseconds are in range, [do_timer_start] starts the
    timer with a normalised, non-negative interval: the time left until the
    expiry, or zero when the expiry is not in the future. *)
Theorem do_timer_start_interval (at' : AvahiTimeout) (now : timeval) :
  0 ≤ tv_usec (tv at') < 1000000 → 0 ≤ tv_usec now < 1000000 →
  ∃ gt, do_timer_start at' now = [EvStartTimer gt] ∧
        0 ≤ secs gt ∧ 0 ≤ nsecs gt < 1000000000 ∧
        secs gt * 1000000000 + nsecs gt =
          Z.max 0 ((tv_sec (tv at') - tv_sec now) * 1000000000 +
                   (tv_usec (tv at') - tv_usec now) * 1000).
Proof.
  intros Ht Hn. unfold do_timer_start.
  destruct at' as [[st ut] sp iu fr], now as [sn un]. cbn [tv tv_sec tv_usec] in *.
  unfold tv_cmp. cbn [tv_sec tv_usec].
  rewrite (to_int32_small ((ut - un) * 1000)) by lia.
  repeat match goal with
         | |- context [?x <? ?y] => destruct (Z.ltb_spec x y)
         end; cbn [Z.leb Z.compare Z.opp];
    try rewrite to_int32_small by lia;
    eexists; (split; [reflexivity|]); cbn [secs nsecs]; lia.
Qed.

Lemma do_timer_start_interval_witness :
  ∃ gt, do_timer_start
          {| tv := {| tv_sec := 10; tv_usec := 500 |}; stopped := false;
             in_update := false; freed := false |}
          {| tv_sec := 9; tv_usec := 700 |} = [EvStartTimer gt] ∧
        secs gt * 1000000000 + nsecs gt = 999800000.
Proof.
  destruct (do_timer_start_interval
              {| tv := {| tv_sec := 10; tv_usec := 500 |}; stopped := false;
                 in_update := false; freed := false |}
              {| tv_sec := 9; tv_usec := 700 |}) as (gt & H1 & _ & _ & H2).
  - cbn. lia.
  - cbn. lia.
  - exists gt. split; [exact H1|]. rewrite H2. reflexivity.
Defined.

(** A [timeout_update] with a [NULL] expiry never starts the timer: on a
    stopped timeout it does nothing at all; otherwise it marks the timeout
    stopped and stops the timer, and neither the call nor the done callback
    that follows it, nor the timer handler, starts or calls anything. *)
Theorem timeout_update_null_stops (at' : AvahiTimeout) (rv : gensio_err)
    (now now' : timeval) :
  freed at' = false →
  let r := gensio_avahi_timeout_update at' None rv now in
  (stopped at' = true → r = (at', [])) ∧
  stopped (fst r) = true ∧
  starts (snd r) = 0%nat ∧
  starts (snd (gensio_avahi_timer_stopped (fst r) now')) = 0%nat ∧
  gensio_avahi_timeout (fst r) = false ∧
  (stopped at' = false → in_update at' = false →
     ∃ evs, snd r = EvStopTimerWithDone :: evs).
Proof.
  intros Hf. destruct at' as [t0 sp iu fr]. cbn in Hf. subst fr.
  unfold gensio_avahi_timeout_update, gensio_avahi_timer_stopped,
    i_gensio_avahi_timer_stopped, gensio_avahi_timeout.
  destruct sp, iu; cbn; try destruct (bool_decide (rv = GE_TIMEDOUT)); cbn;
    repeat split; intros; try discriminate; try reflexivity; eauto.
Qed.

Lemma timeout_update_null_stops_witness :
  let at' := {| tv := {| tv_sec := 10; tv_usec := 500 |}; stopped := false;
                in_update := false; freed := false |} in
  starts (snd (gensio_avahi_timeout_update at' None GE_TIMEDOUT
                 {| tv_sec := 9; tv_usec := 700 |})) = 0%nat.
Proof.
  intros at'.
  pose proof (timeout_update_null_stops at' GE_TIMEDOUT {| tv_sec := 9; tv_usec := 700 |}
                {| tv_sec := 9; tv_usec := 700 |} eq_refl) as H.
  cbv zeta in H. destruct H as (_ & _ & H & _). exact H.
Defined.

(** [timeout_free] releases the poll reference of a live timeout exactly
    once: at once when the stop answers [GE_TIMEDOUT], where it frees the timer
    but not the timeout structure, and otherwise from the done callback, which
    frees the timer and the structure; a second [timeout_free] does nothing,
    and no path starts the timer. *)
Theorem timeout_free_releases_once (at' : AvahiTimeout) (rv rv' : gensio_err)
    (now : timeval) :
  freed at' = false →
  let r := gensio_avahi_timeout_free at' rv in
  let later := if bool_decide (rv = GE_TIMEDOUT) then []
               else snd (gensio_avahi_timer_stopped (fst r) now) in
  freed (fst r) = true ∧ stopped (fst r) = true ∧
  (rv = GE_TIMEDOUT → snd r = [EvStopTimerWithDone; EvFreeTimer; EvPollDeref]) ∧
  (rv ≠ GE_TIMEDOUT →
     snd r = [EvStopTimerWithDone] ∧ later = [EvFreeTimer; EvFreeTimeout; EvPollDeref]) ∧
  length (List.filter is_poll_deref (snd r ++ later)) = 1%nat ∧
  length (List.filter is_free_timeout (snd r ++ later)) =
    (if bool_decide (rv = GE_TIMEDOUT) then 0 else 1)%nat ∧
  starts (snd r ++ later) = 0%nat ∧
  gensio_avahi_timeout_free (fst r) rv' = (fst r, []).
Proof.
  intros Hf. destruct at' as [t0 sp iu fr]. cbn in Hf. subst fr.
  unfold gensio_avahi_timeout_free, gensio_avahi_timer_stopped,
    i_gensio_avahi_timer_stopped.
  cbn [freed]. destruct (bool_decide (rv = GE_TIMEDOUT)) eqn:Hrv; cbn.
  - apply bool_decide_eq_true_1 in Hrv.
    repeat split; intros; try reflexivity; congruence.
  - apply bool_decide_eq_false_1 in Hrv.
    repeat split; intros; try reflexivity; congruence.
Qed.

Lemma timeout_free_releases_once_witness :
  snd (gensio_avahi_timeout_free idle_timeout GE_TIMEDOUT) =
    [EvStopTimerWithDone; EvFreeTimer; EvPollDeref].
Proof.
  pose proof (timeout_free_releases_once idle_timeout GE_TIMEDOUT GE_NOERR
                {| tv_sec := 0; tv_usec := 0 |} eq_refl) as H.
  cbv zeta in H. destruct H as (_ & _ & H & _). apply H. reflexivity.
Defined.

(** [timeout_new] takes one poll reference when it succeeds and none when an
    allocation fails; with a [NULL] expiry the new timeout is stopped and the
    timer is not touched; with an expiry the timer is stopped with a done
    callback and restarted once, at once when the stop answers
    [GE_TIMEDOUT]. *)
Theorem timeout_new_outcomes (alloc_ok timer_ok : bool) (new_tv : option timeval)
    (rv : gensio_err) (now : timeval) :
  let r := gensio_avahi_timeout_new alloc_ok timer_ok new_tv rv now in
  (fst (fst r) = None ↔ alloc_ok && timer_ok = false) ∧
  snd (fst r) = (if alloc_ok && timer_ok then 1 else 0) ∧
  (alloc_ok = true → timer_ok = false → snd r = [EvFreeTimeout]) ∧
  (alloc_ok && timer_ok = true → new_tv = None →
     snd r = [] ∧ ∃ at', fst (fst r) = Some at' ∧ stopped at' = true ∧
                         gensio_avahi_timeout at' = false) ∧
  (alloc_ok && timer_ok = true → ∀ t, new_tv = Some t → rv = GE_TIMEDOUT →
     starts (snd r) = 1%nat ∧
     ∃ at', fst (fst r) = Some at' ∧ tv at' = t ∧ stopped at' = false ∧
            in_update at' = false).
Proof.
  unfold gensio_avahi_timeout_new.
  destruct alloc_ok, timer_ok; cbn [negb andb fst snd];
    repeat split; intros; try discriminate; try reflexivity; subst;
    try (unfold gensio_avahi_timeout_update, i_gensio_avahi_timer_stopped; cbn;
         eauto 10).
Qed.

(** [gensio_avahi_poll_deref] never takes the count below zero: at zero its
    assertion fails; otherwise the count goes down by one and the runner is
    scheduled exactly when it reaches zero. *)
Theorem poll_deref_schedules_at_zero (u : gensio_avahi_userdata) :
  0 ≤ u_refcount u < 2 ^ 32 →
  (u_refcount u = 0 → gensio_avahi_poll_deref u = None) ∧
  (0 < u_refcount u →
   ∃ u', gensio_avahi_poll_deref u = Some u' ∧
         u_refcount u' = u_refcount u - 1 ∧
         u_stopped u' = u_stopped u ∧ stop_done u' = stop_done u ∧
         runs u' = (if u_refcount u =? 1 then S (runs u) else runs u)).
Proof.
  intros Hr. unfold gensio_avahi_poll_deref. split.
  - intros ->. reflexivity.
  - intros Hp. replace (0 <? u_refcount u) with true by (symmetry; apply Z.ltb_lt; lia).
    eexists. split; [reflexivity|]. cbn.
    unfold wrap32. rewrite Z.mod_small by lia.
    repeat split.
    destruct (Z.eqb_spec (u_refcount u - 1) 0), (Z.eqb_spec (u_refcount u) 1);
      try reflexivity; lia.
Qed.

Lemma poll_deref_schedules_at_zero_witness :
  ∃ u', gensio_avahi_poll_deref alloc_gensio_avahi_userdata = Some u' ∧
        u_refcount u' = 0 ∧ runs u' = 1%nat.
Proof.
  destruct (poll_deref_schedules_at_zero alloc_gensio_avahi_userdata) as [_ H].
  - cbn. lia.
  - destruct H as (u' & H1 & H2 & _ & _ & H3); [cbn; lia|].
    exists u'. split; [exact H1|]. split; [exact H2 | exact H3].
Defined.

Lemma poll_run_app u ops1 ops2 :
  poll_run u (ops1 ++ ops2) = u' ← poll_run u ops1; poll_run u' ops2.
Proof.
  revert u. induction ops1 as [|op ops1 IH]; intros u; cbn; [reflexivity|].
  destruct (poll_step u op); cbn; [apply IH | reflexivity].
Qed.

Lemma poll_run_news n u :
  u_refcount u + Z.of_nat n < 2 ^ 32 → 0 ≤ u_refcount u →
  ∃ u', poll_run u (replicate n PollNew) = Some u' ∧
        u_refcount u' = u_refcount u + Z.of_nat n ∧
        u_stopped u' = u_stopped u ∧ runs u' = runs u.
Proof.
  revert u. induction n as [|n IH]; intros u Hb Hp; cbn [replicate poll_run].
  - exists u. repeat split. lia.
  - cbn [poll_step mbind option_bind]. 
    destruct (IH (poll_ref u)) as (u' & H1 & H2 & H3 & H4).
    + cbn. unfold wrap32. rewrite Z.mod_small by lia. lia.
    + cbn. unfold wrap32. apply Z.mod_pos_bound. lia.
    + exists u'. split; [exact H1|]. cbn in H2, H3, H4.
      unfold wrap32 in H2. rewrite Z.mod_small in H2 by lia.
      repeat split; try assumption. lia.
Qed.

Lemma gives_up_nonneg u ops : 0 ≤ gives_up u ops.
Proof. unfold gives_up. destruct (negb (u_stopped u) && existsb is_poll_free ops); lia. Qed.

Lemma gives_up_release u ops : gives_up u (PollRelease :: ops) = 1 + gives_up u ops.
Proof.
  unfold gives_up. cbn [List.filter is_poll_release existsb is_poll_free length orb].
  lia.
Qed.

Lemma gives_up_free u d x ops :
  gives_up u (PollFree d x :: ops) =
    Z.of_nat (length (List.filter is_poll_release ops)) +
    (if u_stopped u then 0 else 1).
Proof.
  unfold gives_up. cbn [List.filter is_poll_release existsb is_poll_free length orb].
  destruct (u_stopped u); reflexivity.
Qed.

Lemma gives_up_stopped u ops :
  u_stopped u = true →
  gives_up u ops = Z.of_nat (length (List.filter is_poll_release ops)).
Proof. intros H. unfold gives_up. rewrite H. cbn. lia. Qed.

Lemma poll_run_idle ops u :
  forallb (λ op, negb (is_poll_new op)) ops = true → gives_up u ops = 0 →
  poll_run u ops = Some u.
Proof.
  induction ops as [|op ops IH]; intros Hn Hg; [reflexivity|].
  cbn [forallb] in Hn. apply andb_true_iff in Hn as [Hop Hn].
  destruct op as [| |d x]; [discriminate | |].
  - rewrite gives_up_release in Hg. pose proof (gives_up_nonneg u ops). lia.
  - rewrite gives_up_free in Hg.
    destruct (u_stopped u) eqn:Hs; [|lia].
    cbn [poll_run poll_step]. unfold gensio_avahi_poll_free. rewrite Hs.
    cbn [mbind option_bind]. apply IH; [exact Hn|].
    rewrite gives_up_stopped by exact Hs. lia.
Qed.

Lemma poll_run_gives_up ops : ∀ u,
  forallb (λ op, negb (is_poll_new op)) ops = true →
  0 < u_refcount u < 2 ^ 32 → runs u = 0%nat → gives_up u ops ≤ u_refcount u →
  ∃ u', poll_run u ops = Some u' ∧
        u_refcount u' = u_refcount u - gives_up u ops ∧
        runs u' = if u_refcount u' =? 0 then 1%nat else 0%nat.
Proof.
  induction ops as [|op ops IH]; intros u Hn Hr Hz Hg.
  - exists u. unfold gives_up. cbn [List.filter length existsb]. rewrite andb_false_r.
    replace (u_refcount u =? 0) with false by (symmetry; apply Z.eqb_neq; lia).
    split; [reflexivity|]. split; [cbn; lia | exact Hz].
  - cbn [forallb] in Hn. apply andb_true_iff in Hn as [Hop Hn].
    assert (Hstep : ∀ u1, poll_step u op = Some u1 →
              u_refcount u1 = u_refcount u - 1 → runs u1 = (if u_refcount u1 =? 0 then 1%nat else 0%nat) →
              gives_up u1 ops = gives_up u (op :: ops) - 1 →
              ∃ u', poll_run u (op :: ops) = Some u' ∧
                    u_refcount u' = u_refcount u - gives_up u (op :: ops) ∧
                    runs u' = if u_refcount u' =? 0 then 1%nat else 0%nat).
    { intros u1 Hs H1 H2 H3. cbn [poll_run]. rewrite Hs. cbn [mbind option_bind].
      pose proof (gives_up_nonneg u1 ops) as Hnn.
      destruct (Z.eqb_spec (u_refcount u1) 0) as [H0|H0].
      - rewrite poll_run_idle; [|exact Hn|lia].
        exists u1. split; [reflexivity|]. split; [lia|].
        rewrite H2. replace (u_refcount u1 =? 0) with true by (symmetry; apply Z.eqb_eq; lia).
        reflexivity.
      - destruct (IH u1 Hn) as (u' & I1 & I2 & I3); [lia | exact H2 | lia |].
        exists u'. split; [exact I1|]. split; [lia | exact I3]. }
    destruct op as [| |d x]; [discriminate | |].
    + destruct (poll_deref_schedules_at_zero u) as [_ H]; [lia|].
      destruct H as (u1 & D1 & D2 & D3 & _ & D5); [lia|].
      apply (Hstep u1); [exact D1 | exact D2 | |].
      * rewrite D5, Hz, D2.
        destruct (Z.eqb_spec (u_refcount u) 1), (Z.eqb_spec (u_refcount u - 1) 0);
          try reflexivity; lia.
      * rewrite gives_up_release. unfold gives_up. rewrite D3. lia.
    + destruct (u_stopped u) eqn:Hs.
      * (* already stopped: nothing happens *)
        cbn [poll_run poll_step]. unfold gensio_avahi_poll_free. rewrite Hs.
        cbn [mbind option_bind].
        assert (Hsame : gives_up u (PollFree d x :: ops) = gives_up u ops).
        { rewrite gives_up_free, Hs, gives_up_stopped by exact Hs. lia. }
        rewrite Hsame in *. apply IH; assumption.
      * set (u0 := {| u_refcount := u_refcount u; u_stopped := true; stop_done := d;
                      stop_userdata := x; runs := runs u |}).
        destruct (poll_deref_schedules_at_zero u0) as [_ H]; [cbn; lia|].
        destruct H as (u1 & D1 & D2 & D3 & _ & D5); [cbn; lia|].
        cbn in D2, D3, D5.
        apply (Hstep u1).
        -- cbn [poll_step]. unfold gensio_avahi_poll_free. rewrite Hs. exact D1.
        -- exact D2.
        -- rewrite D5, Hz, D2.
           destruct (Z.eqb_spec (u_refcount u) 1), (Z.eqb_spec (u_refcount u - 1) 0);
             try reflexivity; lia.
        -- rewrite gives_up_free, Hs, gives_up_stopped by exact D3. lia.
Qed.

(** A poll on which [n] watches and timeouts were created schedules its
    runner exactly once, and exactly when the last of its [n + 1] references
    is given up: each release of an object gives up one, [poll_free] gives up
    the poll's own the first time it is called and nothing afterwards.  As
    long as references remain the runner is not scheduled. *)
Theorem poll_runner_scheduled_once (n : nat) (ops : list poll_op) :
  Z.of_nat n < 2 ^ 32 - 1 →
  forallb (λ op, negb (is_poll_new op)) ops = true →
  gives_up alloc_gensio_avahi_userdata ops ≤ 1 + Z.of_nat n →
  ∃ u, poll_run alloc_gensio_avahi_userdata (replicate n PollNew ++ ops) = Some u ∧
       u_refcount u = 1 + Z.of_nat n - gives_up alloc_gensio_avahi_userdata ops ∧
       runs u = if u_refcount u =? 0 then 1%nat else 0%nat.
Proof.
  intros Hn Hops Hg.
  destruct (poll_run_news n alloc_gensio_avahi_userdata) as (u1 & H1 & H2 & H3 & H4);
    [cbn; lia | cbn; lia |].
  cbn in H2, H3, H4.
  assert (Hsame : gives_up u1 ops = gives_up alloc_gensio_avahi_userdata ops).
  { unfold gives_up. rewrite H3. reflexivity. }
  destruct (poll_run_gives_up ops u1 Hops) as (u & R1 & R2 & R3); [lia | exact H4 | lia |].
  exists u. rewrite poll_run_app, H1. cbn [mbind option_bind].
  split; [exact R1|]. split; [lia | exact R3].
Qed.

Lemma poll_runner_scheduled_once_witness :
  ∃ u, poll_run alloc_gensio_avahi_userdata
         (replicate 2 PollNew ++
          [PollRelease; PollFree (Some 7) 0; PollFree None 0; PollRelease]) = Some u ∧
       u_refcount u = 0 ∧ runs u = 1%nat.
Proof.
  destruct (poll_runner_scheduled_once 2
              [PollRelease; PollFree (Some 7) 0; PollFree None 0; PollRelease])
    as (u & H1 & H2 & H3).
  - cbn. lia.
  - reflexivity.
  - vm_compute. discriminate.
  - exists u. split; [exact H1|]. 
    assert (H0 : u_refcount u = 0) by (rewrite H2; reflexivity).
    split; [exact H0|]. rewrite H3, H0. reflexivity.
Defined.

(** Once [watch_free] has marked a watch, none of its ready handlers calls
    the user's callback; before that each calls it once with its own event and
    leaves [revents] zero.  A second [watch_free] fails the assertion. *)
Theorem watch_free_silences_handlers (w w' : AvahiWatch) (calls : list watch_event)
    (ev : Z) :
  gensio_avahi_watch_free w = Some (w', calls) →
  gensio_avahi_ready_handler ev w =
    ({| w_fd := w_fd w; events := events w; revents := 0; w_freed := false |},
     [EvCallback (w_fd w) ev]) ∧
  calls = [EvClearFdHandlers (w_fd w)] ∧
  gensio_avahi_ready_handler ev w' = (w', []) ∧
  gensio_avahi_watch_free w' = None ∧
  gensio_avahi_watch_get_events w' = gensio_avahi_watch_get_events w.
Proof.
  unfold gensio_avahi_watch_free, gensio_avahi_ready_handler.
  destruct w as [fd evs rev fr]. cbn. destruct fr; [discriminate|].
  intros [= <- <-]. cbn. repeat split.
Qed.

Lemma watch_free_silences_handlers_witness :
  let w := {| w_fd := 3; events := 1; revents := 0; w_freed := false |} in
  gensio_avahi_ready_handler 1
    {| w_fd := 3; events := 1; revents := 0; w_freed := true |} =
    ({| w_fd := 3; events := 1; revents := 0; w_freed := true |}, []).
Proof.
  intros w.
  destruct (watch_free_silences_handlers w
              {| w_fd := 3; events := 1; revents := 0; w_freed := true |}
              [EvClearFdHandlers 3] 1 eq_refl) as (_ & _ & H & _).
  exact H.
Defined.

(** [watch_new] counts a poll reference exactly when it returns a watch: not
    when the allocation fails, and not when [set_fd_handlers] fails, where the
    structure is freed again and no handler is enabled.  On success the three
    handlers are set from the bits of the event mask. *)
Theorem watch_new_outcomes (win wout werr : Z) (alloc_ok err : bool) (fd event : Z) :
  let r := gensio_avahi_watch_new win wout werr alloc_ok err fd event in
  (snd (fst r) = match fst (fst r) with Some _ => 1 | None => 0 end) ∧
  (fst (fst r) = None ↔ alloc_ok = false ∨ err = true) ∧
  (alloc_ok = true → err = true → snd r = [CallSetFdHandlers fd; CallFree]) ∧
  (alloc_ok = true → err = false →
     fst (fst r) = Some {| w_fd := fd; events := event; revents := 0; w_freed := false |} ∧
     snd r = [CallSetFdHandlers fd;
              CallSetReadHandler fd (negb (Z.land event win =? 0));
              CallSetWriteHandler fd (negb (Z.land event wout =? 0));
              CallSetExceptHandler fd (negb (Z.land event werr =? 0))]).
Proof.
  unfold gensio_avahi_watch_new, gensio_avahi_watch_update.
  destruct alloc_ok, err; cbn; repeat split; intros; try discriminate; auto;
    try (destruct H; discriminate).
Qed.

End AvahiFacts.
